(** * The real-time voice session of services/geminiService.ts

    A shallow embedding of the [LiveVoiceSession] class and of the PCM codec
    it carries, followed by the properties of the specification that concern
    them.

    Numbers.  JavaScript numbers are IEEE doubles and audio samples are IEEE
    singles.  Every finite single is a rational, and the two products the
    codec forms ([s * 0x8000], [s * 0x7FFF], a 24-bit significand times a
    15-bit one) and its quotient ([n / 32768.0], a 16-bit integer over a power
    of two) are exact in double precision, so samples are embedded as [Q]
    without loss.  Clock readings and durations are idealised as [Q] too.

    Effects.  Every call that leaves the class (callbacks given to the
    constructor, Web Audio nodes, reactions registered on the session promise)
    is recorded in a trace; the class fields are a record threaded through a
    small state-and-exception monad.

    Awaits.  A callback that awaits a promise settled by someone else gives
    up control until then.  Such a callback is several operations of a
    history: one up to the [await], one for each resumption, and whatever
    else happens to the session comes in between.  The promise of the
    injected tool handler is of that kind.  A reaction registered with
    [then] is an operation of its own as well, run when the platform
    fulfils the promise. *)

From Stdlib Require Import ZArith QArith Qround Qminmax Qabs String Ascii List Bool Lia Lqa.
Import ListNotations.

Local Open Scope Z_scope.

(* ===================================================================== *)
(** * Part I.  Definitions                                                *)
(* ===================================================================== *)

(** ** Errors raised by the platform or by injected code *)

Inductive JsError : Type :=
| RangeError            (* typed-array view over a buffer of the wrong size *)
| NotSupportedError     (* Web Audio: createBuffer with a zero length *)
| InvalidCharacterError (* atob on a string that is not base64 *)
| TypeError             (* property access on null *)
| HandlerError (reason : string). (* whatever an injected tool handler throws *)

Inductive Outcome (A : Type) : Type :=
| Ok (a : A)
| Throw (e : JsError).
Arguments Ok {A} a.
Arguments Throw {A} e.

(** ** Typed arrays *)

(** ECMAScript [ToIntegerOrInfinity] on a finite number: drop the fraction. *)
Definition js_truncate (x : Q) : Z :=
  if Qle_bool 0 x then Qfloor x else Qceiling x.

(** ECMAScript [ToInt16], the conversion applied by a store into an
    [Int16Array]: truncate, reduce modulo 2^16, read as two's complement. *)
Definition ToInt16_Z (n : Z) : Z :=
  let k := n mod 65536 in
  if 32768 <=? k then k - 65536 else k.

Definition ToInt16 (x : Q) : Z := ToInt16_Z (js_truncate x).

(** ECMAScript [ToUint8], the conversion applied by a store into a
    [Uint8Array]. *)
Definition ToUint8 (n : Z) : Z := n mod 256.

(** [new Uint8Array(pcm16.buffer)]: the bytes under an [Int16Array], low byte
    first (every platform that runs this code is little-endian). *)
Fixpoint Uint8Array_of_Int16Array (pcm16 : list Z) : list Z :=
  match pcm16 with
  | [] => []
  | v :: rest => ToUint8 v :: ToUint8 (v / 256) :: Uint8Array_of_Int16Array rest
  end.

(** [new Int16Array(data.buffer)]: the 16-bit view over a byte buffer.  The
    constructor throws a [RangeError] when the byte length is odd. *)
Fixpoint Int16Array_of_Uint8Array (data : list Z) : Outcome (list Z) :=
  match data with
  | [] => Ok []
  | [_] => Throw RangeError
  | lo :: hi :: rest =>
      match Int16Array_of_Uint8Array rest with
      | Ok vs => Ok (ToInt16_Z (lo + 256 * hi) :: vs)
      | Throw e => Throw e
      end
  end.

(** ** The PCM codec *)

Definition Qltb (x y : Q) : bool := negb (Qle_bool y x).

(** One iteration of the loop of [floatTo16BitPCM]:
    [s = Math.max(-1, Math.min(1, input[i]));
     output[i] = s < 0 ? s * 0x8000 : s * 0x7FFF]. *)
Definition floatTo16BitPCM_at (x : Q) : Z :=
  let s := Qmax (-1) (Qmin 1 x) in
  ToInt16 (if Qltb s 0 then s * 32768 else s * 32767)%Q.

Definition floatTo16BitPCM (input : list Q) : list Z :=
  map floatTo16BitPCM_at input.

(** An [AudioBuffer] with one channel. *)
Record AudioBuffer : Type := mkAudioBuffer {
  channelData : list Q;
  sampleRate : Z
}.

Definition duration (b : AudioBuffer) : Q :=
  (inject_Z (Z.of_nat (length (channelData b))) / inject_Z (sampleRate b))%Q.

(** [ctx.createBuffer(1, length, sampleRate)]: a silent buffer.  Web Audio
    rejects a zero length with a [NotSupportedError]. *)
Definition createBuffer (len : nat) (rate : Z) : Outcome AudioBuffer :=
  match len with
  | O => Throw NotSupportedError
  | _ => Ok (mkAudioBuffer (repeat 0%Q len) rate)
  end.

(** The loop of [decodeAudioData]: [channelData[i] = dataInt16[i] / 32768.0]. *)
Definition fill_channel (dataInt16 : list Z) : list Q :=
  map (fun v => (inject_Z v / 32768)%Q) dataInt16.

Definition decodeAudioData (data : list Z) : Outcome AudioBuffer :=
  match Int16Array_of_Uint8Array data with
  | Throw e => Throw e
  | Ok dataInt16 =>
      match createBuffer (length dataInt16) 24000 with
      | Throw e => Throw e
      | Ok buffer => Ok (mkAudioBuffer (fill_channel dataInt16) (sampleRate buffer))
      end
  end.

(** ** The text-safe layer: [btoa] and [atob]

    Both are platform functions.  A binary string holds one character per
    byte; [string] is exactly that.  [btoa] is RFC 4648 base64 with padding,
    [atob] is the forgiving decoder of the WHATWG Infra standard. *)

Definition String_fromCharCode (n : Z) : ascii := ascii_of_N (Z.to_N n).
Definition charCodeAt (c : ascii) : Z := Z.of_N (N_of_ascii c).

Definition base64_alphabet : string :=
  "ABCDEFGHIJKLMNOPQRSTUVWXYZabcdefghijklmnopqrstuvwxyz0123456789+/".

Definition base64_char (n : Z) : ascii :=
  nth (Z.to_nat n) (list_ascii_of_string base64_alphabet) "="%char.

Definition base64_index (c : ascii) : option Z :=
  let n := charCodeAt c in
  if (65 <=? n) && (n <=? 90) then Some (n - 65)
  else if (97 <=? n) && (n <=? 122) then Some (n - 71)
  else if (48 <=? n) && (n <=? 57) then Some (n + 4)
  else if n =? 43 then Some 62
  else if n =? 47 then Some 63
  else None.

Fixpoint btoa_groups (bs : list Z) : list ascii :=
  match bs with
  | [] => []
  | [a] =>
      [base64_char (a / 4); base64_char (a mod 4 * 16); "="%char; "="%char]
  | [a; b] =>
      [base64_char (a / 4); base64_char (a mod 4 * 16 + b / 16);
       base64_char (b mod 16 * 4); "="%char]
  | a :: b :: c :: rest =>
      base64_char (a / 4) :: base64_char (a mod 4 * 16 + b / 16)
      :: base64_char (b mod 16 * 4 + c / 64) :: base64_char (c mod 64)
      :: btoa_groups rest
  end.

Definition btoa (binary : string) : string :=
  string_of_list_ascii
    (btoa_groups (map charCodeAt (list_ascii_of_string binary))).

Definition is_ascii_whitespace (c : ascii) : bool :=
  let n := charCodeAt c in
  (n =? 9) || (n =? 10) || (n =? 12) || (n =? 13) || (n =? 32).

Definition is_pad (c : ascii) : bool := Ascii.eqb c "="%char.

(** Step 2 of forgiving-base64 decode: drop one or two trailing [=]. *)
Definition strip_padding (data : list ascii) : list ascii :=
  match rev data with
  | c1 :: c2 :: r =>
      if is_pad c1 then (if is_pad c2 then rev r else rev (c2 :: r)) else data
  | [c1] => if is_pad c1 then [] else data
  | [] => data
  end.

Fixpoint sextets (data : list ascii) : option (list Z) :=
  match data with
  | [] => Some []
  | c :: rest =>
      match base64_index c, sextets rest with
      | Some v, Some vs => Some (v :: vs)
      | _, _ => None
      end
  end.

Fixpoint atob_groups (vs : list Z) : list Z :=
  match vs with
  | a :: b :: c :: d :: rest =>
      (a * 4 + b / 16) :: (b mod 16 * 16 + c / 4) :: (c mod 4 * 64 + d)
      :: atob_groups rest
  | [a; b; c] => [a * 4 + b / 16; b mod 16 * 16 + c / 4]
  | [a; b] => [a * 4 + b / 16]
  | _ => []
  end.

Definition atob (base64 : string) : Outcome string :=
  let data :=
    filter (fun c => negb (is_ascii_whitespace c)) (list_ascii_of_string base64) in
  let data :=
    if (length data mod 4 =? 0)%nat then strip_padding data else data in
  if (length data mod 4 =? 1)%nat then Throw InvalidCharacterError
  else
    match sextets data with
    | None => Throw InvalidCharacterError
    | Some vs =>
        Ok (string_of_list_ascii (map String_fromCharCode (atob_groups vs)))
    end.

(** [arrayBufferToBase64]: one character per byte, then [btoa]. *)
Definition arrayBufferToBase64 (buffer : list Z) : string :=
  btoa (string_of_list_ascii (map String_fromCharCode buffer)).

(** [base64ToUint8Array]: [atob], then one byte per character. *)
Definition base64ToUint8Array (base64 : string) : Outcome (list Z) :=
  match atob base64 with
  | Throw e => Throw e
  | Ok binaryString =>
      Ok (map (fun c => ToUint8 (charCodeAt c)) (list_ascii_of_string binaryString))
  end.

(** The codec of the specification, as the class composes it: the capture
    callback encodes (lines 207-210), the message handler decodes (lines
    260-261). *)
Definition encode (frame : list Q) : string :=
  arrayBufferToBase64 (Uint8Array_of_Int16Array (floatTo16BitPCM frame)).

Definition decode (chunk : string) : Outcome AudioBuffer :=
  match base64ToUint8Array chunk with
  | Throw e => Throw e
  | Ok audioBytes => decodeAudioData audioBytes
  end.

(** The sample map in the words of the specification:
    [round(clamp(s,-1,1) * (s<0 ? 32768 : 32767))], rounding to nearest. *)
Definition spec_round (x : Q) : Z := Qfloor (x + (1 # 2))%Q.

Definition spec_encode_sample (s : Q) : Z :=
  spec_round ((Qmax (-1) (Qmin 1 s) * (if Qltb s 0 then 32768 else 32767))%Q).

(** ** Messages exchanged with the remote agent *)

(** Values of type [any]: tool arguments and tool results. *)
Inductive JsValue : Type :=
| JsUndefined
| JsString (s : string)
| JsOther (json : string).   (* any other value, by its JSON text *)

Record FunctionCall : Type := mkFunctionCall {
  fc_id : string;
  fc_name : string;
  fc_args : JsValue
}.

(** The fields of [msg.serverContent] that [onmessage] probes.  A field that
    is absent is [None]; [modelTurnData] is
    [serverContent?.modelTurn?.parts?.[0]?.inlineData?.data]. *)
Record LiveServerContent : Type := mkServerContent {
  outputTranscription : option string;
  inputTranscription : option string;
  turnComplete : bool;
  modelTurnData : option string
}.

Record LiveServerMessage : Type := mkServerMessage {
  serverContent : option LiveServerContent;
  toolCall : option (list FunctionCall)
}.

(** Calls on the resolved session object [s]. *)
Inductive ClientMessage : Type :=
| SendClientContent (text : string)
| SendRealtimeInput (mimeType data : string)
| SendToolResponse (id name : string) (result : JsValue)
| Close.

(** The callbacks the class passes to [this.session.then]. *)
Inductive Reaction : Type :=
| OnSendText (text : string)
| OnSendImage (base64Data : string)
| OnSendAudio (base64Data : string)
| OnToolResponse (fc : FunctionCall) (result : JsValue)
| OnClose.

(** Everything that crosses the boundary of the class.  Objects of the
    platform (audio contexts, nodes, streams, promises) are named by their
    identity, a natural number. *)
Inductive Effect : Type :=
| AiSpeaking (speaking : bool)
| ErrorReport (msg : string)
| TranscriptionReport (userText aiText : string) (isFinal : bool)
| ContextResume (ctx : nat)
| ContextClose (ctx : nat)
| NodeDisconnect (node : nat)
| TrackStop (stream : nat)
| SourceStart (source : nat) (buffer : AudioBuffer) (when : Q)
| SourceStop (source : nat)
| PromiseThen (promise : nat) (k : Reaction)
| SessionCall (m : ClientMessage).

(** ** The fields of [LiveVoiceSession] *)

(** The variables captured by the teardown closure built in [connect]. *)
Record CleanupClosure : Type := mkCleanup {
  cl_source : nat;
  cl_processor : nat;
  cl_stream : nat;
  cl_sessionPromise : nat
}.

Record LiveVoiceSession : Type := mkSession {
  inputContext : option nat;
  outputContext : option nat;
  session : option nat;
  nextStartTime : Q;
  currentSources : list nat;      (* a JS [Set]: insertion order, no repeats *)
  isMuted : bool;
  cleanup : option CleanupClosure;
  currentInputTranscription : string;
  currentOutputTranscription : string;
  onTranscription : bool;         (* was the optional third callback given? *)
  heap : nat                      (* the next unused object identity *)
}.

(** [new LiveVoiceSession(onAiSpeaking, onError, onTranscription?)]. *)
Definition constructor (withTranscription : bool) : LiveVoiceSession :=
  mkSession None None None 0%Q [] true None ""%string ""%string withTranscription O.

Definition set_inputContext v (t : LiveVoiceSession) :=
  mkSession v (outputContext t) (session t) (nextStartTime t) (currentSources t)
    (isMuted t) (cleanup t) (currentInputTranscription t)
    (currentOutputTranscription t) (onTranscription t) (heap t).
Definition set_outputContext v (t : LiveVoiceSession) :=
  mkSession (inputContext t) v (session t) (nextStartTime t) (currentSources t)
    (isMuted t) (cleanup t) (currentInputTranscription t)
    (currentOutputTranscription t) (onTranscription t) (heap t).
Definition set_session v (t : LiveVoiceSession) :=
  mkSession (inputContext t) (outputContext t) v (nextStartTime t) (currentSources t)
    (isMuted t) (cleanup t) (currentInputTranscription t)
    (currentOutputTranscription t) (onTranscription t) (heap t).
Definition set_nextStartTime v (t : LiveVoiceSession) :=
  mkSession (inputContext t) (outputContext t) (session t) v (currentSources t)
    (isMuted t) (cleanup t) (currentInputTranscription t)
    (currentOutputTranscription t) (onTranscription t) (heap t).
Definition set_currentSources v (t : LiveVoiceSession) :=
  mkSession (inputContext t) (outputContext t) (session t) (nextStartTime t) v
    (isMuted t) (cleanup t) (currentInputTranscription t)
    (currentOutputTranscription t) (onTranscription t) (heap t).
Definition set_isMuted v (t : LiveVoiceSession) :=
  mkSession (inputContext t) (outputContext t) (session t) (nextStartTime t)
    (currentSources t) v (cleanup t) (currentInputTranscription t)
    (currentOutputTranscription t) (onTranscription t) (heap t).
Definition set_cleanup v (t : LiveVoiceSession) :=
  mkSession (inputContext t) (outputContext t) (session t) (nextStartTime t)
    (currentSources t) (isMuted t) v (currentInputTranscription t)
    (currentOutputTranscription t) (onTranscription t) (heap t).
Definition set_currentInputTranscription v (t : LiveVoiceSession) :=
  mkSession (inputContext t) (outputContext t) (session t) (nextStartTime t)
    (currentSources t) (isMuted t) (cleanup t) v
    (currentOutputTranscription t) (onTranscription t) (heap t).
Definition set_currentOutputTranscription v (t : LiveVoiceSession) :=
  mkSession (inputContext t) (outputContext t) (session t) (nextStartTime t)
    (currentSources t) (isMuted t) (cleanup t) (currentInputTranscription t)
    v (onTranscription t) (heap t).
Definition set_heap v (t : LiveVoiceSession) :=
  mkSession (inputContext t) (outputContext t) (session t) (nextStartTime t)
    (currentSources t) (isMuted t) (cleanup t) (currentInputTranscription t)
    (currentOutputTranscription t) (onTranscription t) v.

(** What a method reads from the platform when it runs. *)
Record Env : Type := mkEnv {
  currentTime : Q;           (* [outputContext.currentTime] *)
  inputSuspended : bool;     (* [inputContext.state === 'suspended'] *)
  outputSuspended : bool     (* [outputContext.state === 'suspended'] *)
}.

(** ** The monad of methods: state, trace, exceptions *)

Definition M (A : Type) : Type :=
  LiveVoiceSession -> Outcome A * LiveVoiceSession * list Effect.

Definition ret {A} (a : A) : M A := fun this => (Ok a, this, []).

Definition bind {A B} (m : M A) (k : A -> M B) : M B :=
  fun this =>
    match m this with
    | (Ok a, this1, out1) =>
        match k a this1 with
        | (r, this2, out2) => (r, this2, out1 ++ out2)
        end
    | (Throw e, this1, out1) => (Throw e, this1, out1)
    end.

Definition get : M LiveVoiceSession := fun this => (Ok this, this, []).
Definition modify (f : LiveVoiceSession -> LiveVoiceSession) : M unit :=
  fun this => (Ok tt, f this, []).
Definition emit (out : list Effect) : M unit := fun this => (Ok tt, this, out).
Definition throw {A} (e : JsError) : M A := fun this => (Throw e, this, []).
Definition lift {A} (r : Outcome A) : M A := fun this => (r, this, []).

(** [new]: a fresh object identity. *)
Definition alloc : M nat :=
  fun this => (Ok (heap this), set_heap (S (heap this)) this, []).

Declare Scope method_scope.
Delimit Scope method_scope with method.
Notation "x <- m ;; k" := (bind m (fun x => k))
  (at level 61, m at next level, right associativity) : method_scope.
Notation "m ;; k" := (bind m (fun _ => k))
  (at level 61, right associativity) : method_scope.
Local Open Scope method_scope.

Definition state_of {A} (r : Outcome A * LiveVoiceSession * list Effect) :=
  snd (fst r).
Definition trace_of {A} (r : Outcome A * LiveVoiceSession * list Effect) :=
  snd r.
Definition outcome_of {A} (r : Outcome A * LiveVoiceSession * list Effect) :=
  fst (fst r).

(** ** The methods of [LiveVoiceSession] *)

(** [Set.prototype.add] and [Set.prototype.delete] on identities. *)
Definition Set_add (x : nat) (s : list nat) : list nat :=
  if existsb (Nat.eqb x) s then s else s ++ [x].
Definition Set_delete (x : nat) (s : list nat) : list nat :=
  filter (fun y => negb (Nat.eqb x y)) s.

(** [stopAudioOutput] (lines 186-193).  [source.stop()] runs under a
    [try]/[catch], so the loop always completes. *)
Definition stopAudioOutput (env : Env) : M unit :=
  this <- get ;;
  emit (map SourceStop (currentSources this)) ;;
  modify (set_currentSources []) ;;
  modify (set_nextStartTime
            (match outputContext this with
             | Some _ => currentTime env
             | None => 0%Q
             end)) ;;
  emit [AiSpeaking false].

(** [setListening] (lines 141-149). *)
Definition setListening (env : Env) (isListening : bool) : M unit :=
  modify (set_isMuted (negb isListening)) ;;
  if isListening then
    this <- get ;;
    emit (match inputContext this with
          | Some c => if inputSuspended env then [ContextResume c] else []
          | None => []
          end) ;;
    emit (match outputContext this with
          | Some c => if outputSuspended env then [ContextResume c] else []
          | None => []
          end)
  else stopAudioOutput env.

(** [sendText] (lines 153-169). *)
Definition sendText (text : string) : M unit :=
  this <- get ;;
  match session this with
  | None => ret tt
  | Some p => emit [PromiseThen p (OnSendText text)]
  end.

(** [sendImage] (lines 172-184). *)
Definition sendImage (base64Data : string) : M unit :=
  this <- get ;;
  match session this with
  | None => ret tt
  | Some p => emit [PromiseThen p (OnSendImage base64Data)]
  end.

Definition image_nudge : string :=
  "I just sent you a photo. Look at it, describe it excitedly to the child, and then use the drawing tool to turn it into a magic scene!".

(** The resolved session object: does it have a [send] method? *)
Record SessionObject : Type := mkSessionObject { hasSend : bool }.

(** The body of each callback given to [this.session.then], run when the
    promise is fulfilled with [s]. *)
Definition react (s : SessionObject) (k : Reaction) : M unit :=
  match k with
  | OnSendText text =>
      if hasSend s then emit [SessionCall (SendClientContent text)] else ret tt
  | OnSendImage base64Data =>
      emit [SessionCall (SendRealtimeInput "image/jpeg" base64Data)] ;;
      sendText image_nudge
  | OnSendAudio base64Data =>
      emit [SessionCall (SendRealtimeInput "audio/pcm;rate=16000" base64Data)]
  | OnToolResponse fc result =>
      emit [SessionCall (SendToolResponse (fc_id fc) (fc_name fc) result)]
  | OnClose => emit [SessionCall Close]
  end.

(** [processor.onaudioprocess] (lines 204-220), on the samples of channel 0. *)
Definition onaudioprocess (inputData : list Q) : M unit :=
  this <- get ;;
  match isMuted this, session this with
  | false, Some p =>
      let pcm16 := floatTo16BitPCM inputData in
      let uint8 := Uint8Array_of_Int16Array pcm16 in
      let base64Data := arrayBufferToBase64 uint8 in
      emit [PromiseThen p (OnSendAudio base64Data)]
  | _, _ => ret tt
  end.

(** [playAudioBuffer] (lines 352-371). *)
Definition playAudioBuffer (env : Env) (buffer : AudioBuffer) : M unit :=
  this <- get ;;
  match outputContext this with
  | None => ret tt
  | Some _ =>
      modify (set_nextStartTime (Qmax (nextStartTime this) (currentTime env))) ;;
      source <- alloc ;;
      emit [AiSpeaking true] ;;
      this <- get ;;
      emit [SourceStart source buffer (nextStartTime this)] ;;
      modify (set_nextStartTime (nextStartTime this + duration buffer)%Q) ;;
      this <- get ;;
      modify (set_currentSources (Set_add source (currentSources this)))
  end.

(** [source.onended] (lines 360-365), the completion callback of [source]. *)
Definition onended (source : nat) : M unit :=
  this <- get ;;
  modify (set_currentSources (Set_delete source (currentSources this))) ;;
  this <- get ;;
  match currentSources this with
  | [] => emit [AiSpeaking false]
  | _ => ret tt
  end.

(** [this.onTranscription?.(input, output, isFinal)]. *)
Definition report_transcription (isFinal : bool) : M unit :=
  this <- get ;;
  if onTranscription this then
    emit [TranscriptionReport (currentInputTranscription this)
            (currentOutputTranscription this) isFinal]
  else ret tt.

(** [onmessage], transcription (lines 240-255). *)
Definition handle_transcription (sc : option LiveServerContent) : M unit :=
  match sc with
  | None => ret tt
  | Some c =>
      (match outputTranscription c, inputTranscription c with
       | Some text, _ =>
           this <- get ;;
           modify (set_currentOutputTranscription
                     (currentOutputTranscription this ++ text)) ;;
           report_transcription false
       | None, Some text =>
           this <- get ;;
           modify (set_currentInputTranscription
                     (currentInputTranscription this ++ text)) ;;
           report_transcription false
       | None, None => ret tt
       end) ;;
      if turnComplete c then
        report_transcription true ;;
        modify (set_currentInputTranscription "") ;;
        modify (set_currentOutputTranscription "")
      else ret tt
  end.

(** [onmessage], audio (lines 257-263).  The empty string is falsy. *)
Definition handle_audio (env : Env) (sc : option LiveServerContent) : M unit :=
  this <- get ;;
  match sc, outputContext this with
  | Some c, Some _ =>
      match modelTurnData c with
      | None | Some EmptyString => ret tt
      | Some audioData =>
          audioBytes <- lift (base64ToUint8Array audioData) ;;
          audioBuffer <- lift (decodeAudioData audioBytes) ;;
          playAudioBuffer env audioBuffer
      end
  | _, _ => ret tt
  end.

(** The injected [options.onToolCall], of type
    [(name, args) => Promise<any>].  A [ToolHandler] gives what the promise
    it returns is settled with: a value when it is fulfilled, an error when
    it is rejected.  The promise settles later; the callback that awaits it
    gives up control meanwhile, and any other operation may run. *)
Definition ToolHandler : Type := string -> JsValue -> Outcome JsValue.

(** [onmessage], tool calls, from the [await] of line 269 on: the rest of
    the loop body for [fc], run when the promise of its handler has settled
    with [settled].  A rejection is thrown by the [await]; otherwise
    [this.session] is read, at that moment, and the response registered on
    it (lines 272-280). *)
Definition after_await (fc : FunctionCall) (settled : Outcome JsValue) : M unit :=
  result <- lift settled ;;
  this <- get ;;
  match session this with
  | None => throw TypeError
  | Some p => emit [PromiseThen p (OnToolResponse fc result)]
  end.

(** [onmessage] from the arrival of the message to its first [await] on the
    handler (lines 239-269).  The result is the calls the loop has still to
    serve: the handler has been called for the first of them and the callback
    is suspended on its promise; [[]] when the callback has ended.  (The
    [await] of line 261 is on a promise that is already settled,
    [decodeAudioData] having no [await] of its own, so the callback goes on
    before any event, timer or network callback.) *)
Definition onmessage_arrival (env : Env) (onToolCall : option ToolHandler)
  (msg : LiveServerMessage) : M (list FunctionCall) :=
  handle_transcription (serverContent msg) ;;
  handle_audio env (serverContent msg) ;;
  ret (match toolCall msg, onToolCall with
       | Some functionCalls, Some _ => functionCalls
       | _, _ => []
       end).

(** The [for] loop of lines 267-281 when nothing else runs while it awaits:
    each handler promise settles, and the loop resumes, before any other
    operation on the session. *)
Fixpoint serve_calls (onToolCall : ToolHandler) (functionCalls : list FunctionCall)
  : M unit :=
  match functionCalls with
  | [] => ret tt
  | fc :: rest =>
      after_await fc (onToolCall (fc_name fc) (fc_args fc)) ;;
      serve_calls onToolCall rest
  end.

Definition handle_tool_calls (onToolCall : option ToolHandler)
  (msg : LiveServerMessage) : M unit :=
  match toolCall msg, onToolCall with
  | Some functionCalls, Some handler => serve_calls handler functionCalls
  | _, _ => ret tt
  end.

(** [onmessage] (lines 239-283) run through: the callback from the arrival
    of the message to its end, when nothing else runs while it awaits. *)
Definition onmessage (env : Env) (onToolCall : option ToolHandler)
  (msg : LiveServerMessage) : M unit :=
  handle_transcription (serverContent msg) ;;
  handle_audio env (serverContent msg) ;;
  handle_tool_calls onToolCall msg.

(** The teardown closure (lines 294-301). *)
Definition run_cleanup (c : CleanupClosure) : M unit :=
  this <- get ;;
  emit [NodeDisconnect (cl_source c); NodeDisconnect (cl_processor c);
        TrackStop (cl_stream c)] ;;
  emit (match inputContext this with Some i => [ContextClose i] | None => [] end) ;;
  emit (match outputContext this with Some o => [ContextClose o] | None => [] end) ;;
  emit [PromiseThen (cl_sessionPromise c) OnClose].

(** [connect] (lines 195-307).  [micGranted] is whether [getUserMedia]
    resolves; when it rejects, the [catch] reports and nothing else is set. *)
Definition connect (micGranted : bool) : M unit :=
  ic <- alloc ;;
  modify (set_inputContext (Some ic)) ;;
  oc <- alloc ;;
  modify (set_outputContext (Some oc)) ;;
  if micGranted then
    stream <- alloc ;;
    source <- alloc ;;
    processor <- alloc ;;
    sessionPromise <- alloc ;;
    modify (set_session (Some sessionPromise)) ;;
    modify (set_cleanup (Some (mkCleanup source processor stream sessionPromise)))
  else emit [ErrorReport "Microphone access denied"].

(** [disconnect] (lines 309-312). *)
Definition disconnect : M unit :=
  this <- get ;;
  match cleanup this with
  | Some c => run_cleanup c
  | None => ret tt
  end ;;
  modify (set_session None).

(** ** Histories of the session *)

(** Whatever can happen to a session: a call of a public method, or a
    callback of the platform.  A message callback takes several operations
    when it awaits a tool handler: [Message] is the callback up to that
    [await], and each [Settled] resumes it when the promise of the handler
    for [fc] has settled, up to the next [await] or to its end.  Other
    operations may come in between. *)
Inductive Operation : Type :=
| CallConnect (micGranted : bool)
| CallSetListening (isListening : bool)
| CallSendText (text : string)
| CallSendImage (base64Data : string)
| CallDisconnect
| AudioProcess (inputData : list Q)
| Message (onToolCall : option ToolHandler) (msg : LiveServerMessage)
| Ended (source : nat)
| Fulfilled (s : SessionObject) (k : Reaction)
| Settled (fc : FunctionCall) (settled : Outcome JsValue).

Definition perform (env : Env) (op : Operation) : M unit :=
  match op with
  | CallConnect micGranted => connect micGranted
  | CallSetListening isListening => setListening env isListening
  | CallSendText text => sendText text
  | CallSendImage base64Data => sendImage base64Data
  | CallDisconnect => disconnect
  | AudioProcess inputData => onaudioprocess inputData
  | Message onToolCall msg => onmessage_arrival env onToolCall msg ;; ret tt
  | Ended source => onended source
  | Fulfilled s k => react s k
  | Settled fc settled => after_await fc settled
  end.

(** A history: each operation with the platform readings at its time.  An
    exception leaves the callback it was raised in, not the session. *)
Fixpoint run (history : list (Env * Operation)) (this : LiveVoiceSession)
  : LiveVoiceSession * list Effect :=
  match history with
  | [] => (this, [])
  | (env, op) :: rest =>
      match perform env op this with
      | (_, this1, out1) =>
          match run rest this1 with
          | (this2, out2) => (this2, out1 ++ out2)
          end
      end
  end.

(** ** Vocabulary of the properties *)

Definition is_byte (b : Z) : Prop := 0 <= b < 256.
Definition is_sextet (v : Z) : Prop := 0 <= v < 64.
Definition is_int16 (v : Z) : Prop := -32768 <= v <= 32767.

(** The number [floatTo16BitPCM] stores for a sample, before the store
    converts it. *)
Definition scaled (x : Q) : Q :=
  let s := Qmax (-1) (Qmin 1 x) in
  (if Qltb s 0 then s * 32768 else s * 32767)%Q.

(** A valid sample sequence: every amplitude in [-1, 1]. *)
Definition valid_frame (f : list Q) : Prop :=
  Forall (fun x => (-1 <= x <= 1)%Q) f.

(** [decode (encode f)] is a frame as long as [f], each sample within [eps]
    of the original. *)
Definition roundtrip_within (eps : Q) (f : list Q) : Prop :=
  exists buffer,
    decode (encode f) = Ok buffer /\
    length (channelData buffer) = length f /\
    Forall2 (fun x y => (Qabs (x - y) <= eps)%Q) f (channelData buffer).

(** The same with a strict bound, tighter on negative samples. *)
Definition roundtrip_below (f : list Q) : Prop :=
  exists buffer,
    decode (encode f) = Ok buffer /\
    length (channelData buffer) = length f /\
    Forall2 (fun x y =>
               (Qabs (x - y) < 1 # 16384)%Q /\
               ((x < 0)%Q -> (Qabs (x - y) < 1 # 32768)%Q))
            f (channelData buffer).

(** The playback windows in a trace: start and duration of every
    [source.start]. *)
Fixpoint windows (out : list Effect) : list (Q * Q) :=
  match out with
  | [] => []
  | SourceStart _ buffer when :: rest => (when, duration buffer) :: windows rest
  | _ :: rest => windows rest
  end.

(** Fragments handed to the scheduler at one reading of the clock. *)
Fixpoint play_all (env : Env) (buffers : list AudioBuffer) : M unit :=
  match buffers with
  | [] => ret tt
  | buffer :: rest => playAudioBuffer env buffer ;; play_all env rest
  end.

(** Windows laid end to end from [origin]. *)
Fixpoint cumulative (origin : Q) (durations : list Q) : list (Q * Q) :=
  match durations with
  | [] => []
  | d :: rest => (origin, d) :: cumulative (origin + d)%Q rest
  end.

Definition total (durations : list Q) : Q := fold_left Qplus durations 0%Q.

(** Each window ends exactly where the next begins. *)
Fixpoint gapless (ws : list (Q * Q)) : Prop :=
  match ws with
  | w1 :: (w2 :: _) as rest => (fst w1 + snd w1 == fst w2)%Q /\ gapless rest
  | _ => True
  end.

(** No window begins before the previous one has ended. *)
Fixpoint non_overlapping (ws : list (Q * Q)) : Prop :=
  match ws with
  | w1 :: (w2 :: _) as rest => (fst w1 + snd w1 <= fst w2)%Q /\ non_overlapping rest
  | _ => True
  end.

Definition is_mute (op : Operation) : bool :=
  match op with
  | CallSetListening false => true
  | _ => false
  end.

(** The tool responses a request gets: one per call, up to the first call
    whose handler throws. *)
Fixpoint answered (onToolCall : ToolHandler) (promise : nat)
  (functionCalls : list FunctionCall) : list Effect :=
  match functionCalls with
  | [] => []
  | fc :: rest =>
      match onToolCall (fc_name fc) (fc_args fc) with
      | Ok result =>
          PromiseThen promise (OnToolResponse fc result)
          :: answered onToolCall promise rest
      | Throw _ => []
      end
  end.

(** The tool responses registered in a trace, as (id, name) pairs. *)
Fixpoint responses (out : list Effect) : list (string * string) :=
  match out with
  | [] => []
  | PromiseThen _ (OnToolResponse fc _) :: rest =>
      (fc_id fc, fc_name fc) :: responses rest
  | _ :: rest => responses rest
  end.

(** Close calls in a trace, per resource. *)
Fixpoint context_closes (ctx : nat) (out : list Effect) : nat :=
  match out with
  | [] => O
  | ContextClose c :: rest =>
      (if Nat.eqb c ctx then 1 else 0) + context_closes ctx rest
  | _ :: rest => context_closes ctx rest
  end.

Fixpoint transport_closes (promise : nat) (out : list Effect) : nat :=
  match out with
  | [] => O
  | PromiseThen p OnClose :: rest =>
      (if Nat.eqb p promise then 1 else 0) + transport_closes promise rest
  | _ :: rest => transport_closes promise rest
  end.

(** [disconnect()] called [n] times in a row. *)
Definition disconnects (env : Env) (n : nat) : list (Env * Operation) :=
  repeat (env, CallDisconnect) n.

(** *** The Transcript Aggregator in the words of the specification *)

Inductive TranscriptEvent : Type :=
| InputFragment (text : string)
| OutputFragment (text : string)
| TurnCompletion.

Record Snapshot : Type := mkSnapshot {
  snap_input : string;
  snap_output : string;
  snap_final : bool
}.

(** Append a fragment to its buffer and emit a non-final snapshot; on turn
    completion emit a final snapshot, then reset both buffers. *)
Fixpoint spec_aggregate (input output : string) (events : list TranscriptEvent)
  : string * string * list Snapshot :=
  match events with
  | [] => (input, output, [])
  | InputFragment text :: rest =>
      let '(i, o, snaps) := spec_aggregate (input ++ text) output rest in
      (i, o, mkSnapshot (input ++ text) output false :: snaps)
  | OutputFragment text :: rest =>
      let '(i, o, snaps) := spec_aggregate input (output ++ text) rest in
      (i, o, mkSnapshot input (output ++ text) false :: snaps)
  | TurnCompletion :: rest =>
      let '(i, o, snaps) := spec_aggregate "" "" rest in
      (i, o, mkSnapshot input output true :: snaps)
  end.

(** One message per event, as the transport delivers tagged events. *)
Definition message_of_event (e : TranscriptEvent) : LiveServerMessage :=
  match e with
  | InputFragment text =>
      mkServerMessage (Some (mkServerContent None (Some text) false None)) None
  | OutputFragment text =>
      mkServerMessage (Some (mkServerContent (Some text) None false None)) None
  | TurnCompletion =>
      mkServerMessage (Some (mkServerContent None None true None)) None
  end.

(** The events [onmessage] takes from a message: the output fragment if
    there is one, else the input fragment if there is one; then the
    turn-completion flag. *)
Definition events_taken (msg : LiveServerMessage) : list TranscriptEvent :=
  match serverContent msg with
  | None => []
  | Some c =>
      (match outputTranscription c, inputTranscription c with
       | Some text, _ => [OutputFragment text]
       | None, Some text => [InputFragment text]
       | None, None => []
       end)
      ++ (if turnComplete c then [TurnCompletion] else [])
  end.

Definition events_of_operation (op : Operation) : list TranscriptEvent :=
  match op with
  | Message _ msg => events_taken msg
  | _ => []
  end.

Definition events_of (history : list (Env * Operation)) : list TranscriptEvent :=
  flat_map (fun eo => events_of_operation (snd eo)) history.

(** The snapshots reported in a trace. *)
Fixpoint snapshots (out : list Effect) : list Snapshot :=
  match out with
  | [] => []
  | TranscriptionReport userText aiText isFinal :: rest =>
      mkSnapshot userText aiText isFinal :: snapshots rest
  | _ :: rest => snapshots rest
  end.

(** Messages that carry transcription events only. *)
Definition deliver (env : Env) (events : list TranscriptEvent)
  : list (Env * Operation) :=
  map (fun e => (env, Message None (message_of_event e))) events.

(** What the scheduler owes a burst of fragments read at one clock value. *)
Definition scheduled_back_to_back (this : LiveVoiceSession) (env : Env)
  (buffers : list AudioBuffer) : Prop :=
  let start := Qmax (nextStartTime this) (currentTime env) in
  let r := play_all env buffers this in
  outcome_of r = Ok tt /\
  windows (trace_of r) = cumulative start (map duration buffers) /\
  gapless (windows (trace_of r)) /\
  non_overlapping (windows (trace_of r)) /\
  (buffers <> [] ->
   (nextStartTime (state_of r) == start + total (map duration buffers))%Q) /\
  ((nextStartTime this <= currentTime env)%Q -> (start == currentTime env)%Q).

Definition is_successful_connect (op : Operation) : bool :=
  match op with
  | CallConnect true => true
  | _ => false
  end.

(** Effects that cancel playback or announce its state. *)
Definition touches_playback (e : Effect) : bool :=
  match e with
  | SourceStop _ | AiSpeaking _ => true
  | _ => false
  end.

(** A message that carries a tool-call request and nothing else. *)
Definition tool_request (functionCalls : list FunctionCall) : LiveServerMessage :=
  mkServerMessage None (Some functionCalls).

Definition returns (onToolCall : ToolHandler) (fc : FunctionCall) : Prop :=
  exists result, onToolCall (fc_name fc) (fc_args fc) = Ok result.

Definition correlation (fc : FunctionCall) : string * string :=
  (fc_id fc, fc_name fc).

(** A tool-call request under way, from its first [await] on: for each call
    the history that runs while its handler is pending, then the settlement
    of that handler. *)
Fixpoint served (env : Env) (onToolCall : ToolHandler)
  (calls : list (list (Env * Operation) * FunctionCall)) : list (Env * Operation) :=
  match calls with
  | [] => []
  | (meanwhile, fc) :: rest =>
      meanwhile ++ (env, Settled fc (onToolCall (fc_name fc) (fc_args fc)))
      :: served env onToolCall rest
  end.

(** Operations that leave the session handle as it is and resume no other
    tool loop. *)
Definition keeps_handle (op : Operation) : bool :=
  match op with
  | CallConnect true | CallDisconnect | Settled _ _ => false
  | _ => true
  end.

(** Nothing that runs while the handlers are pending touches the handle. *)
Definition undisturbed (calls : list (list (Env * Operation) * FunctionCall)) : bool :=
  forallb (fun c => forallb (fun eo => keeps_handle (snd eo)) (fst c)) calls.

Definition is_tool_response (e : Effect) : bool :=
  match e with
  | PromiseThen _ (OnToolResponse _ _) => true
  | _ => false
  end.

(** The transcript of a session after a history, with what was reported. *)
Definition transcript_after (history : list (Env * Operation))
  (this : LiveVoiceSession) : string * string * list Snapshot :=
  (currentInputTranscription (fst (run history this)),
   currentOutputTranscription (fst (run history this)),
   snapshots (snd (run history this))).

(** ** Frame conditions of a method *)

(** The method leaves the field [proj] as it found it, however it ends. *)
Definition preserves {A B} (proj : LiveVoiceSession -> B) (m : M A) : Prop :=
  forall this, proj (state_of (m this)) = proj this.

(** The method never moves the cursor back. *)
Definition advances {A} (m : M A) : Prop :=
  forall this, (nextStartTime this <= nextStartTime (state_of (m this)))%Q.

(** The method reports no transcription. *)
Definition unreported {A} (m : M A) : Prop :=
  forall this, snapshots (trace_of (m this)) = [].

(** ** Sample sessions and inputs *)

(** Two readings of the clock: two seconds after the output context was
    created, and a quarter of a second later. *)
Definition noon : Env := mkEnv 2%Q false false.
Definition later : Env := mkEnv (9 # 4)%Q false false.

(** A session just constructed. *)
Definition fresh : LiveVoiceSession := constructor true.

(** The same after [connect] succeeded and the caller unmuted. *)
Definition live : LiveVoiceSession :=
  fst (run [(noon, CallConnect true); (noon, CallSetListening true)] fresh).

(** Half a second of silence at 24 kHz. *)
Definition half_second : AudioBuffer :=
  mkAudioBuffer (repeat 0%Q (Z.to_nat 12000)) 24000.

(** The live session with a fragment scheduled and still playing. *)
Definition speaking : LiveVoiceSession :=
  state_of (playAudioBuffer noon half_second live).

Definition drawing_handler : ToolHandler :=
  fun _ _ => Ok (JsString "Image drawn.").

Definition draw_call : FunctionCall :=
  mkFunctionCall "call-1" "draw_kid_image" (JsOther "{english_prompt: a red car}").

(** A message that carries a chunk of three bytes and a tool call, and the
    same message without the chunk. *)
Definition odd_chunk_with_call : LiveServerMessage :=
  mkServerMessage (Some (mkServerContent None None false (Some "AAAA"%string)))
    (Some [draw_call]).
Definition call_alone : LiveServerMessage :=
  mkServerMessage (Some (mkServerContent None None false None)) (Some [draw_call]).

(** A message that carries an output fragment and an input fragment. *)
Definition both_fragments : LiveServerMessage :=
  mkServerMessage
    (Some (mkServerContent (Some "Hello"%string) (Some "hi"%string) false None))
    None.

(** ** Further vocabulary *)

(** A decoded sample: at least -1 and below 1. *)
Definition normalised (y : Q) : Prop := (-1 <= y /\ y < 1)%Q.

(** The active set holds each source once, and only sources already
    created. *)
Definition well_formed_set (this : LiveVoiceSession) : Prop :=
  NoDup (currentSources this) /\
  Forall (fun source => (source < heap this)%nat) (currentSources this).

(** The method never emits an effect that [p] selects. *)
Definition never_emits {A} (p : Effect -> bool) (m : M A) : Prop :=
  forall this, existsb p (trace_of (m this)) = false.

Definition registers_audio (e : Effect) : bool :=
  match e with
  | PromiseThen _ (OnSendAudio _) => true
  | _ => false
  end.

(** A reaction registered on a promise that is not the transport close. *)
Definition registers_send (e : Effect) : bool :=
  match e with
  | PromiseThen _ OnClose => false
  | PromiseThen _ _ => true
  | _ => false
  end.

Definition is_unmute (op : Operation) : bool :=
  match op with
  | CallSetListening true => true
  | _ => false
  end.

(** The sources of [sources] complete, in that order. *)
Definition completions (env : Env) (sources : list nat) : list (Env * Operation) :=
  map (fun source => (env, Ended source)) sources.

(** The calls made on the resolved session object, in order. *)
Fixpoint session_calls (out : list Effect) : list ClientMessage :=
  match out with
  | [] => []
  | SessionCall m :: rest => m :: session_calls rest
  | _ :: rest => session_calls rest
  end.

Definition is_session_call (e : Effect) : bool :=
  match e with
  | SessionCall _ => true
  | _ => false
  end.

(** The calls the body of a reaction makes on the resolved session object. *)
Definition reaction_calls (s : SessionObject) (k : Reaction) : list ClientMessage :=
  match k with
  | OnSendText text => if hasSend s then [SendClientContent text] else []
  | OnSendImage base64Data => [SendRealtimeInput "image/jpeg" base64Data]
  | OnSendAudio base64Data => [SendRealtimeInput "audio/pcm;rate=16000" base64Data]
  | OnToolResponse fc result => [SendToolResponse (fc_id fc) (fc_name fc) result]
  | OnClose => [Close]
  end.

(** The calls of the reactions that run in a history.  A reaction runs when
    the promise it was registered on is fulfilled, so each of them was
    registered before it runs. *)
Definition calls_fulfilled (history : list (Env * Operation)) : list ClientMessage :=
  flat_map (fun eo => match snd eo with
                      | Fulfilled s k => reaction_calls s k
                      | _ => []
                      end) history.

(** The audio chunks among calls on the session object. *)
Definition audio_chunks (calls : list ClientMessage) : list string :=
  flat_map (fun m => match m with
                     | SendRealtimeInput mimeType data =>
                         if String.eqb mimeType "audio/pcm;rate=16000" then [data] else []
                     | _ => []
                     end) calls.

(** The chunks of the audio reactions that run in a history. *)
Definition audio_fulfilled (history : list (Env * Operation)) : list string :=
  flat_map (fun eo => match snd eo with
                      | Fulfilled _ (OnSendAudio base64Data) => [base64Data]
                      | _ => []
                      end) history.

(** The transcript buffers after a step: the old ones with something
    appended, or both empty. *)
Definition appended_or_reset (before after : LiveVoiceSession) : Prop :=
  (exists i o,
     currentInputTranscription after = (currentInputTranscription before ++ i)%string /\
     currentOutputTranscription after = (currentOutputTranscription before ++ o)%string)
  \/ (currentInputTranscription after = ""%string /\
      currentOutputTranscription after = ""%string).

(** The method keeps the invariant [I], however it ends. *)
Definition keeps {A} (I : LiveVoiceSession -> Prop) (m : M A) : Prop :=
  forall this, I this -> I (state_of (m this)).

(** The active set is well formed and the allocator has not gone below
    [floor]. *)
Definition sound_above (floor : nat) (this : LiveVoiceSession) : Prop :=
  well_formed_set this /\ (floor <= heap this)%nat.

Definition is_start (e : Effect) : bool :=
  match e with
  | SourceStart _ _ _ => true
  | _ => false
  end.

(** ** The callers of the session *)

(** [VoiceState] of App.tsx. *)
Inductive VoiceState : Type :=
| Connecting
| Listening
| Speaking
| VoiceError.

(** The first two callbacks DrawTab gives the constructor (DrawTab.tsx,
    lines 93-99), applied to a trace: [onAiSpeaking] reports 'speaking' or
    'listening', [onError] reports 'error'. *)
Fixpoint DrawTab_onStateChange (out : list Effect) : list VoiceState :=
  match out with
  | [] => []
  | AiSpeaking speaking :: rest =>
      (if speaking then Speaking else Listening) :: DrawTab_onStateChange rest
  | ErrorReport _ :: rest => VoiceError :: DrawTab_onStateChange rest
  | _ :: rest => DrawTab_onStateChange rest
  end.

Definition DrawTab_greeting : string :=
  "System: User connected. Wait 2 seconds then greet.".

(** The mount effect of DrawTab (lines 89-165): report 'connecting', build
    the session, [connect], and when [connect] resolves (it resolves also
    when the microphone is denied, having caught the error) report
    'listening', unmute and send the greeting.  The result is the session,
    its trace and the states reported to the application. *)
Definition DrawTab_mount (env : Env) (micGranted : bool)
  : LiveVoiceSession * list Effect * list VoiceState :=
  let connected := connect micGranted (constructor true) in
  let greeted :=
    (setListening env true ;; sendText DrawTab_greeting) (state_of connected) in
  (state_of greeted,
   trace_of connected ++ trace_of greeted,
   [Connecting] ++ DrawTab_onStateChange (trace_of connected)
   ++ [Listening] ++ DrawTab_onStateChange (trace_of greeted)).

Definition image_drawn : string :=
  "Image drawn. Now enthusiastically describe the NEW full scene to the child and ask what to add next to make it even better.".
Definition failed_to_draw : string :=
  "Failed to draw. Tell the child magic hiccuped.".

(** The tool handler DrawTab injects (lines 143-157).  [drawImage args]
    stands for [await generateKidImage(args.english_prompt)], the whole body
    of the [try], which either yields a URL or throws; the handler's updates
    of the component's display state are left out. *)
Definition DrawTab_onToolCall (drawImage : JsValue -> Outcome string) : ToolHandler :=
  fun name args =>
    if String.eqb name "draw_kid_image" then
      match drawImage args with
      | Ok _ => Ok (JsString image_drawn)
      | Throw _ => Ok (JsString failed_to_draw)
      end
    else Ok JsUndefined.

(** The state of ChatTab that concerns the session (ChatTab.tsx, lines
    8-11). *)
Record ChatTab : Type := mkChatTab {
  isReady : bool;
  isSessionActive : bool;
  sessionRef : LiveVoiceSession
}.

(** The mount effect of ChatTab (lines 13-49): a session without a
    transcription callback, [connect], and when it resolves [setIsReady(true)]
    and [setListening(false)]. *)
Definition ChatTab_mount (env : Env) (micGranted : bool) : ChatTab :=
  let connected := connect micGranted (constructor false) in
  mkChatTab true false (state_of (setListening env false (state_of connected))).

(** [toggleSession] (lines 51-56). *)
Definition toggleSession (env : Env) (tab : ChatTab) : ChatTab :=
  if negb (isReady tab) then tab
  else
    let newState := negb (isSessionActive tab) in
    mkChatTab (isReady tab) newState
      (state_of (setListening env newState (sessionRef tab))).

(** What happens to a mounted ChatTab: the user toggles, or the session
    receives a callback of the platform. *)
Inductive ChatEvent : Type :=
| Toggle
| Callback (op : Operation).

(** The callbacks the platform makes on a session: never a public method. *)
Definition is_platform_callback (op : Operation) : bool :=
  match op with
  | AudioProcess _ | Message _ _ | Ended _ | Fulfilled _ _ | Settled _ _ => true
  | _ => false
  end.

Definition chat_step (tab : ChatTab) (ev : Env * ChatEvent) : ChatTab :=
  match snd ev with
  | Toggle => toggleSession (fst ev) tab
  | Callback op =>
      mkChatTab (isReady tab) (isSessionActive tab)
        (state_of (perform (fst ev) op (sessionRef tab)))
  end.

Definition is_chat_event (ev : Env * ChatEvent) : bool :=
  match snd ev with
  | Toggle => true
  | Callback op => is_platform_callback op
  end.


(* ===================================================================== *)
(** * Part II.  Properties                                                *)
(* ===================================================================== *)

(** ** The text-safe layer is lossless on byte strings *)

Lemma list_ind3 (A : Type) (P : list A -> Prop) :
  P [] -> (forall a, P [a]) -> (forall a b, P [a; b]) ->
  (forall a b c l, P l -> P (a :: b :: c :: l)) ->
  forall l, P l.
Proof.
  intros H0 H1 H2 H3 l.
  enough (P l /\ (forall a, P (a :: l)) /\ (forall a b, P (a :: b :: l))) by tauto.
  induction l as [|x l [IH0 [IH1 IH2]]].
  - repeat split; auto.
  - repeat split; auto.
Qed.

Lemma sextet_cases (v : Z) : is_sextet v -> exists k, (k < 64)%nat /\ v = Z.of_nat k.
Proof. intros H. exists (Z.to_nat v). unfold is_sextet in H. lia. Qed.

(** The alphabet is injective on sextets and holds neither whitespace nor the
    padding character. *)
Lemma base64_index_char (v : Z) : is_sextet v ->
  base64_index (base64_char v) = Some v /\
  is_ascii_whitespace (base64_char v) = false /\
  is_pad (base64_char v) = false.
Proof.
  intros H. destruct (sextet_cases v H) as [k [Hk ->]].
  do 64 (destruct k as [|k]; [vm_compute; auto|]). lia.
Qed.

Lemma charCodeAt_fromCharCode (b : Z) : is_byte b -> charCodeAt (String_fromCharCode b) = b.
Proof.
  intros H. unfold charCodeAt, String_fromCharCode, is_byte in *.
  rewrite N_ascii_embedding by lia. lia.
Qed.

(** [btoa] writes the characters of some sextets, then at most two paddings,
    four characters per group; regrouping those sextets gives the bytes back. *)
Lemma atob_groups_sextets (bs : list Z) :
  Forall is_byte bs ->
  exists vs p k,
    btoa_groups bs = map base64_char vs ++ repeat "="%char p /\
    (p <= 2)%nat /\ (length vs + p = 4 * k)%nat /\
    Forall is_sextet vs /\ atob_groups vs = bs.
Proof.
  induction bs as [|a|a b|a b c l IH] using list_ind3; intros F.
  - exists [], 0%nat, 0%nat. repeat split; auto.
  - inversion F as [|? ? Ha _]; subst. unfold is_byte in Ha.
    exists [a / 4; a mod 4 * 16], 2%nat, 1%nat. repeat split; auto.
    + repeat constructor; unfold is_sextet; Z.div_mod_to_equations; lia.
    + simpl. f_equal. Z.div_mod_to_equations; lia.
  - inversion F as [|? ? Ha F']; subst. inversion F' as [|? ? Hb _]; subst.
    unfold is_byte in Ha, Hb.
    exists [a / 4; a mod 4 * 16 + b / 16; b mod 16 * 4], 1%nat, 1%nat. repeat split; auto.
    + repeat constructor; unfold is_sextet; Z.div_mod_to_equations; lia.
    + simpl. f_equal; [|f_equal]; Z.div_mod_to_equations; lia.
  - inversion F as [|? ? Ha F1]; subst. inversion F1 as [|? ? Hb F2]; subst.
    inversion F2 as [|? ? Hc F3]; subst.
    destruct (IH F3) as [vs [p [k [E [Hp [Hl [Fv Hd]]]]]]].
    unfold is_byte in Ha, Hb, Hc.
    exists (a / 4 :: a mod 4 * 16 + b / 16 :: b mod 16 * 4 + c / 64 :: c mod 64 :: vs), p, (S k).
    repeat split; auto.
    + simpl. rewrite E. reflexivity.
    + simpl. lia.
    + repeat constructor; try exact Fv; unfold is_sextet; Z.div_mod_to_equations; lia.
    + change (atob_groups (?x :: ?y :: ?z :: ?w :: vs)) with
        ((x * 4 + y / 16) :: (y mod 16 * 16 + z / 4) :: (z mod 4 * 64 + w) :: atob_groups vs).
      rewrite Hd. f_equal; [|f_equal; [|f_equal]]; Z.div_mod_to_equations; lia.
Qed.

Lemma filter_all {A} (f : A -> bool) (l : list A) :
  Forall (fun x => f x = true) l -> filter f l = l.
Proof.
  induction 1 as [|x l Hx _ IH]; simpl; [reflexivity|]. rewrite Hx, IH. reflexivity.
Qed.

Lemma sextets_chars (vs : list Z) :
  Forall is_sextet vs -> sextets (map base64_char vs) = Some vs.
Proof.
  induction 1 as [|v vs Hv _ IH]; simpl; [reflexivity|].
  destruct (base64_index_char v Hv) as [-> _]. rewrite IH. reflexivity.
Qed.

Lemma chars_not_whitespace (vs : list Z) (p : nat) :
  Forall is_sextet vs ->
  Forall (fun c => negb (is_ascii_whitespace c) = true)
    (map base64_char vs ++ repeat "="%char p).
Proof.
  intros F. apply Forall_app. split.
  - induction F as [|v vs Hv _ IH]; simpl; constructor; [|exact IH].
    destruct (base64_index_char v Hv) as [_ [-> _]]. reflexivity.
  - apply Forall_forall. intros c Hc. apply repeat_spec in Hc. subst c. reflexivity.
Qed.

(** Step 2 of the decoder removes exactly the padding [btoa] added. *)
Lemma strip_padding_chars (vs : list Z) (p : nat) :
  Forall is_sextet vs -> (p <= 2)%nat ->
  strip_padding (map base64_char vs ++ repeat "="%char p) = map base64_char vs.
Proof.
  intros F Hp. unfold strip_padding. rewrite rev_app_distr.
  assert (Hrev : forall c r, rev (map base64_char vs) = c :: r -> is_pad c = false).
  { intros c r E.
    assert (In c (map base64_char vs)) as Hin.
    { apply in_rev. rewrite E. left. reflexivity. }
    apply in_map_iff in Hin. destruct Hin as [v [<- Hv]].
    rewrite Forall_forall in F. apply (base64_index_char v (F v Hv)). }
  assert (Hback : map base64_char vs = rev (rev (map base64_char vs)))
    by (symmetry; apply rev_involutive).
  revert Hrev Hback. generalize (rev (map base64_char vs)) as R. intros R Hrev Hback.
  destruct p as [|[|[|p]]]; try lia; simpl.
  - rewrite app_nil_r.
    destruct R as [|c1 [|c2 r]]; try reflexivity;
      rewrite (Hrev _ _ eq_refl); reflexivity.
  - change (is_pad "="%char) with true.
    destruct R as [|c2 r]; [symmetry; exact Hback|].
    cbv iota. rewrite (Hrev _ _ eq_refl). symmetry; exact Hback.
  - change (is_pad "="%char) with true. cbv iota. symmetry; exact Hback.
Qed.

Lemma mod4_of_multiple (k : nat) : ((4 * k) mod 4 = 0)%nat.
Proof. rewrite Nat.mul_comm. apply Nat.Div0.mod_mul. Qed.

Lemma mod4_not_1 (n p k : nat) : (p <= 2)%nat -> (n + p = 4 * k)%nat -> (n mod 4 <> 1)%nat.
Proof.
  intros Hp E H.
  pose proof (Nat.div_mod_eq n 4) as D. rewrite H in D. lia.
Qed.

Lemma atob_btoa_groups (bs : list Z) :
  Forall is_byte bs ->
  atob (string_of_list_ascii (btoa_groups bs))
  = Ok (string_of_list_ascii (map String_fromCharCode bs)).
Proof.
  intros F. destruct (atob_groups_sextets bs F) as [vs [p [k [E [Hp [Hl [Fv Hd]]]]]]].
  unfold atob. rewrite list_ascii_of_string_of_list_ascii, E.
  rewrite (filter_all _ _ (chars_not_whitespace vs p Fv)).
  assert (L : length (map base64_char vs ++ repeat "="%char p) = (4 * k)%nat).
  { rewrite length_app, length_map, repeat_length. exact Hl. }
  rewrite L, mod4_of_multiple. cbv iota. change ((0 =? 0)%nat) with true. cbv iota.
  rewrite (strip_padding_chars vs p Fv Hp), length_map.
  destruct (Nat.eqb_spec (length vs mod 4) 1) as [H1|H1].
  - exfalso. exact (mod4_not_1 _ _ _ Hp Hl H1).
  - rewrite (sextets_chars vs Fv), Hd. reflexivity.
Qed.

Lemma map_charCodeAt_fromCharCode (bs : list Z) :
  Forall is_byte bs -> map charCodeAt (map String_fromCharCode bs) = bs.
Proof.
  induction 1 as [|b bs Hb _ IH]; simpl; [reflexivity|].
  rewrite (charCodeAt_fromCharCode b Hb), IH. reflexivity.
Qed.

(** [base64ToUint8Array] undoes [arrayBufferToBase64] on byte arrays. *)
Lemma base64_roundtrip (bs : list Z) :
  Forall is_byte bs -> base64ToUint8Array (arrayBufferToBase64 bs) = Ok bs.
Proof.
  intros F. unfold base64ToUint8Array, arrayBufferToBase64, btoa.
  rewrite list_ascii_of_string_of_list_ascii, (map_charCodeAt_fromCharCode bs F).
  rewrite (atob_btoa_groups bs F), list_ascii_of_string_of_list_ascii.
  f_equal. rewrite map_map.
  induction F as [|b bs Hb _ IH]; simpl; [reflexivity|].
  rewrite (charCodeAt_fromCharCode b Hb), IH. f_equal.
  unfold ToUint8, is_byte in *. apply Z.mod_small. lia.
Qed.
(** ** The sample map of [floatTo16BitPCM] *)

Local Open Scope Q_scope.

Lemma clamp_range (x : Q) : -1 <= Qmax (-1) (Qmin 1 x) /\ Qmax (-1) (Qmin 1 x) <= 1.
Proof.
  split.
  - apply Q.le_max_l.
  - apply Q.max_lub; [lra|apply Q.le_min_l].
Qed.

Lemma clamp_id (x : Q) : -1 <= x <= 1 -> Qmax (-1) (Qmin 1 x) == x.
Proof.
  intros [H1 H2]. rewrite Q.min_r by exact H2. apply Q.max_r; exact H1.
Qed.

Lemma Qltb_lt (x y : Q) : Qltb x y = true <-> x < y.
Proof.
  unfold Qltb. rewrite negb_true_iff. split; intro H.
  - apply Qnot_le_lt. intro L. apply Qle_bool_iff in L. congruence.
  - destruct (Qle_bool y x) eqn:E; [|reflexivity].
    apply Qle_bool_iff in E. lra.
Qed.

Lemma Qltb_ge (x y : Q) : Qltb x y = false <-> y <= x.
Proof.
  unfold Qltb. rewrite negb_false_iff. apply Qle_bool_iff.
Qed.

Lemma floor_bounds (x : Q) (a b : Z) :
  inject_Z a <= x -> x <= inject_Z b -> (a <= Qfloor x <= b)%Z.
Proof.
  intros Ha Hb. split.
  - rewrite <- (Qfloor_Z a). apply Qfloor_resp_le; exact Ha.
  - rewrite <- (Qfloor_Z b). apply Qfloor_resp_le; exact Hb.
Qed.

Lemma ceiling_bounds (x : Q) (a b : Z) :
  inject_Z a <= x -> x <= inject_Z b -> (a <= Qceiling x <= b)%Z.
Proof.
  intros Ha Hb. split.
  - rewrite <- (Qceiling_Z a). apply Qceiling_resp_le; exact Ha.
  - rewrite <- (Qceiling_Z b). apply Qceiling_resp_le; exact Hb.
Qed.

Lemma js_truncate_bounds (x : Q) (a b : Z) :
  inject_Z a <= x -> x <= inject_Z b -> (a <= js_truncate x <= b)%Z.
Proof.
  intros Ha Hb. unfold js_truncate.
  destruct (Qle_bool 0 x); [apply floor_bounds|apply ceiling_bounds]; assumption.
Qed.

Lemma ToInt16_Z_small (n : Z) : (-32768 <= n <= 32767)%Z -> ToInt16_Z n = n.
Proof.
  intros H. unfold ToInt16_Z.
  destruct (Z.leb_spec 32768 (n mod 65536)) as [L|L];
    Z.div_mod_to_equations; lia.
Qed.

Lemma scaled_range (x : Q) : inject_Z (-32768) <= scaled x /\ scaled x <= inject_Z 32767.
Proof.
  unfold scaled. cbv zeta.
  destruct (clamp_range x) as [L U].
  set (s := Qmax (-1) (Qmin 1 x)) in *.
  destruct (Qltb s 0) eqn:E.
  - apply Qltb_lt in E. change (inject_Z (-32768)) with (-32768).
    change (inject_Z 32767) with 32767. lra.
  - apply Qltb_ge in E. change (inject_Z (-32768)) with (-32768).
    change (inject_Z 32767) with 32767. lra.
Qed.

(** After clamping, the store into the [Int16Array] never wraps. *)
Lemma floatTo16BitPCM_at_trunc (x : Q) :
  floatTo16BitPCM_at x = js_truncate (scaled x) /\ (-32768 <= floatTo16BitPCM_at x <= 32767)%Z.
Proof.
  unfold floatTo16BitPCM_at. cbv zeta. fold (scaled x). unfold ToInt16.
  destruct (scaled_range x) as [L U].
  pose proof (js_truncate_bounds _ _ _ L U) as B.
  rewrite ToInt16_Z_small by exact B. split; [reflexivity|exact B].
Qed.


(** ** The 16-bit view over a byte buffer *)

Lemma view_bytes (pcm16 : list Z) : Forall is_byte (Uint8Array_of_Int16Array pcm16).
Proof.
  induction pcm16 as [|v rest IH]; simpl; [constructor|].
  constructor; [|constructor; [|exact IH]]; unfold is_byte, ToUint8;
    apply Z.mod_pos_bound; reflexivity.
Qed.

(** Reading the bytes of an [Int16Array] back as 16-bit integers is the identity. *)
Lemma view_roundtrip (pcm16 : list Z) :
  Forall is_int16 pcm16 ->
  Int16Array_of_Uint8Array (Uint8Array_of_Int16Array pcm16) = Ok pcm16.
Proof.
  induction 1 as [|v rest Hv _ IH]; [reflexivity|].
  cbn [Uint8Array_of_Int16Array Int16Array_of_Uint8Array]. rewrite IH.
  f_equal. f_equal. unfold is_int16 in Hv. unfold ToInt16_Z, ToUint8.
  destruct (Z.leb_spec 32768 ((v mod 256 + 256 * ((v / 256) mod 256)) mod 65536));
    Z.div_mod_to_equations; lia.
Qed.

(** The 16-bit view exists exactly when the byte length is even. *)
Lemma view_length (data : list Z) :
  match Int16Array_of_Uint8Array data with
  | Ok vs => length data = (2 * length vs)%nat
  | Throw e => e = RangeError /\ Nat.Odd (length data)
  end.
Proof.
  enough (H : forall n l, (length l <= n)%nat ->
    match Int16Array_of_Uint8Array l with
    | Ok vs => length l = (2 * length vs)%nat
    | Throw e => e = RangeError /\ Nat.Odd (length l)
    end) by (apply (H (length data)); lia).
  induction n as [|n IH]; intros l Hl.
  - destruct l; [reflexivity|simpl in Hl; lia].
  - destruct l as [|lo [|hi rest]].
    + reflexivity.
    + split; [reflexivity|exists 0%nat; reflexivity].
    + cbn [Int16Array_of_Uint8Array]. simpl in Hl.
      specialize (IH rest ltac:(lia)).
      destruct (Int16Array_of_Uint8Array rest) as [vs|e].
      * simpl. lia.
      * destruct IH as [-> [k Hk]]. split; [reflexivity|]. exists (S k). simpl. lia.
Qed.

Lemma floatTo16BitPCM_range (input : list Q) : Forall is_int16 (floatTo16BitPCM input).
Proof.
  unfold floatTo16BitPCM. apply Forall_forall. intros v Hv.
  apply in_map_iff in Hv. destruct Hv as [x [<- _]].
  apply floatTo16BitPCM_at_trunc.
Qed.

(** ** The round trip through the codec *)

Lemma decode_encode (frame : list Q) :
  frame <> [] ->
  decode (encode frame)
  = Ok (mkAudioBuffer (map (fun x => inject_Z (floatTo16BitPCM_at x) / 32768) frame) 24000).
Proof.
  intros Hne. unfold decode, encode.
  rewrite base64_roundtrip by apply view_bytes.
  unfold decodeAudioData. rewrite view_roundtrip by apply floatTo16BitPCM_range.
  unfold floatTo16BitPCM at 1. rewrite length_map.
  destruct frame as [|x frame]; [congruence|].
  cbn [length createBuffer sampleRate]. unfold fill_channel, floatTo16BitPCM.
  rewrite map_map. reflexivity.
Qed.

(** The error of one sample through the codec, by sign. *)
Lemma quantisation (x : Q) :
  -1 <= x <= 1 ->
  let y := inject_Z (floatTo16BitPCM_at x) / 32768 in
  (0 <= x -> 0 <= x - y /\ x - y < 1 # 16384) /\
  (x < 0 -> 0 <= y - x /\ y - x < 1 # 32768).
Proof.
  intros Hx y. subst y.
  destruct (floatTo16BitPCM_at_trunc x) as [-> _].
  unfold scaled. cbv zeta.
  assert (E : Qmax (-1) (Qmin 1 x) == x) by (apply clamp_id; exact Hx).
  set (s := Qmax (-1) (Qmin 1 x)) in *.
  split; intros Hs.
  - assert (Qltb s 0 = false) as -> by (apply Qltb_ge; lra).
    unfold js_truncate.
    assert (Qle_bool 0 (s * 32767) = true) as -> by (apply Qle_bool_iff; lra).
    pose proof (Qfloor_le (s * 32767)) as L.
    pose proof (Qlt_floor (s * 32767)) as U.
    rewrite inject_Z_plus in U. change (inject_Z 1) with 1 in U.
    set (n := inject_Z (Qfloor (s * 32767))) in *.
    assert (n / 32768 == n * (1 # 32768)) as -> by field.
    split; lra.
  - assert (Qltb s 0 = true) as -> by (apply Qltb_lt; lra).
    unfold js_truncate.
    assert (Qle_bool 0 (s * 32768) = false) as ->.
    { destruct (Qle_bool 0 (s * 32768)) eqn:B; [|reflexivity].
      apply Qle_bool_iff in B. lra. }
    pose proof (Qle_ceiling (s * 32768)) as L.
    pose proof (Qceiling_lt (s * 32768)) as U.
    unfold Z.sub in U. rewrite inject_Z_plus in U. change (inject_Z (Z.opp 1)) with (-1) in U.
    set (n := inject_Z (Qceiling (s * 32768))) in *.
    assert (n / 32768 == n * (1 # 32768)) as -> by field.
    split; lra.
Qed.

(** ** What the sample map stores *)

Lemma Qltb_clamp (s : Q) : Qltb (Qmax (-1) (Qmin 1 s)) 0 = Qltb s 0.
Proof.
  destruct (Qltb s 0) eqn:E.
  - apply Qltb_lt in E. apply Qltb_lt.
    apply Q.max_lub_lt; [reflexivity|].
    apply Qle_lt_trans with s; [apply Q.le_min_r|exact E].
  - apply Qltb_ge in E. apply Qltb_ge.
    apply Qle_trans with (Qmin 1 s); [|apply Q.le_max_r].
    apply Q.min_glb; [discriminate|exact E].
Qed.

Lemma floatTo16BitPCM_at_cases (s : Q) :
  let v := Qmax (-1) (Qmin 1 s) * (if Qltb s 0 then 32768 else 32767) in
  floatTo16BitPCM_at s = (if Qltb s 0 then Qceiling v else Qfloor v).
Proof.
  intros v. destruct (floatTo16BitPCM_at_trunc s) as [-> _].
  unfold scaled. cbv zeta. rewrite Qltb_clamp. subst v.
  destruct (clamp_range s) as [L U].
  set (c := Qmax (-1) (Qmin 1 s)) in *.
  unfold js_truncate.
  destruct (Qltb s 0) eqn:E.
  - rewrite <- Qltb_clamp in E. fold c in E. apply Qltb_lt in E.
    destruct (Qle_bool 0 (c * 32768)) eqn:B; [|reflexivity].
    apply Qle_bool_iff in B. lra.
  - rewrite <- Qltb_clamp in E. fold c in E. apply Qltb_ge in E.
    destruct (Qle_bool 0 (c * 32767)) eqn:B; [reflexivity|].
    assert (0 <= c * 32767) as P by lra. apply Qle_bool_iff in P. congruence.
Qed.

Lemma Zlt_of_Qlt (a b : Z) : inject_Z a < inject_Z b -> (a < b)%Z.
Proof. intros H. rewrite Zlt_Qlt. exact H. Qed.

Lemma round_near_floor (v : Q) : (Qfloor v <= spec_round v <= Qfloor v + 1)%Z.
Proof.
  unfold spec_round.
  pose proof (Qlt_floor v) as B.
  pose proof (Qfloor_le (v + (1 # 2))) as C.
  split.
  - apply Qfloor_resp_le. lra.
  - enough (Qfloor (v + (1 # 2)) < Qfloor v + 2)%Z by lia.
    apply Zlt_of_Qlt. rewrite inject_Z_plus in *.
    change (inject_Z 1) with 1 in *. change (inject_Z 2) with 2. lra.
Qed.

Lemma round_near_ceiling (v : Q) : (Qceiling v - 1 <= spec_round v <= Qceiling v)%Z.
Proof.
  unfold spec_round.
  pose proof (Qle_ceiling v) as A. pose proof (Qceiling_lt v) as B.
  pose proof (Qfloor_le (v + (1 # 2))) as C.
  pose proof (Qlt_floor (v + (1 # 2))) as D.
  unfold Z.sub in B. rewrite inject_Z_plus in B, D.
  change (inject_Z (Z.opp 1)) with (-1) in B. change (inject_Z 1) with 1 in D.
  split.
  - enough (Qceiling v - 2 < Qfloor (v + (1 # 2)))%Z by lia.
    apply Zlt_of_Qlt. unfold Z.sub. rewrite inject_Z_plus.
    change (inject_Z (Z.opp 2)) with (-2). lra.
  - enough (Qfloor (v + (1 # 2)) < Qceiling v + 1)%Z by lia.
    apply Zlt_of_Qlt. rewrite inject_Z_plus. change (inject_Z 1) with 1. lra.
Qed.

Lemma floatTo16BitPCM_at_near_round (s : Q) :
  (spec_encode_sample s - 1 <= floatTo16BitPCM_at s <= spec_encode_sample s + 1)%Z.
Proof.
  rewrite floatTo16BitPCM_at_cases. unfold spec_encode_sample.
  destruct (Qltb s 0).
  - pose proof (round_near_ceiling (Qmax (-1) (Qmin 1 s) * 32768)). lia.
  - pose proof (round_near_floor (Qmax (-1) (Qmin 1 s) * 32767)). lia.
Qed.

(** C4 (as amended).  [floatTo16BitPCM] maps every sample [s] to the 16-bit
    signed integer obtained from [clamp(s,-1,1) * (s<0 ? 32768 : 32767)] by
    dropping the fraction (towards zero: ceiling for negative samples, floor
    otherwise), which the [Int16Array] store does; the result is within one
    unit of the nearest integer but is not rounded to it. *)
Theorem floatTo16BitPCM_truncates (input : list Q) :
  floatTo16BitPCM input
  = map (fun s =>
           let v := Qmax (-1) (Qmin 1 s) * (if Qltb s 0 then 32768 else 32767) in
           if Qltb s 0 then Qceiling v else Qfloor v) input
  /\ Forall is_int16 (floatTo16BitPCM input)
  /\ Forall2 (fun n m => (m - 1 <= n <= m + 1)%Z)
       (floatTo16BitPCM input) (map spec_encode_sample input).
Proof.
  split; [|split].
  - unfold floatTo16BitPCM. apply map_ext. intro s. apply floatTo16BitPCM_at_cases.
  - apply floatTo16BitPCM_range.
  - unfold floatTo16BitPCM. induction input as [|s input IH]; simpl; constructor.
    + apply floatTo16BitPCM_at_near_round.
    + exact IH.
Qed.

(** C4, counterexample.  The sample 0.25 scales to 8191.75; the nearest
    integer is 8192, the code stores 8191. *)
Lemma floatTo16BitPCM_is_not_rounding :
  floatTo16BitPCM [(1 # 4)] = [8191%Z] /\
  map spec_encode_sample [(1 # 4)] = [8192%Z] /\
  floatTo16BitPCM [(1 # 4)] <> map spec_encode_sample [(1 # 4)].
Proof.
  split; [reflexivity|]. split; [reflexivity|]. discriminate.
Qed.

Lemma Qabs_lt_of (d e : Q) : - e < d -> d < e -> Qabs d < e.
Proof.
  intros L U. apply Qabs_case; intros _; lra.
Qed.

Lemma roundtrip_samples (f : list Q) :
  valid_frame f ->
  Forall2 (fun x y => Qabs (x - y) < 1 # 16384 /\ (x < 0 -> Qabs (x - y) < 1 # 32768))
    f (map (fun x => inject_Z (floatTo16BitPCM_at x) / 32768) f).
Proof.
  induction 1 as [|x f Hx _ IH]; cbn [map]; constructor; [|exact IH].
  destruct (quantisation x Hx) as [P N]. cbv zeta in P, N.
  set (y := inject_Z (floatTo16BitPCM_at x) / 32768) in *.
  destruct (Qlt_le_dec x 0) as [Hn|Hp].
  - destruct (N Hn) as [A B].
    split; [|intros _]; apply Qabs_lt_of; lra.
  - destruct (P Hp) as [A B].
    split; [|intros Hn; lra]. apply Qabs_lt_of; lra.
Qed.

(** C3 (as amended).  For every non-empty sample sequence [f] with all
    elements in [-1, 1], [decode (encode f)] is a frame as long as [f], and
    every element differs from the original by less than 1/16384 (two
    quantisation steps), by less than 1/32768 when the original is
    negative. *)
Theorem roundtrip_quantisation_bound (f : list Q) :
  f <> [] -> valid_frame f -> roundtrip_below f.
Proof.
  intros Hne Hv. unfold roundtrip_below.
  eexists. split; [apply decode_encode; exact Hne|].
  cbn [channelData]. split; [apply length_map|].
  apply roundtrip_samples. exact Hv.
Qed.

Lemma roundtrip_quantisation_bound_witness :
  [(65535 # 65536); - (1 # 3); 1] <> [] /\
  valid_frame [(65535 # 65536); - (1 # 3); 1] /\
  roundtrip_below [(65535 # 65536); - (1 # 3); 1].
Proof.
  assert (H1 : [(65535 # 65536); - (1 # 3); 1] <> []) by discriminate.
  assert (H2 : valid_frame [(65535 # 65536); - (1 # 3); 1])
    by (repeat constructor; simpl; discriminate).
  split; [exact H1|]. split; [exact H2|].
  exact (roundtrip_quantisation_bound _ H1 H2).
Defined.

(** C3, counterexample.  The sample 65535/65536 is encoded as 32766 and
    decoded as 32766/32768: the difference is 3/65536, one and a half
    quantisation steps.  (An empty frame does not survive the round trip at
    all: the platform refuses to allocate an empty buffer.) *)
Lemma roundtrip_exceeds_one_step :
  valid_frame [(65535 # 65536)] /\
  decode (encode [(65535 # 65536)]) = Ok (mkAudioBuffer [(32766 # 32768)] 24000) /\
  ~ roundtrip_within (1 # 32768) [(65535 # 65536)] /\
  ~ roundtrip_within (1 # 32768) [].
Proof.
  split; [repeat constructor; discriminate|].
  split; [reflexivity|]. split.
  - intros [buffer [E [_ F]]]. vm_compute in E. injection E as <-.
    cbn [channelData] in F. inversion F as [|x y l l' H _]; subst.
    revert H. vm_compute. intros H. apply H. reflexivity.
  - intros [buffer [E _]]. vm_compute in E. discriminate.
Qed.

(** ** The playback scheduler *)

Lemma Qmax_left (x y : Q) : y <= x -> Qmax x y = x.
Proof.
  intros H. unfold Qmax, GenericMinMax.gmax.
  destruct (x ?= y) eqn:C; try reflexivity.
  apply Qlt_alt in C. lra.
Qed.

Lemma duration_nonneg (b : AudioBuffer) : (0 < sampleRate b)%Z -> 0 <= duration b.
Proof.
  intros H. unfold duration.
  apply Qle_shift_div_l.
  - change 0 with (inject_Z 0). rewrite <- Zlt_Qlt. exact H.
  - rewrite Qmult_0_l. change 0 with (inject_Z 0). rewrite <- Zle_Qle. lia.
Qed.

(** One call of the scheduler with an output context, computed. *)
Lemma playAudioBuffer_step (this : LiveVoiceSession) (env : Env) (buffer : AudioBuffer) :
  outputContext this <> None ->
  let start := Qmax (nextStartTime this) (currentTime env) in
  playAudioBuffer env buffer this
  = (Ok tt,
     set_currentSources (Set_add (heap this) (currentSources this))
       (set_nextStartTime (start + duration buffer)
          (set_heap (S (heap this)) this)),
     [AiSpeaking true; SourceStart (heap this) buffer start]).
Proof.
  intros H start. destruct this as [ic [oc|] se ns cs mu cl ci co ot hp];
    [reflexivity|contradiction H; reflexivity].
Qed.

Lemma playAudioBuffer_without_context (this : LiveVoiceSession) (env : Env) (buffer : AudioBuffer) :
  outputContext this = None -> playAudioBuffer env buffer this = (Ok tt, this, []).
Proof.
  intros H. destruct this as [ic [oc|] se ns cs mu cl ci co ot hp];
    [discriminate H|reflexivity].
Qed.

Lemma cumulative_gapless (origin : Q) (ds : list Q) : gapless (cumulative origin ds).
Proof.
  revert origin. induction ds as [|d ds IH]; intros origin; [exact I|].
  destruct ds as [|d' ds]; [exact I|].
  split; [reflexivity|]. apply (IH (origin + d)).
Qed.

Lemma cumulative_non_overlapping (origin : Q) (ds : list Q) :
  non_overlapping (cumulative origin ds).
Proof.
  revert origin. induction ds as [|d ds IH]; intros origin; [exact I|].
  destruct ds as [|d' ds]; [exact I|].
  split; [apply Qle_refl|]. apply (IH (origin + d)).
Qed.

Lemma fold_left_Qplus_shift (ds : list Q) (a : Q) :
  fold_left Qplus ds a == a + fold_left Qplus ds 0.
Proof.
  revert a. induction ds as [|d ds IH]; intros a; simpl.
  - lra.
  - rewrite (IH (a + d)), (IH (0 + d)). lra.
Qed.

(** A burst whose first fragment finds the cursor at or after the clock. *)
Lemma play_all_from_cursor (env : Env) (buffers : list AudioBuffer) :
  Forall (fun b => (0 < sampleRate b)%Z) buffers ->
  forall this,
    outputContext this <> None -> currentTime env <= nextStartTime this ->
    let r := play_all env buffers this in
    outcome_of r = Ok tt /\
    windows (trace_of r) = cumulative (nextStartTime this) (map duration buffers) /\
    nextStartTime (state_of r) = fold_left Qplus (map duration buffers) (nextStartTime this) /\
    outputContext (state_of r) = outputContext this.
Proof.
  induction 1 as [|b buffers Hb _ IH]; intros this Hc Hn.
  - repeat split.
  - cbn [play_all]. unfold bind.
    rewrite (playAudioBuffer_step this env b Hc). cbv zeta.
    rewrite (Qmax_left _ _ Hn).
    set (this1 := set_currentSources _ _).
    assert (Hc1 : outputContext this1 <> None) by (destruct this; exact Hc).
    assert (Hn1 : currentTime env <= nextStartTime this1).
    { replace (nextStartTime this1) with (nextStartTime this + duration b)
        by (destruct this; reflexivity).
      pose proof (duration_nonneg b Hb). lra. }
    specialize (IH this1 Hc1 Hn1). cbv zeta in IH.
    destruct (play_all env buffers this1) as [[r s] out].
    unfold outcome_of, trace_of, state_of in *. cbn [fst snd] in *.
    destruct IH as [-> [W [N C]]].
    replace (nextStartTime this1) with (nextStartTime this + duration b) in *
      by (destruct this; reflexivity).
    replace (outputContext this1) with (outputContext this) in *
      by (destruct this; reflexivity).
    repeat split.
    + cbn [app windows map cumulative]. rewrite W. reflexivity.
    + exact N.
    + exact C.
Qed.

(** C1.  For every decoded fragment the scheduler computes
    [start = max(nextStartTime, currentTime)], starts the fragment at
    [start] and moves the cursor to [start + duration]; hence fragments that
    arrive at one reading of the clock get windows laid end to end from the
    start of the first one, which is the arrival time when nothing was
    scheduled beyond it, and the cursor ends at that start plus the total
    duration. *)
Theorem scheduler_plays_back_to_back (this : LiveVoiceSession) (env : Env)
  (buffers : list AudioBuffer) :
  outputContext this <> None ->
  Forall (fun b => (0 < sampleRate b)%Z) buffers ->
  scheduled_back_to_back this env buffers.
Proof.
  intros Hc F. unfold scheduled_back_to_back. cbv zeta.
  set (start := Qmax (nextStartTime this) (currentTime env)).
  assert (Hlast : nextStartTime this <= currentTime env -> start == currentTime env).
  { intros H. apply Q.max_r. exact H. }
  destruct buffers as [|b buffers].
  - repeat split; try exact I; try exact Hlast.
    intros H. contradiction H. reflexivity.
  - inversion F as [|? ? Hb F']; subst.
    cbn [play_all]. unfold bind.
    rewrite (playAudioBuffer_step this env b Hc). cbv zeta. fold start.
    set (this1 := set_currentSources _ _).
    assert (Hc1 : outputContext this1 <> None) by (destruct this; exact Hc).
    assert (E1 : nextStartTime this1 = start + duration b)
      by (destruct this; reflexivity).
    assert (Hn1 : currentTime env <= nextStartTime this1).
    { rewrite E1. pose proof (duration_nonneg b Hb).
      assert (currentTime env <= start) by apply Q.le_max_r. lra. }
    pose proof (play_all_from_cursor env buffers F' this1 Hc1 Hn1) as P.
    cbv zeta in P.
    destruct (play_all env buffers this1) as [[r s] out].
    unfold outcome_of, trace_of, state_of in *. cbn [fst snd] in *.
    destruct P as [-> [W [N _]]]. rewrite E1 in W, N.
    assert (Ws : windows ([AiSpeaking true; SourceStart (heap this) b start] ++ out)
                 = cumulative start (map duration (b :: buffers))).
    { cbn [app windows map cumulative]. rewrite W. reflexivity. }
    rewrite Ws. repeat split.
    + apply cumulative_gapless.
    + apply cumulative_non_overlapping.
    + intros _. rewrite N. unfold total. cbn [map fold_left].
      rewrite fold_left_Qplus_shift.
      rewrite (fold_left_Qplus_shift _ (0 + duration b)). lra.
    + exact Hlast.
Qed.

(** C1, the scenario: three half-second fragments arrive at once on a
    session that has just connected; they start 0, 0.5 and 1.0 seconds after
    the arrival and the cursor ends 1.5 seconds after it. *)
Lemma scheduler_plays_back_to_back_witness :
  outputContext live <> None /\
  Forall (fun b => (0 < sampleRate b)%Z) [half_second; half_second; half_second] /\
  scheduled_back_to_back live noon [half_second; half_second; half_second] /\
  (let r := play_all noon [half_second; half_second; half_second] live in
   map (fun w => Qred (fst w - currentTime noon)) (windows (trace_of r))
   = [0; 1 # 2; 1] /\
   Qred (nextStartTime (state_of r) - currentTime noon) = 3 # 2).
Proof.
  assert (H1 : outputContext live <> None) by discriminate.
  assert (H2 : Forall (fun b => (0 < sampleRate b)%Z)
                 [half_second; half_second; half_second])
    by (repeat constructor).
  split; [exact H1|]. split; [exact H2|].
  split; [exact (scheduler_plays_back_to_back live noon _ H1 H2)|].
  vm_compute. split; reflexivity.
Defined.

(** ** Frame rules *)

Section Frame.
Context {B : Type} (proj : LiveVoiceSession -> B).

Lemma preserves_ret {A} (a : A) : preserves proj (ret a).
Proof. intros this. reflexivity. Qed.

Lemma preserves_get : preserves proj get.
Proof. intros this. reflexivity. Qed.

Lemma preserves_emit (out : list Effect) : preserves proj (emit out).
Proof. intros this. reflexivity. Qed.

Lemma preserves_throw {A} (e : JsError) : preserves proj (@throw A e).
Proof. intros this. reflexivity. Qed.

Lemma preserves_lift {A} (r : Outcome A) : preserves proj (lift r).
Proof. intros this. reflexivity. Qed.

Lemma preserves_modify (f : LiveVoiceSession -> LiveVoiceSession) :
  (forall t, proj (f t) = proj t) -> preserves proj (modify f).
Proof. intros H this. apply H. Qed.

Lemma preserves_alloc :
  (forall t h, proj (set_heap h t) = proj t) -> preserves proj alloc.
Proof. intros H this. apply H. Qed.

Lemma preserves_bind {A C} (m : M A) (k : A -> M C) :
  preserves proj m -> (forall a, preserves proj (k a)) ->
  preserves proj (bind m k).
Proof.
  intros Hm Hk this. specialize (Hm this). unfold bind, state_of in *.
  destruct (m this) as [[[a|e] this1] out1]; cbn [fst snd] in *.
  - specialize (Hk a this1). unfold state_of in Hk.
    destruct (k a this1) as [[r this2] out2]; cbn [fst snd] in *. congruence.
  - exact Hm.
Qed.
End Frame.

Lemma unreported_ret {A} (a : A) : unreported (ret a).
Proof. intros this. reflexivity. Qed.

Lemma unreported_get : unreported get.
Proof. intros this. reflexivity. Qed.

Lemma unreported_modify f : unreported (modify f).
Proof. intros this. reflexivity. Qed.

Lemma unreported_alloc : unreported alloc.
Proof. intros this. reflexivity. Qed.

Lemma unreported_throw {A} (e : JsError) : unreported (@throw A e).
Proof. intros this. reflexivity. Qed.

Lemma unreported_lift {A} (r : Outcome A) : unreported (lift r).
Proof. intros this. reflexivity. Qed.

Lemma unreported_emit (out : list Effect) : snapshots out = [] -> unreported (emit out).
Proof. intros H this. exact H. Qed.

Lemma snapshots_app (a b : list Effect) : snapshots (a ++ b) = snapshots a ++ snapshots b.
Proof.
  induction a as [|e a IH]; [reflexivity|].
  destruct e; cbn [app snapshots]; rewrite IH; reflexivity.
Qed.

Lemma unreported_bind {A C} (m : M A) (k : A -> M C) :
  unreported m -> (forall a, unreported (k a)) -> unreported (bind m k).
Proof.
  intros Hm Hk this. specialize (Hm this). unfold bind, trace_of in *.
  destruct (m this) as [[[a|e] this1] out1]; cbn [fst snd] in *.
  - specialize (Hk a this1). unfold trace_of in Hk.
    destruct (k a this1) as [[r this2] out2]; cbn [fst snd] in *.
    rewrite snapshots_app, Hm, Hk. reflexivity.
  - exact Hm.
Qed.

Lemma snapshots_stops (l : list nat) : snapshots (map SourceStop l) = [].
Proof. induction l; [reflexivity|exact IHl]. Qed.

Lemma advances_of_preserves {A} (m : M A) : preserves nextStartTime m -> advances m.
Proof. intros H this. rewrite (H this). apply Qle_refl. Qed.

Lemma advances_bind {A C} (m : M A) (k : A -> M C) :
  advances m -> (forall a, advances (k a)) -> advances (bind m k).
Proof.
  intros Hm Hk this. specialize (Hm this). unfold bind, state_of in *.
  destruct (m this) as [[[a|e] this1] out1]; cbn [fst snd] in *.
  - specialize (Hk a this1). unfold state_of in Hk.
    destruct (k a this1) as [[r this2] out2]; cbn [fst snd] in *.
    apply Qle_trans with (nextStartTime this1); assumption.
  - exact Hm.
Qed.

Lemma advances_bind_lift {A C} (r : Outcome A) (k : A -> M C) :
  (forall a, r = Ok a -> advances (k a)) -> advances (bind (lift r) k).
Proof.
  intros Hk this. unfold bind, lift, state_of.
  destruct r as [a|e]; cbn [fst snd].
  - specialize (Hk a eq_refl this). unfold state_of in Hk.
    destruct (k a this) as [[r this2] out2]; cbn [fst snd] in *. exact Hk.
  - apply Qle_refl.
Qed.

(** Discharge a frame condition by walking the method; [side] settles what
    a setter does to the field. *)
Ltac frame_with side :=
  repeat
    lazymatch goal with
    | |- preserves _ (bind _ _) => apply preserves_bind; [|intro]
    | |- preserves _ (ret _) => apply preserves_ret
    | |- preserves _ get => apply preserves_get
    | |- preserves _ (emit _) => apply preserves_emit
    | |- preserves _ (throw _) => apply preserves_throw
    | |- preserves _ (lift _) => apply preserves_lift
    | |- preserves _ (modify _) => apply preserves_modify; intro; side
    | |- preserves _ alloc => apply preserves_alloc; intros; side
    | |- preserves _ (match ?x with _ => _ end) => destruct x
    | |- unreported (bind _ _) => apply unreported_bind; [|intro]
    | |- unreported (ret _) => apply unreported_ret
    | |- unreported get => apply unreported_get
    | |- unreported (modify _) => apply unreported_modify
    | |- unreported alloc => apply unreported_alloc
    | |- unreported (throw _) => apply unreported_throw
    | |- unreported (lift _) => apply unreported_lift
    | |- unreported (emit (map SourceStop _)) =>
        apply unreported_emit; apply snapshots_stops
    | |- unreported (emit (match ?x with _ => _ end)) => destruct x
    | |- unreported (emit _) => apply unreported_emit; reflexivity
    | |- unreported (match ?x with _ => _ end) => destruct x
    end.

Ltac frame := frame_with ltac:(first [reflexivity | solve [auto]]).

Lemma sendText_preserves {B} (proj : LiveVoiceSession -> B) text : preserves proj (sendText text).
Proof. unfold sendText. frame. Qed.

Lemma sendImage_preserves {B} (proj : LiveVoiceSession -> B) d : preserves proj (sendImage d).
Proof. unfold sendImage. frame. Qed.

Lemma react_preserves {B} (proj : LiveVoiceSession -> B) s k : preserves proj (react s k).
Proof. unfold react. frame. apply sendText_preserves. Qed.

Lemma onaudioprocess_preserves {B} (proj : LiveVoiceSession -> B) d :
  preserves proj (onaudioprocess d).
Proof. unfold onaudioprocess. frame. Qed.

Lemma after_await_preserves {B} (proj : LiveVoiceSession -> B) fc settled :
  preserves proj (after_await fc settled).
Proof. unfold after_await. frame. Qed.

(** ** Which method touches which field *)

Lemma stopAudioOutput_preserves {B} (proj : LiveVoiceSession -> B) env :
  (forall t v, proj (set_currentSources v t) = proj t) ->
  (forall t v, proj (set_nextStartTime v t) = proj t) ->
  preserves proj (stopAudioOutput env).
Proof. intros H1 H2. unfold stopAudioOutput. frame. Qed.

Lemma setListening_preserves {B} (proj : LiveVoiceSession -> B) env b :
  (forall t v, proj (set_currentSources v t) = proj t) ->
  (forall t v, proj (set_nextStartTime v t) = proj t) ->
  (forall t v, proj (set_isMuted v t) = proj t) ->
  preserves proj (setListening env b).
Proof.
  intros H1 H2 H3. unfold setListening. frame.
  apply stopAudioOutput_preserves; assumption.
Qed.

Lemma playAudioBuffer_preserves {B} (proj : LiveVoiceSession -> B) env buffer :
  (forall t v, proj (set_currentSources v t) = proj t) ->
  (forall t v, proj (set_nextStartTime v t) = proj t) ->
  (forall t v, proj (set_heap v t) = proj t) ->
  preserves proj (playAudioBuffer env buffer).
Proof. intros H1 H2 H3. unfold playAudioBuffer. frame. Qed.

Lemma handle_audio_preserves {B} (proj : LiveVoiceSession -> B) env sc :
  (forall t v, proj (set_currentSources v t) = proj t) ->
  (forall t v, proj (set_nextStartTime v t) = proj t) ->
  (forall t v, proj (set_heap v t) = proj t) ->
  preserves proj (handle_audio env sc).
Proof.
  intros H1 H2 H3. unfold handle_audio. frame.
  apply playAudioBuffer_preserves; assumption.
Qed.

Lemma handle_transcription_preserves {B} (proj : LiveVoiceSession -> B) sc :
  (forall t v, proj (set_currentInputTranscription v t) = proj t) ->
  (forall t v, proj (set_currentOutputTranscription v t) = proj t) ->
  preserves proj (handle_transcription sc).
Proof.
  intros H1 H2. unfold handle_transcription, report_transcription. frame.
Qed.

Lemma onmessage_arrival_preserves {B} (proj : LiveVoiceSession -> B) env h msg :
  (forall t v, proj (set_currentSources v t) = proj t) ->
  (forall t v, proj (set_nextStartTime v t) = proj t) ->
  (forall t v, proj (set_heap v t) = proj t) ->
  (forall t v, proj (set_currentInputTranscription v t) = proj t) ->
  (forall t v, proj (set_currentOutputTranscription v t) = proj t) ->
  preserves proj (bind (onmessage_arrival env h msg) (fun _ => ret tt)).
Proof.
  intros H1 H2 H3 H4 H5. unfold onmessage_arrival. frame.
  - apply handle_transcription_preserves; assumption.
  - apply handle_audio_preserves; assumption.
Qed.

Lemma onended_preserves {B} (proj : LiveVoiceSession -> B) src :
  (forall t v, proj (set_currentSources v t) = proj t) ->
  preserves proj (onended src).
Proof. intros H1. unfold onended. frame. Qed.

Lemma run_cleanup_preserves {B} (proj : LiveVoiceSession -> B) c :
  preserves proj (run_cleanup c).
Proof. unfold run_cleanup. frame. Qed.

Lemma disconnect_preserves {B} (proj : LiveVoiceSession -> B) :
  (forall t v, proj (set_session v t) = proj t) ->
  preserves proj disconnect.
Proof.
  intros H1. unfold disconnect. frame. apply run_cleanup_preserves.
Qed.

Lemma connect_preserves {B} (proj : LiveVoiceSession -> B) granted :
  (forall t v, proj (set_inputContext v t) = proj t) ->
  (forall t v, proj (set_outputContext v t) = proj t) ->
  (forall t v, proj (set_session v t) = proj t) ->
  (forall t v, proj (set_cleanup v t) = proj t) ->
  (forall t v, proj (set_heap v t) = proj t) ->
  preserves proj (connect granted).
Proof. intros H1 H2 H3 H4 H5. unfold connect. frame. Qed.

(** ** Sending without a session handle *)

(** C10.  When no session handle exists, [sendText] and [sendImage] return at
    once: no error, nothing sent, the session untouched. *)
Theorem send_without_session_is_noop (this : LiveVoiceSession)
  (text base64Data : string) :
  session this = None ->
  sendText text this = (Ok tt, this, []) /\
  sendImage base64Data this = (Ok tt, this, []).
Proof.
  intros H. unfold sendText, sendImage, bind, get. rewrite H. split; reflexivity.
Qed.

Lemma session_absent_after_disconnect (this : LiveVoiceSession) :
  session (state_of (disconnect this)) = None.
Proof.
  destruct this as [[i|] [o|] se ns cs mu [c|] ci co ot hp]; reflexivity.
Qed.

Lemma session_kept_when_microphone_denied (this : LiveVoiceSession) :
  session (state_of (connect false this)) = session this.
Proof. destruct this; reflexivity. Qed.

(** Until [connect] succeeds there is no handle. *)
Lemma session_absent_step (env : Env) (op : Operation) (this : LiveVoiceSession) :
  is_successful_connect op = false -> session this = None ->
  session (state_of (perform env op this)) = None.
Proof.
  intros Hop H.
  destruct op as [[|]| b | text | d | | d | h msg | src | s k | fc r]; cbn [perform].
  - discriminate Hop.
  - rewrite session_kept_when_microphone_denied. exact H.
  - rewrite setListening_preserves by reflexivity. exact H.
  - rewrite sendText_preserves. exact H.
  - rewrite sendImage_preserves. exact H.
  - apply session_absent_after_disconnect.
  - rewrite onaudioprocess_preserves. exact H.
  - rewrite onmessage_arrival_preserves by reflexivity. exact H.
  - rewrite onended_preserves by reflexivity. exact H.
  - rewrite react_preserves. exact H.
  - rewrite after_await_preserves. exact H.
Qed.

(** A history is run one operation at a time. *)
Lemma run_cons (env : Env) (op : Operation) (rest : list (Env * Operation))
  (this : LiveVoiceSession) :
  run ((env, op) :: rest) this
  = (fst (run rest (state_of (perform env op this))),
     trace_of (perform env op this) ++ snd (run rest (state_of (perform env op this)))).
Proof.
  cbn [run]. unfold state_of, trace_of.
  destruct (perform env op this) as [[r s] out]. cbn [fst snd].
  destruct (run rest s). reflexivity.
Qed.

Lemma session_absent_until_connected (history : list (Env * Operation))
  (this : LiveVoiceSession) :
  forallb (fun eo => negb (is_successful_connect (snd eo))) history = true ->
  session this = None ->
  session (fst (run history this)) = None.
Proof.
  revert this. induction history as [|[env op] rest IH]; intros this Hh H.
  - exact H.
  - cbn [forallb snd] in Hh. apply andb_true_iff in Hh. destruct Hh as [Hop Hrest].
    rewrite run_cons. cbn [fst]. apply IH; [exact Hrest|].
    apply session_absent_step; [|exact H].
    apply negb_true_iff. exact Hop.
Qed.

Lemma send_without_session_is_noop_witness :
  session fresh = None /\
  sendText "hello" fresh = (Ok tt, fresh, []) /\
  sendImage "AAAA" fresh = (Ok tt, fresh, []).
Proof.
  assert (H : session fresh = None) by reflexivity.
  split; [exact H|]. exact (send_without_session_is_noop fresh "hello" "AAAA" H).
Defined.

(** ** The capture pipeline *)

(** C9.  A capture callback that finds the session muted or without a
    handle discards the frame: nothing is encoded or sent and the session is
    as before.  Unmuted and with a handle, it encodes the frame and hands it
    to the session as a media-input message. *)
Theorem capture_is_gated (this : LiveVoiceSession) (inputData : list Q) :
  (isMuted this = true \/ session this = None ->
   onaudioprocess inputData this = (Ok tt, this, [])) /\
  (forall p, isMuted this = false -> session this = Some p ->
   onaudioprocess inputData this
   = (Ok tt, this, [PromiseThen p (OnSendAudio (encode inputData))]) /\
   forall s this',
     react s (OnSendAudio (encode inputData)) this'
     = (Ok tt, this',
        [SessionCall (SendRealtimeInput "audio/pcm;rate=16000" (encode inputData))])).
Proof.
  unfold onaudioprocess, bind, get. split.
  - intros [H|H]; rewrite H; [reflexivity|].
    destruct (isMuted this); reflexivity.
  - intros p Hm Hs. rewrite Hm, Hs. split; [reflexivity|]. intros s this'. reflexivity.
Qed.

Lemma capture_is_gated_witness :
  (isMuted fresh = true \/ session fresh = None) /\
  onaudioprocess [1 # 2; - (1 # 2)]%Q fresh = (Ok tt, fresh, []) /\
  isMuted live = false /\ session live = Some 5%nat /\
  onaudioprocess [1 # 2; - (1 # 2)]%Q live
  = (Ok tt, live, [PromiseThen 5 (OnSendAudio "/z8AwA==")]).
Proof.
  assert (H1 : isMuted fresh = true \/ session fresh = None) by (left; reflexivity).
  assert (H2 : isMuted live = false) by reflexivity.
  assert (H3 : session live = Some 5%nat) by reflexivity.
  destruct (capture_is_gated fresh [1 # 2; - (1 # 2)]%Q) as [A _].
  destruct (capture_is_gated live [1 # 2; - (1 # 2)]%Q) as [_ B].
  split; [exact H1|]. split; [exact (A H1)|].
  split; [exact H2|]. split; [exact H3|].
  exact (proj1 (B 5%nat H2 H3)).
Defined.

(** ** Teardown *)

Lemma disconnect_connected (this : LiveVoiceSession) (c : CleanupClosure) (i o : nat) :
  cleanup this = Some c -> inputContext this = Some i -> outputContext this = Some o ->
  disconnect this
  = (Ok tt, set_session None this,
     [NodeDisconnect (cl_source c); NodeDisconnect (cl_processor c);
      TrackStop (cl_stream c); ContextClose i; ContextClose o;
      PromiseThen (cl_sessionPromise c) OnClose]).
Proof.
  intros Hc Hi Ho. unfold disconnect, run_cleanup, bind, get, emit, modify.
  rewrite Hc, Hi, Ho. reflexivity.
Qed.

Lemma disconnect_never_connected (this : LiveVoiceSession) :
  cleanup this = None -> disconnect this = (Ok tt, set_session None this, []).
Proof.
  intros Hc. unfold disconnect, bind, get, modify. rewrite Hc. reflexivity.
Qed.

Lemma disconnect_returns (this : LiveVoiceSession) : outcome_of (disconnect this) = Ok tt.
Proof.
  destruct this as [[i|] [o|] se ns cs mu [c|] ci co ot hp]; reflexivity.
Qed.

Lemma context_closes_app (ctx : nat) (a b : list Effect) :
  context_closes ctx (a ++ b) = (context_closes ctx a + context_closes ctx b)%nat.
Proof.
  induction a as [|e a IH]; [reflexivity|].
  destruct e; cbn [app context_closes]; rewrite IH; lia.
Qed.

Lemma transport_closes_app (p : nat) (a b : list Effect) :
  transport_closes p (a ++ b) = (transport_closes p a + transport_closes p b)%nat.
Proof.
  induction a as [|e a IH]; [reflexivity|].
  destruct e as [| | | | | | | | |q k|]; cbn [app transport_closes];
    try destruct k; rewrite IH; lia.
Qed.

(** C7 (as amended).  [disconnect()] never raises, and leaves no session
    handle; but teardown is not idempotent: every call made after a
    successful [connect] runs the teardown closure again, so after [n] calls
    in a row each audio context and the transport have received [n] close
    calls.  A session that never connected closes nothing. *)
Theorem disconnect_closes_on_every_call (this : LiveVoiceSession)
  (c : CleanupClosure) (i o : nat) (env : Env) (n : nat) :
  cleanup this = Some c -> inputContext this = Some i ->
  outputContext this = Some o -> i <> o ->
  let out := snd (run (disconnects env n) this) in
  context_closes i out = n /\
  context_closes o out = n /\
  transport_closes (cl_sessionPromise c) out = n /\
  (forall t, outcome_of (disconnect t) = Ok tt) /\
  (forall t, session (state_of (disconnect t)) = None) /\
  (forall t, cleanup t = None -> trace_of (disconnect t) = []).
Proof.
  intros Hc Hi Ho Hio. cbv zeta.
  assert (G : forall t, cleanup t = Some c -> inputContext t = Some i ->
                        outputContext t = Some o ->
            let out := snd (run (disconnects env n) t) in
            context_closes i out = n /\ context_closes o out = n /\
            transport_closes (cl_sessionPromise c) out = n).
  { induction n as [|n IH]; intros t Tc Ti To; [repeat split|].
    unfold disconnects in *. cbn [repeat]. cbv zeta. rewrite run_cons.
    cbn [perform snd]. rewrite (disconnect_connected t c i o Tc Ti To).
    unfold state_of, trace_of. cbn [fst snd].
    specialize (IH (set_session None t) Tc Ti To). cbv zeta in IH.
    destruct IH as [A [B C]].
    rewrite context_closes_app, context_closes_app, transport_closes_app, A, B, C.
    cbn [context_closes transport_closes].
    rewrite !Nat.eqb_refl.
    destruct (Nat.eqb_spec o i) as [E|_]; [congruence|].
    destruct (Nat.eqb_spec i o) as [E|_]; [congruence|].
    repeat split; lia. }
  destruct (G this Hc Hi Ho) as [A [B C]].
  repeat split; try assumption.
  - apply disconnect_returns.
  - apply session_absent_after_disconnect.
  - intros t Ht. rewrite (disconnect_never_connected t Ht). reflexivity.
Qed.

Lemma disconnect_closes_on_every_call_witness :
  cleanup live = Some (mkCleanup 3 4 2 5) /\ inputContext live = Some 0%nat /\
  outputContext live = Some 1%nat /\ 0%nat <> 1%nat /\
  context_closes 0 (snd (run (disconnects noon 3) live)) = 3%nat.
Proof.
  assert (H1 : cleanup live = Some (mkCleanup 3 4 2 5)) by reflexivity.
  assert (H2 : inputContext live = Some 0%nat) by reflexivity.
  assert (H3 : outputContext live = Some 1%nat) by reflexivity.
  assert (H4 : 0%nat <> 1%nat) by discriminate.
  split; [exact H1|]. split; [exact H2|]. split; [exact H3|]. split; [exact H4|].
  exact (proj1 (disconnect_closes_on_every_call live _ 0%nat 1%nat noon 3%nat H1 H2 H3 H4)).
Defined.

(** C7, counterexample.  [disconnect()] twice on a connected session: the
    second call raises nothing, but both audio contexts and the transport are
    closed twice, not once. *)
Lemma disconnect_twice_closes_twice :
  let out := snd (run (disconnects noon 2) live) in
  context_closes 0 out = 2%nat /\
  context_closes 1 out = 2%nat /\
  transport_closes 5 out = 2%nat /\
  outcome_of (disconnect (state_of (disconnect live))) = Ok tt /\
  trace_of (disconnect (state_of (disconnect live))) = trace_of (disconnect live).
Proof. vm_compute. repeat split. Qed.

(** What a successful [connect] leaves in the fields. *)
Lemma connect_installs_teardown (this : LiveVoiceSession) :
  let s := state_of (connect true this) in
  inputContext s = Some (heap this) /\
  outputContext s = Some (S (heap this)) /\
  session s = Some (5 + heap this)%nat /\
  cleanup s = Some (mkCleanup (3 + heap this) (4 + heap this) (2 + heap this)
                      (5 + heap this)).
Proof. destruct this; repeat split. Qed.

(** ** What a method never emits *)

Section Never.
Context (p : Effect -> bool).

Lemma never_emits_ret {A} (a : A) : never_emits p (ret a).
Proof. intros this. reflexivity. Qed.

Lemma never_emits_get : never_emits p get.
Proof. intros this. reflexivity. Qed.

Lemma never_emits_modify f : never_emits p (modify f).
Proof. intros this. reflexivity. Qed.

Lemma never_emits_alloc : never_emits p alloc.
Proof. intros this. reflexivity. Qed.

Lemma never_emits_throw {A} (e : JsError) : never_emits p (@throw A e).
Proof. intros this. reflexivity. Qed.

Lemma never_emits_lift {A} (r : Outcome A) : never_emits p (lift r).
Proof. intros this. reflexivity. Qed.

Lemma never_emits_emit (out : list Effect) :
  existsb p out = false -> never_emits p (emit out).
Proof. intros H this. exact H. Qed.

Lemma never_emits_bind {A C} (m : M A) (k : A -> M C) :
  never_emits p m -> (forall a, never_emits p (k a)) -> never_emits p (bind m k).
Proof.
  intros Hm Hk this. specialize (Hm this). unfold bind, trace_of in *.
  destruct (m this) as [[[a|e] this1] out1]; cbn [fst snd] in *; [|exact Hm].
  specialize (Hk a this1). unfold trace_of in Hk.
  destruct (k a this1) as [[r this2] out2]; cbn [fst snd] in *.
  rewrite existsb_app, Hm, Hk. reflexivity.
Qed.
End Never.

Lemma existsb_stops (p : Effect -> bool) (l : list nat) :
  (forall s, p (SourceStop s) = false) -> existsb p (map SourceStop l) = false.
Proof. intros H. induction l as [|s l IH]; [reflexivity|]. cbn. rewrite H, IH. reflexivity. Qed.

(** Walk a method whose emissions are all written out. *)
Ltac quiet :=
  repeat
    lazymatch goal with
    | |- never_emits _ (bind _ _) => apply never_emits_bind; [|intro]
    | |- never_emits _ (ret _) => apply never_emits_ret
    | |- never_emits _ get => apply never_emits_get
    | |- never_emits _ (modify _) => apply never_emits_modify
    | |- never_emits _ alloc => apply never_emits_alloc
    | |- never_emits _ (throw _) => apply never_emits_throw
    | |- never_emits _ (lift _) => apply never_emits_lift
    | |- never_emits _ (emit (map SourceStop _)) =>
        apply never_emits_emit; apply existsb_stops; reflexivity
    | |- never_emits _ (emit (match ?x with _ => _ end)) => destruct x
    | |- never_emits _ (emit (if ?x then _ else _)) => destruct x
    | |- never_emits _ (emit _) => apply never_emits_emit; reflexivity
    | |- never_emits _ (match ?x with _ => _ end) => destruct x
    end.

Ltac unfold_methods :=
  unfold perform, connect, setListening, stopAudioOutput, sendText, sendImage,
    disconnect, run_cleanup, onmessage_arrival, onmessage, handle_transcription,
    report_transcription, handle_audio, playAudioBuffer, handle_tool_calls, after_await,
    onended, react, sendText.

(** ** The tool-call broker *)

Lemma serve_calls_answered (onToolCall : ToolHandler) (functionCalls : list FunctionCall)
  (this : LiveVoiceSession) (p : nat) :
  session this = Some p ->
  state_of (serve_calls onToolCall functionCalls this) = this /\
  trace_of (serve_calls onToolCall functionCalls this)
  = answered onToolCall p functionCalls.
Proof.
  intros Hs. induction functionCalls as [|fc rest [IHs IHt]]; [split; reflexivity|].
  cbn [serve_calls answered]. unfold after_await, bind, lift, get, emit, state_of, trace_of in *.
  destruct (onToolCall (fc_name fc) (fc_args fc)) as [result|e]; [|split; reflexivity].
  rewrite Hs. cbn [fst snd app] in *.
  destruct (serve_calls onToolCall rest this) as [[r s] out]. cbn [fst snd] in *.
  subst. split; reflexivity.
Qed.


(** The loop body after its [await], case by case. *)
Lemma after_await_cases (fc : FunctionCall) (settled : Outcome JsValue)
  (this : LiveVoiceSession) :
  after_await fc settled this
  = match settled, session this with
    | Throw e, _ => (Throw e, this, [])
    | Ok _, None => (Throw TypeError, this, [])
    | Ok result, Some p => (Ok tt, this, [PromiseThen p (OnToolResponse fc result)])
    end.
Proof.
  unfold after_await, bind, lift, get, throw, emit.
  destruct settled as [result|e]; [|reflexivity].
  destruct (session this); reflexivity.
Qed.

Lemma filter_none {A} (p : A -> bool) (l : list A) :
  existsb p l = false -> filter p l = [].
Proof.
  induction l as [|a l IH]; [reflexivity|].
  cbn [existsb filter]. intros H. apply orb_false_iff in H. destruct H as [-> H].
  apply IH. exact H.
Qed.

Lemma responses_filter (out : list Effect) :
  responses (filter is_tool_response out) = responses out.
Proof.
  induction out as [|e out IH]; [reflexivity|].
  destruct e as [| | | | | | | | |p [| | | |]|]; cbn [filter is_tool_response responses];
    rewrite ?IH; reflexivity.
Qed.

Lemma responses_answered (onToolCall : ToolHandler) (p : nat)
  (functionCalls : list FunctionCall) :
  Forall (returns onToolCall) functionCalls ->
  responses (answered onToolCall p functionCalls) = map correlation functionCalls.
Proof.
  intros F. induction F as [|fc rest [result Hfc] _ IH]; [reflexivity|].
  cbn [answered]. rewrite Hfc. cbn [responses map]. rewrite IH. reflexivity.
Qed.

Lemma run_app (a b : list (Env * Operation)) (this : LiveVoiceSession) :
  run (a ++ b) this
  = (fst (run b (fst (run a this))), snd (run a this) ++ snd (run b (fst (run a this)))).
Proof.
  revert this. induction a as [|[env op] a IH]; intros this.
  - cbn [app run fst snd]. destruct (run b this). reflexivity.
  - cbn [app]. rewrite !run_cons, IH. cbn [fst snd]. rewrite app_assoc. reflexivity.
Qed.

(** An operation that keeps the handle registers no tool response. *)
Lemma keeps_handle_step (env : Env) (op : Operation) (this : LiveVoiceSession) :
  keeps_handle op = true ->
  session (state_of (perform env op this)) = session this /\
  filter is_tool_response (trace_of (perform env op this)) = [].
Proof.
  intros H.
  assert (Q : forall m : M unit,
             never_emits is_tool_response m ->
             filter is_tool_response (trace_of (m this)) = []).
  { intros m N. apply filter_none, N. }
  destruct op as [[|] | b | text | d | | d | h msg | src | s k | fc r];
    try discriminate H; cbn [perform];
    (split; [|apply Q; unfold_methods; unfold onaudioprocess; quiet]).
  - apply session_kept_when_microphone_denied.
  - apply setListening_preserves; reflexivity.
  - apply sendText_preserves.
  - apply sendImage_preserves.
  - apply onaudioprocess_preserves.
  - apply onmessage_arrival_preserves; reflexivity.
  - apply onended_preserves; reflexivity.
  - apply react_preserves.
Qed.

Lemma meanwhile_keeps_handle (history : list (Env * Operation)) (this : LiveVoiceSession) :
  forallb (fun eo => keeps_handle (snd eo)) history = true ->
  session (fst (run history this)) = session this /\
  filter is_tool_response (snd (run history this)) = [].
Proof.
  revert this. induction history as [|[env op] rest IH]; intros this H.
  - split; reflexivity.
  - cbn [forallb snd] in H. apply andb_true_iff in H. destruct H as [Hop Hrest].
    destruct (keeps_handle_step env op this Hop) as [S T].
    destruct (IH (state_of (perform env op this)) Hrest) as [S' T'].
    rewrite run_cons. cbn [fst snd]. rewrite filter_app, T, T', S', S.
    split; reflexivity.
Qed.

(** A request served while the handle is left alone: every settlement finds
    the handle and registers its response on it. *)
Lemma served_answers (env : Env) (onToolCall : ToolHandler)
  (calls : list (list (Env * Operation) * FunctionCall)) (this : LiveVoiceSession)
  (p : nat) :
  session this = Some p ->
  Forall (fun c => returns onToolCall (snd c)) calls ->
  undisturbed calls = true ->
  session (fst (run (served env onToolCall calls) this)) = Some p /\
  filter is_tool_response (snd (run (served env onToolCall calls) this))
  = answered onToolCall p (map snd calls).
Proof.
  intros Hs F. revert this Hs.
  induction F as [|[meanwhile fc] rest [result Hfc] _ IH]; intros this Hs U.
  - split; [exact Hs|reflexivity].
  - unfold undisturbed in U. cbn [forallb fst] in U.
    apply andb_true_iff in U. destruct U as [Um Urest].
    destruct (meanwhile_keeps_handle meanwhile this Um) as [S T].
    cbn [snd] in Hfc. cbn [served map snd answered].
    rewrite run_app, run_cons. cbn [fst snd perform].
    rewrite Hfc, after_await_cases, S, Hs.
    unfold state_of, trace_of. cbn [fst snd].
    assert (Hs' : session (fst (run meanwhile this)) = Some p) by (rewrite S; exact Hs).
    destruct (IH (fst (run meanwhile this)) Hs' Urest) as [S2 T2].
    split; [exact S2|].
    rewrite filter_app, T. cbn [app filter is_tool_response]. rewrite T2. reflexivity.
Qed.

(** The callback run through is its arrival followed by its loop. *)
Lemma onmessage_runs_through (env : Env) (onToolCall : option ToolHandler)
  (msg : LiveServerMessage) (this : LiveVoiceSession) :
  onmessage env onToolCall msg this
  = bind (onmessage_arrival env onToolCall msg)
      (fun pending => match onToolCall with
                      | Some handler => serve_calls handler pending
                      | None => ret tt
                      end) this.
Proof.
  unfold onmessage, onmessage_arrival, handle_tool_calls, bind, ret.
  destruct (handle_transcription (serverContent msg) this) as [[[[]|e] t] out];
    [|reflexivity].
  destruct (handle_audio env (serverContent msg) t) as [[[[]|e] a] out2];
    [|reflexivity].
  rewrite app_nil_r.
  destruct (toolCall msg) as [calls|], onToolCall as [handler|];
    try (cbn [serve_calls]; unfold ret; rewrite !app_nil_r; reflexivity).
  destruct (serve_calls handler calls a) as [[r s] out3].
  rewrite app_assoc. reflexivity.
Qed.




(** ** Malformed audio chunks *)

Lemma view_odd (data : list Z) :
  Nat.Odd (length data) -> Int16Array_of_Uint8Array data = Throw RangeError.
Proof.
  intros [k Hk]. pose proof (view_length data) as V.
  destruct (Int16Array_of_Uint8Array data) as [vs|e].
  - lia.
  - destruct V as [-> _]. reflexivity.
Qed.

Lemma decodeAudioData_odd (data : list Z) :
  Nat.Odd (length data) -> decodeAudioData data = Throw RangeError.
Proof. intros H. unfold decodeAudioData. rewrite (view_odd data H). reflexivity. Qed.

(** C5 (as amended).  A chunk with an odd number of bytes makes [decode]
    fail (the 16-bit view raises a [RangeError]) and no frame is returned.
    The fragment is dropped: nothing is scheduled, the cursor, the active
    set, the session handle, the teardown closure and the output context are
    as before, and the next fragment is scheduled as it would have been.  The
    failure is not caught, though: it ends the message callback right after
    the transcript step, before the tool-call loop, so the callback never
    awaits a handler and registers no tool response. *)
Theorem malformed_chunk_is_dropped (this : LiveVoiceSession) (env : Env)
  (onToolCall : option ToolHandler) (msg : LiveServerMessage)
  (c : LiveServerContent) (audioData : string) (audioBytes : list Z) :
  serverContent msg = Some c ->
  modelTurnData c = Some audioData ->
  audioData <> ""%string ->
  outputContext this <> None ->
  base64ToUint8Array audioData = Ok audioBytes ->
  Nat.Odd (length audioBytes) ->
  decode audioData = Throw RangeError /\
  let t := handle_transcription (Some c) this in
  onmessage_arrival env onToolCall msg this
  = (Throw RangeError, state_of t, trace_of t) /\
  onmessage env onToolCall msg this = (Throw RangeError, state_of t, trace_of t) /\
  windows (trace_of t) = [] /\
  responses (trace_of t) = [] /\
  nextStartTime (state_of t) = nextStartTime this /\
  currentSources (state_of t) = currentSources this /\
  session (state_of t) = session this /\
  cleanup (state_of t) = cleanup this /\
  outputContext (state_of t) = outputContext this /\
  forall (env' : Env) (buffer : AudioBuffer),
    trace_of (playAudioBuffer env' buffer (state_of t))
    = trace_of (playAudioBuffer env' buffer this).
Proof.
  intros Hsc Hd Hne Hoc Hb Hodd.
  assert (D : decode audioData = Throw RangeError).
  { unfold decode. rewrite Hb. apply decodeAudioData_odd. exact Hodd. }
  split; [exact D|]. cbv zeta.
  assert (T : outcome_of (handle_transcription (Some c) this) = Ok tt).
  { unfold handle_transcription, report_transcription, bind, get, modify, emit, ret,
      outcome_of.
    destruct (outputTranscription c), (inputTranscription c), (turnComplete c);
      cbn; repeat (match goal with |- context [if ?b then _ else _] => destruct b end; cbn);
      reflexivity. }
  assert (C : outputContext (state_of (handle_transcription (Some c) this)) <> None).
  { rewrite handle_transcription_preserves by reflexivity. exact Hoc. }
  assert (A : forall s, outputContext s <> None ->
                handle_audio env (Some c) s = (Throw RangeError, s, [])).
  { intros s Hs. unfold handle_audio, bind, get, lift.
    destruct (outputContext s) as [oc|]; [|contradiction Hs; reflexivity].
    rewrite Hd. destruct audioData as [|ch rest]; [contradiction Hne; reflexivity|].
    rewrite Hb, (decodeAudioData_odd audioBytes Hodd). reflexivity. }
  assert (E' : onmessage_arrival env onToolCall msg this
              = (Throw RangeError, state_of (handle_transcription (Some c) this),
                 trace_of (handle_transcription (Some c) this))).
  { unfold onmessage_arrival. rewrite Hsc. unfold bind at 1.
    unfold outcome_of, state_of, trace_of in *.
    destruct (handle_transcription (Some c) this) as [[o t] out]. cbn [fst snd] in *.
    subst o. unfold bind. rewrite (A t C). rewrite app_nil_r. reflexivity. }
  assert (E : onmessage env onToolCall msg this
              = (Throw RangeError, state_of (handle_transcription (Some c) this),
                 trace_of (handle_transcription (Some c) this))).
  { unfold onmessage. rewrite Hsc. unfold bind at 1.
    unfold outcome_of, state_of, trace_of in *.
    destruct (handle_transcription (Some c) this) as [[o t] out]. cbn [fst snd] in *.
    subst o. unfold bind. rewrite (A t C). rewrite app_nil_r. reflexivity. }
  assert (W : windows (trace_of (handle_transcription (Some c) this)) = [] /\
              responses (trace_of (handle_transcription (Some c) this)) = []).
  { unfold handle_transcription, report_transcription, bind, get, modify, emit, ret,
      trace_of.
    destruct (outputTranscription c), (inputTranscription c), (turnComplete c);
      cbn; repeat (match goal with |- context [if ?b then _ else _] => destruct b end; cbn);
      split; reflexivity. }
  assert (N : nextStartTime (state_of (handle_transcription (Some c) this))
              = nextStartTime this)
    by (apply handle_transcription_preserves; reflexivity).
  assert (P : heap (state_of (handle_transcription (Some c) this)) = heap this)
    by (apply handle_transcription_preserves; reflexivity).
  split; [exact E'|]. split; [exact E|].
  split; [exact (proj1 W)|]. split; [exact (proj2 W)|].
  split; [exact N|].
  split; [apply handle_transcription_preserves; reflexivity|].
  split; [apply handle_transcription_preserves; reflexivity|].
  split; [apply handle_transcription_preserves; reflexivity|].
  split; [apply handle_transcription_preserves; reflexivity|].
  intros env' buffer.
  rewrite (playAudioBuffer_step _ env' buffer C), (playAudioBuffer_step _ env' buffer Hoc).
  cbv zeta. unfold trace_of. cbn [snd]. rewrite N, P. reflexivity.
Qed.

Lemma malformed_chunk_is_dropped_witness :
  let msg := mkServerMessage (Some (mkServerContent None None false (Some "AAAA"%string))) None in
  base64ToUint8Array "AAAA" = Ok [0%Z; 0%Z; 0%Z] /\
  Nat.Odd (length [0%Z; 0%Z; 0%Z]) /\
  outputContext live <> None /\
  decode "AAAA" = Throw RangeError /\
  onmessage_arrival noon None msg live = (Throw RangeError, live, []).
Proof.
  cbv zeta.
  assert (H1 : base64ToUint8Array "AAAA" = Ok [0%Z; 0%Z; 0%Z]) by reflexivity.
  assert (H2 : Nat.Odd (length [0%Z; 0%Z; 0%Z])) by (exists 1%nat; reflexivity).
  assert (H3 : outputContext live <> None) by discriminate.
  assert (H4 : "AAAA"%string <> ""%string) by discriminate.
  split; [exact H1|]. split; [exact H2|]. split; [exact H3|].
  destruct (malformed_chunk_is_dropped live noon None
              (mkServerMessage (Some (mkServerContent None None false (Some "AAAA"%string))) None)
              (mkServerContent None None false (Some "AAAA"%string)) "AAAA" [0%Z; 0%Z; 0%Z]
              eq_refl eq_refl H4 H3 H1 H2) as [D [A _]].
  split; [exact D|exact A].
Defined.

(** C5, counterexample.  The failure is not contained.  A message that
    carries a chunk of three bytes and a tool call ends with the
    [RangeError] before its loop: the handler is never awaited and the call
    gets no response, where the same message without the chunk is left
    awaiting the handler and, run through, answers the call. *)
Lemma malformed_chunk_aborts_the_callback :
  base64ToUint8Array "AAAA" = Ok [0%Z; 0%Z; 0%Z] /\
  onmessage_arrival noon (Some drawing_handler) odd_chunk_with_call live
  = (Throw RangeError, live, []) /\
  onmessage noon (Some drawing_handler) odd_chunk_with_call live
  = (Throw RangeError, live, []) /\
  onmessage_arrival noon (Some drawing_handler) call_alone live
  = (Ok [draw_call], live, []) /\
  responses (trace_of (onmessage noon (Some drawing_handler) call_alone live))
  = [correlation draw_call].
Proof. repeat split. Qed.

(** ** The cursor *)

Lemma decodeAudioData_rate (data : list Z) (buffer : AudioBuffer) :
  decodeAudioData data = Ok buffer -> sampleRate buffer = 24000%Z.
Proof.
  unfold decodeAudioData. destruct (Int16Array_of_Uint8Array data) as [vs|e]; [|discriminate].
  destruct (createBuffer (length vs) 24000) as [b|e] eqn:E; [|discriminate].
  intros H. injection H as <-. cbn [sampleRate].
  unfold createBuffer in E. destruct (length vs); [discriminate|].
  injection E as <-. reflexivity.
Qed.

Lemma playAudioBuffer_advances (env : Env) (buffer : AudioBuffer) :
  (0 < sampleRate buffer)%Z -> advances (playAudioBuffer env buffer).
Proof.
  intros Hr this. destruct (outputContext this) as [oc|] eqn:E.
  - rewrite playAudioBuffer_step by congruence. cbv zeta.
    replace (nextStartTime (state_of _))
      with (Qmax (nextStartTime this) (currentTime env) + duration buffer)
      by (destruct this; reflexivity).
    pose proof (duration_nonneg buffer Hr).
    pose proof (Q.le_max_l (nextStartTime this) (currentTime env)). lra.
  - rewrite playAudioBuffer_without_context by exact E. apply Qle_refl.
Qed.

Lemma handle_audio_advances (env : Env) (sc : option LiveServerContent) :
  advances (handle_audio env sc).
Proof.
  unfold handle_audio. apply advances_bind; [apply advances_of_preserves; frame|].
  intros this0. destruct sc as [c|]; [|apply advances_of_preserves; frame].
  destruct (outputContext this0); [|apply advances_of_preserves; frame].
  destruct (modelTurnData c) as [[|ch d]|]; try solve [apply advances_of_preserves; frame].
  apply advances_bind_lift. intros bytes _.
  apply advances_bind_lift. intros buffer Hb.
  apply playAudioBuffer_advances. rewrite (decodeAudioData_rate _ _ Hb). reflexivity.
Qed.

(** No operation but a mute moves the cursor back. *)
Lemma perform_advances (env : Env) (op : Operation) :
  is_mute op = false -> advances (perform env op).
Proof.
  intros Hop.
  destruct op as [g | [|] | text | d | | d | h msg | src | s k | fc r]; cbn [perform].
  - apply advances_of_preserves, connect_preserves; reflexivity.
  - apply advances_of_preserves. unfold setListening. frame.
  - discriminate Hop.
  - apply advances_of_preserves, sendText_preserves.
  - apply advances_of_preserves, sendImage_preserves.
  - apply advances_of_preserves, disconnect_preserves; reflexivity.
  - apply advances_of_preserves, onaudioprocess_preserves.
  - unfold onmessage_arrival.
    apply advances_bind; [|intros _; apply advances_of_preserves, preserves_ret].
    apply advances_bind.
    + apply advances_of_preserves, handle_transcription_preserves; reflexivity.
    + intros _. apply advances_bind; [apply handle_audio_advances|intros _].
      apply advances_of_preserves, preserves_ret.
  - apply advances_of_preserves, onended_preserves; reflexivity.
  - apply advances_of_preserves, react_preserves.
  - apply advances_of_preserves, after_await_preserves.
Qed.

Lemma run_advances (history : list (Env * Operation)) (this : LiveVoiceSession) :
  forallb (fun eo => negb (is_mute (snd eo))) history = true ->
  nextStartTime this <= nextStartTime (fst (run history this)).
Proof.
  revert this. induction history as [|[env op] rest IH]; intros this Hh.
  - apply Qle_refl.
  - cbn [forallb snd] in Hh. apply andb_true_iff in Hh. destruct Hh as [Hop Hrest].
    rewrite run_cons. cbn [fst].
    apply Qle_trans with (nextStartTime (state_of (perform env op this))).
    + apply perform_advances. apply negb_true_iff. exact Hop.
    + apply IH. exact Hrest.
Qed.

(** [stopAudioOutput], computed. *)
Lemma stopAudioOutput_effect (env : Env) (this : LiveVoiceSession) :
  stopAudioOutput env this
  = (Ok tt,
     set_nextStartTime (match outputContext this with
                        | Some _ => currentTime env
                        | None => 0
                        end)
       (set_currentSources [] this),
     map SourceStop (currentSources this) ++ [AiSpeaking false]).
Proof.
  unfold stopAudioOutput, bind, get, emit, modify. cbn [fst snd app].
  rewrite ?app_nil_r. reflexivity.
Qed.

Lemma disconnect_never_touches_playback (this : LiveVoiceSession) :
  existsb touches_playback (trace_of (disconnect this)) = false.
Proof.
  destruct this as [[i|] [o|] se ns cs mu [c|] ci co ot hp]; reflexivity.
Qed.

(** C2 (as amended).  Across any history the cursor never moves back
    except at an explicit stop, and the class stops explicitly on mute only
    ([setListening(false)]).  That stop cancels every entry of the active
    set, empties the set, resets the cursor to the device clock (to 0 when
    there is no output context) and signals that the agent stopped speaking,
    so nothing remains scheduled when it returns.  [disconnect()] is not such
    a stop: it leaves cursor and active set as they are and signals
    nothing. *)
Theorem cursor_moves_back_only_on_mute (history : list (Env * Operation))
  (this : LiveVoiceSession) (env : Env) :
  (forallb (fun eo => negb (is_mute (snd eo))) history = true ->
   nextStartTime this <= nextStartTime (fst (run history this))) /\
  (let r := setListening env false this in
   outcome_of r = Ok tt /\
   isMuted (state_of r) = true /\
   currentSources (state_of r) = [] /\
   nextStartTime (state_of r)
   = match outputContext this with Some _ => currentTime env | None => 0 end /\
   trace_of r = map SourceStop (currentSources this) ++ [AiSpeaking false]) /\
  (let r := disconnect this in
   nextStartTime (state_of r) = nextStartTime this /\
   currentSources (state_of r) = currentSources this /\
   existsb touches_playback (trace_of r) = false).
Proof.
  split; [apply run_advances|]. split.
  - cbv zeta. unfold setListening, bind, modify. cbn [fst snd].
    rewrite stopAudioOutput_effect. destruct this; repeat split.
  - cbv zeta. split; [apply disconnect_preserves; reflexivity|].
    split; [apply disconnect_preserves; reflexivity|].
    apply disconnect_never_touches_playback.
Qed.

Lemma cursor_moves_back_only_on_mute_witness :
  let history :=
    [(noon, Message None
              (mkServerMessage (Some (mkServerContent None None false (Some "AAAAAAAA"%string)))
                 None));
     (later, CallSendText "hello");
     (later, CallDisconnect)] in
  forallb (fun eo => negb (is_mute (snd eo))) history = true /\
  nextStartTime live <= nextStartTime (fst (run history live)) /\
  currentSources (state_of (setListening later false speaking)) = [].
Proof.
  cbv zeta.
  match goal with |- forallb _ ?h = true /\ _ =>
    assert (H : forallb (fun eo => negb (is_mute (snd eo))) h = true) by reflexivity;
    destruct (cursor_moves_back_only_on_mute h live later) as [A _]
  end.
  destruct (cursor_moves_back_only_on_mute [] speaking later) as [_ [[_ [_ [B _]]] _]].
  split; [exact H|]. split; [exact (A H)|exact B].
Defined.

(** C2, counterexample.  A fragment is playing (cursor at 2.5 s) when
    [disconnect()] is called: the entry stays in the active set, the cursor
    is not reset and nothing is signalled; muting at 2.25 s does all three. *)
Lemma disconnect_leaves_playback_scheduled :
  currentSources speaking = [6%nat] /\
  currentSources (state_of (disconnect speaking)) = [6%nat] /\
  currentSources (state_of (disconnect speaking)) <> [] /\
  Qred (nextStartTime (state_of (disconnect speaking))) = 5 # 2 /\
  existsb touches_playback (trace_of (disconnect speaking)) = false /\
  currentSources (state_of (setListening later false speaking)) = [] /\
  nextStartTime (state_of (setListening later false speaking)) = 9 # 4.
Proof.
  vm_compute. repeat split; discriminate.
Qed.

(** ** The transcript aggregator *)

Lemma spec_aggregate_app (events1 events2 : list TranscriptEvent) (input output : string) :
  spec_aggregate input output (events1 ++ events2)
  = let '(i1, o1, snaps1) := spec_aggregate input output events1 in
    let '(i2, o2, snaps2) := spec_aggregate i1 o1 events2 in
    (i2, o2, snaps1 ++ snaps2).
Proof.
  revert input output. induction events1 as [|e events1 IH]; intros input output.
  - cbn [app spec_aggregate]. destruct (spec_aggregate input output events2) as [[i o] s].
    reflexivity.
  - destruct e as [text|text|]; cbn [app spec_aggregate]; rewrite IH;
      match goal with |- context [spec_aggregate ?a ?b events1] =>
        destruct (spec_aggregate a b events1) as [[i1 o1] s1] end;
      match goal with |- context [spec_aggregate ?a ?b events2] =>
        destruct (spec_aggregate a b events2) as [[i2 o2] s2] end;
      reflexivity.
Qed.

(** What [onmessage] does to the transcript when it handles one message. *)
Lemma handle_transcription_aggregates (msg : LiveServerMessage) (this : LiveVoiceSession) :
  onTranscription this = true ->
  let r := handle_transcription (serverContent msg) this in
  outcome_of r = Ok tt /\
  (currentInputTranscription (state_of r), currentOutputTranscription (state_of r),
   snapshots (trace_of r))
  = spec_aggregate (currentInputTranscription this) (currentOutputTranscription this)
      (events_taken msg).
Proof.
  intros Hon. unfold events_taken.
  destruct this as [ic oc se ns cs mu cl ci co ot hp]. cbn in Hon. subst ot.
  destruct (serverContent msg) as [[[out|] [inp|] [|] data]|]; split; reflexivity.
Qed.

Lemma after_await_unreported (fc : FunctionCall) (settled : Outcome JsValue) :
  unreported (after_await fc settled).
Proof. unfold after_await. frame. Qed.

Lemma handle_audio_unreported (env : Env) (sc : option LiveServerContent) :
  unreported (handle_audio env sc).
Proof. unfold handle_audio, playAudioBuffer. frame. Qed.

Lemma handle_transcription_returns (sc : option LiveServerContent) (this : LiveVoiceSession) :
  outcome_of (handle_transcription sc this) = Ok tt.
Proof.
  unfold handle_transcription, report_transcription.
  destruct this as [ic oc se ns cs mu cl ci co [|] hp];
    destruct sc as [[[out|] [inp|] [|] data]|]; reflexivity.
Qed.

(** The arrival of a message, step by step: the transcript, then the
    audio. *)
Lemma perform_message (env : Env) (h : option ToolHandler) (msg : LiveServerMessage)
  (this : LiveVoiceSession) :
  let t := handle_transcription (serverContent msg) this in
  let a := handle_audio env (serverContent msg) (state_of t) in
  state_of (perform env (Message h msg) this) = state_of a /\
  trace_of (perform env (Message h msg) this) = trace_of t ++ trace_of a.
Proof.
  cbv zeta. cbn [perform]. unfold onmessage_arrival, bind, ret.
  pose proof (handle_transcription_returns (serverContent msg) this) as O.
  unfold outcome_of, state_of, trace_of in *.
  destruct (handle_transcription (serverContent msg) this) as [[o t] out].
  cbn [fst snd] in *. subst o.
  destruct (handle_audio env (serverContent msg) t) as [[[[]|e] s] out2];
    cbn [fst snd]; rewrite ?app_nil_r; split; reflexivity.
Qed.

(** One operation against the aggregator of the specification. *)
Lemma perform_aggregates (env : Env) (op : Operation) (this : LiveVoiceSession) :
  onTranscription this = true ->
  let r := perform env op this in
  onTranscription (state_of r) = true /\
  (currentInputTranscription (state_of r), currentOutputTranscription (state_of r),
   snapshots (trace_of r))
  = spec_aggregate (currentInputTranscription this) (currentOutputTranscription this)
      (events_of_operation op).
Proof.
  intros Hon. cbv zeta.
  assert (Quiet : forall m : M unit,
             preserves onTranscription m ->
             preserves currentInputTranscription m ->
             preserves currentOutputTranscription m ->
             unreported m ->
             onTranscription (state_of (m this)) = true /\
             (currentInputTranscription (state_of (m this)),
              currentOutputTranscription (state_of (m this)),
              snapshots (trace_of (m this)))
             = (currentInputTranscription this, currentOutputTranscription this, [])).
  { intros m P1 P2 P3 U. rewrite (P1 this), (P2 this), (P3 this), (U this).
    split; [exact Hon|reflexivity]. }
  destruct op as [g | b | text | d | | d | h msg | src | s k | fc r];
    cbn [events_of_operation spec_aggregate]; [| | | | | |
      destruct (perform_message env h msg this) as [S T]; cbv zeta in S, T;
      rewrite S, T | | |]; cbn [perform].
  - apply Quiet; try (apply connect_preserves; reflexivity).
    unfold connect. frame.
  - apply Quiet; try (apply setListening_preserves; reflexivity).
    unfold setListening, stopAudioOutput. frame.
  - apply Quiet; try apply sendText_preserves. unfold sendText. frame.
  - apply Quiet; try apply sendImage_preserves. unfold sendImage. frame.
  - apply Quiet; try (apply disconnect_preserves; reflexivity).
    unfold disconnect, run_cleanup. frame.
  - apply Quiet; try apply onaudioprocess_preserves. unfold onaudioprocess. frame.
  - destruct (handle_transcription_aggregates msg this Hon) as [O E]. cbv zeta in O, E.
    rewrite snapshots_app, (handle_audio_unreported env (serverContent msg)), app_nil_r.
    rewrite !handle_audio_preserves by reflexivity.
    split; [|exact E].
    rewrite handle_transcription_preserves by reflexivity. exact Hon.
  - apply Quiet; try (apply onended_preserves; reflexivity). unfold onended. frame.
  - apply Quiet; try apply react_preserves. unfold react, sendText. frame.
  - apply Quiet; try apply after_await_preserves. apply after_await_unreported.
Qed.

Lemma events_of_deliver (env : Env) (events : list TranscriptEvent) :
  events_of (deliver env events) = events.
Proof.
  induction events as [|e events IH]; [reflexivity|].
  unfold events_of, deliver in *. cbn [map flat_map snd]. rewrite IH.
  destruct e; reflexivity.
Qed.

Lemma run_aggregates (history : list (Env * Operation)) (this : LiveVoiceSession) :
  onTranscription this = true ->
  transcript_after history this
  = spec_aggregate (currentInputTranscription this) (currentOutputTranscription this)
      (events_of history).
Proof.
  revert this. induction history as [|[env op] rest IH]; intros this Hon.
  - reflexivity.
  - destruct (perform_aggregates env op this Hon) as [Hon1 E]. cbv zeta in Hon1, E.
    specialize (IH (state_of (perform env op this)) Hon1).
    unfold transcript_after in *. rewrite run_cons. cbn [fst snd].
    unfold events_of in *. cbn [flat_map snd].
    rewrite spec_aggregate_app, <- E, <- IH, snapshots_app. reflexivity.
Qed.

Lemma spec_aggregate_snapshots (events : list TranscriptEvent) (input output : string) :
  length (snd (spec_aggregate input output events)) = length events.
Proof.
  revert input output. induction events as [|e events IH]; intros input output.
  - reflexivity.
  - destruct e as [text|text|]; cbn [spec_aggregate];
      match goal with |- context [spec_aggregate ?a ?b events] =>
        specialize (IH a b); destruct (spec_aggregate a b events) as [[i o] s] end;
      cbn [snd length] in *; rewrite IH; reflexivity.
Qed.

Lemma spec_aggregate_resets (before : list TranscriptEvent) (input output : string) :
  fst (spec_aggregate input output (before ++ [TurnCompletion])) = (""%string, ""%string).
Proof.
  rewrite spec_aggregate_app.
  destruct (spec_aggregate input output before) as [[i o] s]. reflexivity.
Qed.

(** C8.  For every sequence of transcription events, each delivered as a
    message, the aggregator does what the specification says: every input
    fragment is appended to the input buffer and every output fragment to the
    output buffer, a non-final snapshot of both buffers is reported per
    fragment and a final one per turn completion, in arrival order and one
    per event, and after a turn completion both buffers are empty, so what
    arrives later starts from empty buffers. *)
Theorem transcript_follows_tagged_events (events : list TranscriptEvent) (env : Env)
  (this : LiveVoiceSession) :
  onTranscription this = true ->
  transcript_after (deliver env events) this
  = spec_aggregate (currentInputTranscription this) (currentOutputTranscription this)
      events /\
  length (snd (transcript_after (deliver env events) this)) = length events /\
  (forall before,
     fst (transcript_after (deliver env (before ++ [TurnCompletion])) this)
     = (""%string, ""%string)) /\
  (forall before after,
     transcript_after (deliver env (before ++ TurnCompletion :: after)) this
     = (let '(i, o, snaps) := spec_aggregate "" "" after in
        (i, o,
         snd (spec_aggregate (currentInputTranscription this)
                (currentOutputTranscription this) (before ++ [TurnCompletion]))
         ++ snaps))).
Proof.
  intros Hon.
  assert (R : forall evs,
             transcript_after (deliver env evs) this
             = spec_aggregate (currentInputTranscription this)
                 (currentOutputTranscription this) evs).
  { intros evs. rewrite (run_aggregates (deliver env evs) this Hon), events_of_deliver.
    reflexivity. }
  split; [apply R|]. split; [rewrite R; apply spec_aggregate_snapshots|].
  split.
  - intros before. rewrite R. apply spec_aggregate_resets.
  - intros before after. rewrite R.
    replace (before ++ TurnCompletion :: after)
      with ((before ++ [TurnCompletion]) ++ after)
      by (rewrite <- app_assoc; reflexivity).
    rewrite spec_aggregate_app.
    pose proof (spec_aggregate_resets before (currentInputTranscription this)
                  (currentOutputTranscription this)) as Z.
    destruct (spec_aggregate (currentInputTranscription this)
                (currentOutputTranscription this) (before ++ [TurnCompletion]))
      as [[i1 o1] s1].
    cbn [fst snd] in *. injection Z as -> ->. reflexivity.
Qed.

Lemma transcript_follows_tagged_events_witness :
  let events :=
    [InputFragment "red "; InputFragment "car"; OutputFragment "Nice!";
     TurnCompletion; InputFragment "more"] in
  onTranscription live = true /\
  transcript_after (deliver noon events) live
  = ("more"%string, ""%string,
     [mkSnapshot "red " "" false; mkSnapshot "red car" "" false;
      mkSnapshot "red car" "Nice!" false; mkSnapshot "red car" "Nice!" true;
      mkSnapshot "more" "" false]).
Proof.
  cbv zeta.
  assert (H : onTranscription live = true) by reflexivity.
  split; [exact H|].
  match goal with |- transcript_after (deliver _ ?evs) _ = _ =>
    rewrite (proj1 (transcript_follows_tagged_events evs noon live H))
  end.
  reflexivity.
Defined.

(** A message that carries both an output and an input fragment is not one
    tagged event: the [else if] of line 245 takes its output fragment only. *)
Remark message_with_both_fragments :
  onTranscription live = true /\
  transcript_after [(noon, Message None both_fragments)] live
  = ("", "Hello", [mkSnapshot "" "Hello" false])%string /\
  fst (fst (transcript_after [(noon, Message None both_fragments)] live)) <> "hi"%string /\
  fst (fst (spec_aggregate "" "" [OutputFragment "Hello"; InputFragment "hi"])) = "hi"%string /\
  fst (fst (spec_aggregate "" "" [InputFragment "hi"; OutputFragment "Hello"])) = "hi"%string.
Proof.
  split; [reflexivity|]. split; [reflexivity|]. split; [discriminate|].
  split; reflexivity.
Qed.

(** ** More on the codec *)

Lemma length_string_of_list_ascii (l : list ascii) :
  String.length (string_of_list_ascii l) = length l.
Proof. induction l as [|c l IH]; [reflexivity|]. cbn. rewrite IH. reflexivity. Qed.

Lemma length_list_ascii_of_string (s : string) :
  length (list_ascii_of_string s) = String.length s.
Proof. induction s as [|c s IH]; [reflexivity|]. cbn. rewrite IH. reflexivity. Qed.

Lemma btoa_groups_length (bs : list Z) :
  length (btoa_groups bs) = (4 * ((length bs + 2) / 3))%nat.
Proof.
  induction bs as [|a|a b|a b c l IH] using list_ind3; try reflexivity.
  cbn [btoa_groups length]. rewrite IH.
  replace (S (S (S (length l))) + 2)%nat with ((length l + 2) + 1 * 3)%nat by lia.
  rewrite Nat.div_add by discriminate. lia.
Qed.

(** X1.  The text-safe layer loses nothing: [base64ToUint8Array] gives back
    every byte array that [arrayBufferToBase64] encoded, and the encoding of
    [n] bytes has [4 * ceil(n / 3)] characters. *)
Theorem text_layer_round_trip (bytes : list Z) :
  Forall is_byte bytes ->
  base64ToUint8Array (arrayBufferToBase64 bytes) = Ok bytes /\
  String.length (arrayBufferToBase64 bytes) = (4 * ((length bytes + 2) / 3))%nat.
Proof.
  intros F. split; [apply base64_roundtrip; exact F|].
  unfold arrayBufferToBase64, btoa.
  rewrite length_string_of_list_ascii, btoa_groups_length, length_map.
  rewrite length_list_ascii_of_string, length_string_of_list_ascii, length_map.
  reflexivity.
Qed.

Lemma text_layer_round_trip_witness :
  Forall is_byte [255; 63; 0; 192]%Z /\
  arrayBufferToBase64 [255; 63; 0; 192]%Z = "/z8AwA=="%string /\
  base64ToUint8Array "/z8AwA==" = Ok [255; 63; 0; 192]%Z.
Proof.
  assert (F : Forall is_byte [255; 63; 0; 192]%Z)
    by (repeat constructor; unfold is_byte; lia).
  split; [exact F|]. split; [reflexivity|].
  exact (proj1 (text_layer_round_trip _ F)).
Defined.

Lemma ToInt16_Z_range (n : Z) : is_int16 (ToInt16_Z n).
Proof.
  unfold is_int16, ToInt16_Z.
  destruct (Z.leb_spec 32768 (n mod 65536)); Z.div_mod_to_equations; lia.
Qed.

Lemma list_ind2 (A : Type) (P : list A -> Prop) :
  P [] -> (forall a, P [a]) -> (forall a b l, P l -> P (a :: b :: l)) ->
  forall l, P l.
Proof.
  intros H0 H1 H2 l.
  enough (P l /\ forall a, P (a :: l)) by tauto.
  induction l as [|x l [IH0 IH1]]; split; auto.
Qed.

Lemma view_range (data : list Z) :
  forall vs, Int16Array_of_Uint8Array data = Ok vs -> Forall is_int16 vs.
Proof.
  induction data as [|a|a b l IH] using list_ind2; intros vs H.
  - injection H as <-. constructor.
  - discriminate.
  - cbn [Int16Array_of_Uint8Array] in H.
    destruct (Int16Array_of_Uint8Array l) as [ws|e]; [|discriminate].
    injection H as <-. constructor; [apply ToInt16_Z_range|apply IH; reflexivity].
Qed.

Lemma fill_channel_normalised (vs : list Z) :
  Forall is_int16 vs -> Forall normalised (fill_channel vs).
Proof.
  induction 1 as [|v vs Hv _ IH]; cbn [fill_channel map]; constructor; [|exact IH].
  unfold normalised, is_int16 in *.
  assert (inject_Z v / 32768 == inject_Z v * (1 # 32768)) as -> by field.
  assert (inject_Z (-32768) <= inject_Z v) by (rewrite <- Zle_Qle; lia).
  assert (inject_Z v <= inject_Z 32767) by (rewrite <- Zle_Qle; lia).
  change (inject_Z (-32768)) with (-32768) in *. change (inject_Z 32767) with 32767 in *.
  split; lra.
Qed.

(** X2.  [decodeAudioData] accepts exactly the byte arrays of even, non-zero
    length.  What it returns has one sample per two bytes, every sample in
    [-1, 1), at 24000 samples per second, so a chunk of [n] bytes plays for
    [n / 48000] seconds.  An odd length raises a [RangeError], an empty
    array a [NotSupportedError]; nothing else is raised. *)
Theorem decodeAudioData_accepts_even_chunks (data : list Z) :
  match decodeAudioData data with
  | Ok buffer =>
      data <> [] /\
      length data = (2 * length (channelData buffer))%nat /\
      sampleRate buffer = 24000%Z /\
      Forall normalised (channelData buffer) /\
      duration buffer == inject_Z (Z.of_nat (length data)) / 48000
  | Throw e =>
      (e = RangeError /\ Nat.Odd (length data)) \/
      (e = NotSupportedError /\ data = [])
  end.
Proof.
  unfold decodeAudioData. pose proof (view_length data) as L.
  pose proof (view_range data) as R.
  destruct (Int16Array_of_Uint8Array data) as [vs|e].
  - specialize (R vs eq_refl). destruct vs as [|v vs].
    + right. split; [reflexivity|]. destruct data; [reflexivity|discriminate L].
    + cbn [createBuffer length sampleRate].
      split; [intros ->; discriminate L|].
      cbn [channelData]. unfold fill_channel at 1. rewrite length_map.
      split; [exact L|]. split; [reflexivity|].
      split; [apply fill_channel_normalised; exact R|].
      unfold duration. cbn [channelData sampleRate].
      unfold fill_channel. rewrite length_map, L.
      rewrite Nat2Z.inj_mul, inject_Z_mult.
      change (inject_Z (Z.of_nat 2)) with 2. change (inject_Z 24000) with 24000.
      field.
  - left. exact L.
Qed.

Lemma clamp_cases (x : Q) :
  let c := Qmax (-1) (Qmin 1 x) in
  (x <= -1 /\ c == -1) \/ (-1 <= x <= 1 /\ c == x) \/ (1 <= x /\ c == 1).
Proof.
  cbv zeta.
  destruct (Q.min_spec 1 x) as [[H1 E1]|[H1 E1]];
    destruct (Q.max_spec (-1) (Qmin 1 x)) as [[H2 E2]|[H2 E2]];
    rewrite E2; rewrite E1 in *.
  - right. right. split; lra.
  - lra.
  - right. left. split; lra.
  - left. split; lra.
Qed.

Lemma scaled_cases (x : Q) :
  let c := Qmax (-1) (Qmin 1 x) in
  (c < 0 /\ scaled x = c * 32768) \/ (0 <= c /\ scaled x = c * 32767).
Proof.
  cbv zeta. unfold scaled. cbv zeta.
  destruct (Qltb (Qmax (-1) (Qmin 1 x)) 0) eqn:E.
  - left. split; [apply Qltb_lt; exact E|reflexivity].
  - right. split; [apply Qltb_ge; exact E|reflexivity].
Qed.

Lemma scaled_monotone (x y : Q) : x <= y -> scaled x <= scaled y.
Proof.
  intros H.
  destruct (clamp_cases x) as [[Hx Ex]|[[Hx Ex]|[Hx Ex]]];
    destruct (clamp_cases y) as [[Hy Ey]|[[Hy Ey]|[Hy Ey]]];
    destruct (scaled_cases x) as [[Sx ->]|[Sx ->]];
    destruct (scaled_cases y) as [[Sy ->]|[Sy ->]];
    cbv zeta in *; lra.
Qed.

Lemma js_truncate_monotone (x y : Q) : x <= y -> (js_truncate x <= js_truncate y)%Z.
Proof.
  intros H. unfold js_truncate.
  destruct (Qle_bool 0 x) eqn:Bx; destruct (Qle_bool 0 y) eqn:By.
  - apply Qfloor_resp_le. exact H.
  - apply Qle_bool_iff in Bx.
    assert (~ 0 <= y) by (intro P; apply Qle_bool_iff in P; congruence). lra.
  - apply Qle_bool_iff in By.
    assert (Nx : ~ 0 <= x) by (intro P; apply Qle_bool_iff in P; congruence).
    apply Z.le_trans with 0%Z.
    + rewrite <- (Qceiling_Z 0). apply Qceiling_resp_le. change (inject_Z 0) with 0. lra.
    + rewrite <- (Qfloor_Z 0). apply Qfloor_resp_le. exact By.
  - apply Qceiling_resp_le. exact H.
Qed.

Lemma js_truncate_comp (x y : Q) : x == y -> js_truncate x = js_truncate y.
Proof.
  intros E. apply Z.le_antisymm; apply js_truncate_monotone; lra.
Qed.

Lemma js_truncate_zero (v : Q) : js_truncate v = 0%Z <-> -1 < v /\ v < 1.
Proof.
  unfold js_truncate.
  pose proof (Qfloor_le v) as F1. pose proof (Qlt_floor v) as F2.
  pose proof (Qle_ceiling v) as C1. pose proof (Qceiling_lt v) as C2.
  rewrite inject_Z_plus in F2. change (inject_Z 1) with 1 in F2.
  unfold Z.sub in C2. rewrite inject_Z_plus in C2.
  change (inject_Z (Z.opp 1)) with (-1) in C2.
  destruct (Qle_bool 0 v) eqn:B.
  - apply Qle_bool_iff in B. split.
    + intros E. rewrite E in *. change (inject_Z 0) with 0 in *. lra.
    + intros [_ U]. apply Z.le_antisymm.
      * enough (Qfloor v < 1)%Z by lia. rewrite Zlt_Qlt. change (inject_Z 1) with 1. lra.
      * rewrite <- (Qfloor_Z 0). apply Qfloor_resp_le. exact B.
  - assert (N : v < 0).
    { apply Qnot_le_lt. intro P. apply Qle_bool_iff in P. congruence. }
    split.
    + intros E. rewrite E in *. change (inject_Z 0) with 0 in *. lra.
    + intros [L _]. apply Z.le_antisymm.
      * rewrite <- (Qceiling_Z 0). apply Qceiling_resp_le. change (inject_Z 0) with 0. lra.
      * enough (-1 < Qceiling v)%Z by lia. rewrite Zlt_Qlt.
        change (inject_Z (-1)) with (-1). lra.
Qed.

(** X3.  [floatTo16BitPCM] never reverses the order of two samples, it
    saturates (everything at or above 1 becomes 32767, everything at or
    below -1 becomes -32768), and it stores 0 exactly for the samples
    strictly between -1/32768 and 1/32767. *)
Theorem floatTo16BitPCM_monotone_saturating (s t : Q) :
  (s <= t -> (floatTo16BitPCM_at s <= floatTo16BitPCM_at t)%Z) /\
  (1 <= s -> floatTo16BitPCM_at s = 32767%Z) /\
  (s <= -1 -> floatTo16BitPCM_at s = (-32768)%Z) /\
  (floatTo16BitPCM_at s = 0%Z <-> - (1 # 32768) < s /\ s < 1 # 32767).
Proof.
  destruct (floatTo16BitPCM_at_trunc s) as [Es _].
  destruct (floatTo16BitPCM_at_trunc t) as [Et _].
  rewrite Es, Et. split; [|split; [|split]].
  - intros H. apply js_truncate_monotone, scaled_monotone. exact H.
  - intros H. rewrite (js_truncate_comp (scaled s) 32767); [reflexivity|].
    destruct (clamp_cases s) as [[Hx Ex]|[[Hx Ex]|[Hx Ex]]];
      destruct (scaled_cases s) as [[Sx ->]|[Sx ->]]; cbv zeta in *; lra.
  - intros H. rewrite (js_truncate_comp (scaled s) (-32768)); [reflexivity|].
    destruct (clamp_cases s) as [[Hx Ex]|[[Hx Ex]|[Hx Ex]]];
      destruct (scaled_cases s) as [[Sx ->]|[Sx ->]]; cbv zeta in *; lra.
  - rewrite js_truncate_zero.
    destruct (clamp_cases s) as [[Hx Ex]|[[Hx Ex]|[Hx Ex]]];
      destruct (scaled_cases s) as [[Sx ->]|[Sx ->]]; cbv zeta in *;
      split; intros [A B]; split; lra.
Qed.

Lemma floatTo16BitPCM_monotone_saturating_witness :
  (1 # 3 <= 1 # 2) /\
  (floatTo16BitPCM_at (1 # 3) <= floatTo16BitPCM_at (1 # 2))%Z /\
  1 <= 3 # 2 /\ floatTo16BitPCM_at (3 # 2) = 32767%Z.
Proof.
  assert (H1 : 1 # 3 <= 1 # 2) by discriminate.
  assert (H2 : 1 <= 3 # 2) by discriminate.
  split; [exact H1|].
  split; [exact (proj1 (floatTo16BitPCM_monotone_saturating (1 # 3) (1 # 2)) H1)|].
  split; [exact H2|].
  exact (proj1 (proj2 (floatTo16BitPCM_monotone_saturating (3 # 2) 0)) H2).
Defined.

(** X4.  Encoding what [decodeAudioData] produced does not give the
    integers back: a sample decoded from a 16-bit value [v] is stored again
    as [v] when [v <= 0] and as [v - 1] when [v > 0]. *)
Theorem reencoding_lowers_positive_samples (v : Z) :
  is_int16 v ->
  floatTo16BitPCM_at (inject_Z v / 32768) = (if (0 <? v)%Z then v - 1 else v)%Z.
Proof.
  intros Hv. unfold is_int16 in Hv.
  destruct (floatTo16BitPCM_at_trunc (inject_Z v / 32768)) as [-> _].
  assert (D : inject_Z v / 32768 == inject_Z v * (1 # 32768)) by field.
  assert (L : inject_Z (-32768) <= inject_Z v) by (rewrite <- Zle_Qle; lia).
  assert (U : inject_Z v <= inject_Z 32767) by (rewrite <- Zle_Qle; lia).
  change (inject_Z (-32768)) with (-32768) in L. change (inject_Z 32767) with 32767 in U.
  destruct (Z.ltb_spec 0 v) as [P|N].
  - assert (P' : inject_Z 0 < inject_Z v) by (rewrite <- Zlt_Qlt; exact P).
    change (inject_Z 0) with 0 in P'.
    assert (E : scaled (inject_Z v / 32768) == inject_Z v - inject_Z v * (1 # 32768)).
    { destruct (clamp_cases (inject_Z v / 32768)) as [[Hx Ex]|[[Hx Ex]|[Hx Ex]]];
        destruct (scaled_cases (inject_Z v / 32768)) as [[Sx ->]|[Sx ->]];
        cbv zeta in *; lra. }
    rewrite (js_truncate_comp _ _ E). unfold js_truncate.
    assert (Qle_bool 0 (inject_Z v - inject_Z v * (1 # 32768)) = true) as ->
      by (apply Qle_bool_iff; lra).
    pose proof (Qfloor_le (inject_Z v - inject_Z v * (1 # 32768))) as F1.
    pose proof (Qlt_floor (inject_Z v - inject_Z v * (1 # 32768))) as F2.
    set (n := Qfloor (inject_Z v - inject_Z v * (1 # 32768))) in *.
    rewrite inject_Z_plus in F2. change (inject_Z 1) with 1 in F2.
    assert (inject_Z n < inject_Z v) by lra.
    assert (inject_Z (v - 2) < inject_Z n).
    { unfold Z.sub. rewrite inject_Z_plus. change (inject_Z (Z.opp 2)) with (-2). lra. }
    rewrite <- Zlt_Qlt in *. lia.
  - assert (N' : inject_Z v <= inject_Z 0) by (rewrite <- Zle_Qle; exact N).
    change (inject_Z 0) with 0 in N'.
    assert (E : scaled (inject_Z v / 32768) == inject_Z v).
    { destruct (clamp_cases (inject_Z v / 32768)) as [[Hx Ex]|[[Hx Ex]|[Hx Ex]]];
        destruct (scaled_cases (inject_Z v / 32768)) as [[Sx ->]|[Sx ->]];
        cbv zeta in *; lra. }
    rewrite (js_truncate_comp _ _ E). unfold js_truncate.
    destruct (Qle_bool 0 (inject_Z v)); [apply Qfloor_Z|apply Qceiling_Z].
Qed.

Lemma reencoding_lowers_positive_samples_witness :
  is_int16 12345 /\ is_int16 (-12345) /\
  floatTo16BitPCM_at (inject_Z 12345 / 32768) = 12344%Z /\
  floatTo16BitPCM_at (inject_Z (-12345) / 32768) = (-12345)%Z.
Proof.
  assert (H1 : is_int16 12345) by (unfold is_int16; lia).
  assert (H2 : is_int16 (-12345)) by (unfold is_int16; lia).
  split; [exact H1|]. split; [exact H2|].
  split; [exact (reencoding_lowers_positive_samples 12345 H1)
         |exact (reencoding_lowers_positive_samples (-12345) H2)].
Defined.

(** ** More on the active set *)

(** The audio step of [onmessage] leaves the fields alone or is one call of
    the scheduler. *)
Lemma handle_audio_cases (env : Env) (sc : option LiveServerContent)
  (this : LiveVoiceSession) :
  (state_of (handle_audio env sc this) = this /\ trace_of (handle_audio env sc this) = []) \/
  (exists buffer,
     outputContext this <> None /\ sampleRate buffer = 24000%Z /\
     handle_audio env sc this = playAudioBuffer env buffer this).
Proof.
  unfold handle_audio, bind, get, lift.
  destruct sc as [c|]; [|left; split; reflexivity].
  destruct (outputContext this) as [oc|] eqn:Oc; [|left; split; reflexivity].
  destruct (modelTurnData c) as [[|ch d]|]; try (left; split; reflexivity).
  destruct (base64ToUint8Array (String ch d)) as [bytes|e]; [|left; split; reflexivity].
  destruct (decodeAudioData bytes) as [buffer|e] eqn:D; [|left; split; reflexivity].
  right. exists buffer. split; [congruence|]. split; [exact (decodeAudioData_rate _ _ D)|].
  cbn [fst snd app].
  destruct (playAudioBuffer env buffer this) as [[r s] out]. reflexivity.
Qed.

Lemma playAudioBuffer_fields (this : LiveVoiceSession) (env : Env) (buffer : AudioBuffer) :
  outputContext this <> None ->
  let r := playAudioBuffer env buffer this in
  currentSources (state_of r) = Set_add (heap this) (currentSources this) /\
  heap (state_of r) = S (heap this) /\
  nextStartTime (state_of r)
  = Qmax (nextStartTime this) (currentTime env) + duration buffer.
Proof.
  intros H. cbv zeta. rewrite (playAudioBuffer_step this env buffer H).
  destruct this; repeat split.
Qed.

Lemma Set_add_fresh (x : nat) (s : list nat) :
  Forall (fun y => (y < x)%nat) s -> Set_add x s = s ++ [x].
Proof.
  intros F. unfold Set_add.
  destruct (existsb (Nat.eqb x) s) eqn:E; [|reflexivity].
  apply existsb_exists in E. destruct E as [y [Hy Hxy]].
  apply Nat.eqb_eq in Hxy. subst y.
  rewrite Forall_forall in F. specialize (F x Hy). lia.
Qed.

Lemma well_formed_after_play (this : LiveVoiceSession) (env : Env) (buffer : AudioBuffer) :
  outputContext this <> None -> well_formed_set this ->
  well_formed_set (state_of (playAudioBuffer env buffer this)) /\
  currentSources (state_of (playAudioBuffer env buffer this))
  = currentSources this ++ [heap this].
Proof.
  intros Hc [N F].
  destruct (playAudioBuffer_fields this env buffer Hc) as [S [H _]]. cbv zeta in S, H.
  rewrite (Set_add_fresh _ _ F) in S.
  unfold well_formed_set. rewrite S, H. split; [split|reflexivity].
  - apply NoDup_app; [exact N|repeat constructor; intros []|].
    intros x Hx [<-|[]]. rewrite Forall_forall in F. specialize (F _ Hx). lia.
  - apply Forall_app. split.
    + eapply Forall_impl; [|exact F]. cbv beta. intros; lia.
    + repeat constructor.
Qed.

Lemma keeps_bind {A C} (I : LiveVoiceSession -> Prop) (m : M A) (k : A -> M C) :
  keeps I m -> (forall a, keeps I (k a)) -> keeps I (bind m k).
Proof.
  intros Hm Hk this H. specialize (Hm this H). unfold bind, state_of in *.
  destruct (m this) as [[[a|e] this1] out1]; cbn [fst snd] in *; [|exact Hm].
  specialize (Hk a this1 Hm). unfold state_of in Hk.
  destruct (k a this1) as [[r this2] out2]. exact Hk.
Qed.

Lemma keeps_sound_frame {A} (floor : nat) (m : M A) :
  preserves currentSources m -> preserves heap m -> keeps (sound_above floor) m.
Proof.
  intros P1 P2 this [[N F] H]. unfold sound_above, well_formed_set.
  rewrite (P1 this), (P2 this). repeat split; assumption.
Qed.

Lemma playAudioBuffer_keeps (floor : nat) (env : Env) (buffer : AudioBuffer) :
  keeps (sound_above floor) (playAudioBuffer env buffer).
Proof.
  intros this [W H]. destruct (outputContext this) as [oc|] eqn:Oc.
  - assert (Hc : outputContext this <> None) by congruence.
    destruct (well_formed_after_play this env buffer Hc W) as [W2 _].
    destruct (playAudioBuffer_fields this env buffer Hc) as [_ [H2 _]]. cbv zeta in H2.
    split; [exact W2|]. rewrite H2. lia.
  - rewrite (playAudioBuffer_without_context this env buffer Oc). split; assumption.
Qed.

Lemma handle_audio_keeps (floor : nat) (env : Env) (sc : option LiveServerContent) :
  keeps (sound_above floor) (handle_audio env sc).
Proof.
  intros this H.
  destruct (handle_audio_cases env sc this) as [[S _]|[buffer [_ [_ E]]]].
  - rewrite S. exact H.
  - rewrite E. apply playAudioBuffer_keeps. exact H.
Qed.

Lemma connect_keeps (floor : nat) (granted : bool) :
  keeps (sound_above floor) (connect granted).
Proof.
  intros this [[N F] H]. unfold sound_above, well_formed_set.
  rewrite (connect_preserves currentSources granted) by reflexivity.
  assert (heap this <= heap (state_of (connect granted this)))%nat
    by (destruct this, granted; cbn; lia).
  repeat split; [exact N| |lia].
  eapply Forall_impl; [|exact F]. cbv beta. intros; lia.
Qed.

Lemma onended_sources (source : nat) (this : LiveVoiceSession) :
  currentSources (state_of (onended source this)) = Set_delete source (currentSources this).
Proof.
  unfold onended, bind, get, modify, state_of. cbn [fst snd].
  destruct this; cbn -[Set_delete]. destruct (Set_delete source _); reflexivity.
Qed.

Lemma onended_keeps (floor : nat) (source : nat) : keeps (sound_above floor) (onended source).
Proof.
  intros this [[N F] H]. unfold sound_above, well_formed_set.
  assert (E : heap (state_of (onended source this)) = heap this)
    by (apply onended_preserves; reflexivity).
  rewrite onended_sources, E.
  unfold Set_delete. repeat split; [apply NoDup_filter; exact N| |exact H].
  apply Forall_forall. intros x Hx. apply filter_In in Hx.
  rewrite Forall_forall in F. apply F. apply Hx.
Qed.

Lemma perform_keeps (floor : nat) (env : Env) (op : Operation) :
  keeps (sound_above floor) (perform env op).
Proof.
  destruct op as [g | [|] | text | d | | d | h msg | src | s k | fc r]; cbn [perform].
  - apply connect_keeps.
  - apply keeps_sound_frame; unfold setListening; frame.
  - intros this [_ H]. unfold setListening, bind, modify. cbn [fst snd].
    rewrite stopAudioOutput_effect. unfold sound_above, well_formed_set, state_of.
    destruct this; cbn in *. repeat split; [constructor|constructor|exact H].
  - apply keeps_sound_frame; apply sendText_preserves.
  - apply keeps_sound_frame; apply sendImage_preserves.
  - apply keeps_sound_frame; apply disconnect_preserves; reflexivity.
  - apply keeps_sound_frame; apply onaudioprocess_preserves.
  - unfold onmessage_arrival.
    apply keeps_bind; [|intros _; apply keeps_sound_frame; apply preserves_ret].
    apply keeps_bind.
    + apply keeps_sound_frame; apply handle_transcription_preserves; reflexivity.
    + intros _. apply keeps_bind; [apply handle_audio_keeps|intros _].
      apply keeps_sound_frame; apply preserves_ret.
  - apply onended_keeps.
  - apply keeps_sound_frame; apply react_preserves.
  - apply keeps_sound_frame; apply after_await_preserves.
Qed.

Lemma run_keeps (floor : nat) (history : list (Env * Operation)) (this : LiveVoiceSession) :
  sound_above floor this -> sound_above floor (fst (run history this)).
Proof.
  revert this. induction history as [|[env op] rest IH]; intros this H; [exact H|].
  rewrite run_cons. cbn [fst]. apply IH. apply perform_keeps. exact H.
Qed.

(** X5.  The active set stays well formed over every history: it never
    holds a source twice and holds only sources that were created, the
    allocator never goes back, and a fragment scheduled on a well-formed
    session adds exactly one new entry at the end of the set. *)
Theorem active_set_stays_well_formed (history : list (Env * Operation))
  (this : LiveVoiceSession) (env : Env) (buffer : AudioBuffer) :
  well_formed_set this ->
  well_formed_set (fst (run history this)) /\
  (heap this <= heap (fst (run history this)))%nat /\
  (outputContext this <> None ->
   currentSources (state_of (playAudioBuffer env buffer this))
   = currentSources this ++ [heap this]).
Proof.
  intros W.
  destruct (run_keeps (heap this) history this (conj W (Nat.le_refl _))) as [W' H'].
  split; [exact W'|]. split; [exact H'|].
  intros Hc. apply (well_formed_after_play this env buffer Hc W).
Qed.

Lemma active_set_stays_well_formed_witness :
  well_formed_set fresh /\
  well_formed_set
    (fst (run [(noon, CallConnect true); (noon, CallSetListening true);
               (noon, CallDisconnect)] fresh)) /\
  currentSources (state_of (playAudioBuffer later half_second speaking)) = [6; 7]%nat.
Proof.
  assert (W : well_formed_set fresh) by (split; constructor).
  split; [exact W|].
  split; [exact (proj1 (active_set_stays_well_formed _ fresh noon half_second W))|].
  reflexivity.
Defined.

(** ** The speaking signal *)

Lemma onended_effect (source : nat) (this : LiveVoiceSession) :
  onended source this
  = (Ok tt, set_currentSources (Set_delete source (currentSources this)) this,
     match Set_delete source (currentSources this) with
     | [] => [AiSpeaking false]
     | _ => []
     end).
Proof.
  unfold onended, bind, get, modify, emit, ret. cbn [fst snd].
  destruct this; cbn -[Set_delete]. destruct (Set_delete source _); reflexivity.
Qed.

Lemma Set_delete_In (x y : nat) (s : list nat) :
  In y (Set_delete x s) <-> In y s /\ y <> x.
Proof.
  unfold Set_delete. rewrite filter_In, negb_true_iff, Nat.eqb_neq.
  split; intros [A B]; split; auto.
Qed.

Lemma completions_drain (env : Env) (sources : list nat) :
  NoDup sources -> sources <> [] ->
  forall this,
    (forall x, In x sources <-> In x (currentSources this)) ->
    currentSources (fst (run (completions env sources) this)) = [] /\
    snd (run (completions env sources) this) = [AiSpeaking false].
Proof.
  induction 1 as [|s rest Hs N IH]; intros Hne this Hin; [contradiction Hne; reflexivity|].
  unfold completions in *. cbn [map]. rewrite run_cons. cbn [perform fst snd].
  rewrite onended_effect. unfold state_of, trace_of. cbn [fst snd].
  set (this1 := set_currentSources _ this).
  assert (S1 : currentSources this1 = Set_delete s (currentSources this)) by reflexivity.
  assert (Hin1 : forall x, In x rest <-> In x (currentSources this1)).
  { intros x. rewrite S1, Set_delete_In, <- Hin. cbn [In]. split.
    - intros Hx. split; [right; exact Hx|]. intros ->. contradiction.
    - intros [[->|Hx] Hd]; [contradiction Hd; reflexivity|exact Hx]. }
  destruct rest as [|s' rest'].
  - assert (E : Set_delete s (currentSources this) = []).
    { destruct (Set_delete s (currentSources this)) as [|y l] eqn:E; [reflexivity|].
      pose proof (proj2 (Hin1 y)) as X. rewrite S1 in X. destruct (X (or_introl eq_refl)). }
    rewrite E. cbn [map run fst snd app]. split; [|reflexivity].
    rewrite S1. exact E.
  - destruct (Set_delete s (currentSources this)) as [|y l] eqn:E.
    + pose proof (proj1 (Hin1 s') (or_introl eq_refl)) as X. rewrite S1 in X.
      destruct X.
    + cbn [app]. apply IH; [discriminate|exact Hin1].
Qed.

(** X6.  When the scheduled sources complete, each once and in any order,
    "agent stopped speaking" is signalled exactly once, by the last
    completion, and the active set is then empty. *)
Theorem speaking_ends_with_last_completion (env : Env) (sources : list nat)
  (this : LiveVoiceSession) :
  NoDup sources -> sources <> [] ->
  (forall x, In x sources <-> In x (currentSources this)) ->
  currentSources (fst (run (completions env sources) this)) = [] /\
  snd (run (completions env sources) this) = [AiSpeaking false].
Proof.
  intros N Hne Hin. apply completions_drain; assumption.
Qed.

Lemma speaking_ends_with_last_completion_witness :
  let playing := state_of (play_all noon [half_second; half_second; half_second] live) in
  currentSources playing = [6; 7; 8]%nat /\
  NoDup [7; 6; 8]%nat /\
  snd (run (completions later [7; 6; 8]%nat) playing) = [AiSpeaking false].
Proof.
  cbv zeta.
  assert (N : NoDup [7; 6; 8]%nat).
  { repeat constructor; cbn; intuition discriminate. }
  assert (Hne : [7; 6; 8]%nat <> []) by discriminate.
  split; [reflexivity|]. split; [exact N|].
  refine (proj2 (speaking_ends_with_last_completion later [7; 6; 8]%nat _ N Hne _)).
  intros x. change (In x [7; 6; 8]%nat <-> In x [6; 7; 8]%nat). cbn. tauto.
Defined.

Lemma Set_delete_absent (x : nat) (s : list nat) : ~ In x s -> Set_delete x s = s.
Proof.
  intros H. unfold Set_delete. apply filter_all. apply Forall_forall.
  intros y Hy. apply negb_true_iff, Nat.eqb_neq. intros ->. contradiction.
Qed.

(** X7.  A completion that arrives for a source no longer in the active set
    (one cancelled by a mute) changes no field; it signals "agent stopped
    speaking" again when the set is empty and nothing when another source
    is still scheduled.  After a mute every such late completion therefore
    repeats the signal. *)
Theorem late_completion_changes_nothing (source : nat) (this : LiveVoiceSession)
  (env : Env) :
  ~ In source (currentSources this) ->
  onended source this
  = (Ok tt, this,
     match currentSources this with [] => [AiSpeaking false] | _ => [] end) /\
  (let muted := state_of (setListening env false this) in
   onended source muted = (Ok tt, muted, [AiSpeaking false])).
Proof.
  intros H. split.
  - rewrite onended_effect, (Set_delete_absent _ _ H). destruct this; reflexivity.
  - cbv zeta. rewrite onended_effect.
    assert (E : currentSources (state_of (setListening env false this)) = []).
    { unfold setListening, bind, modify. cbn [fst snd]. rewrite stopAudioOutput_effect.
      destruct this; reflexivity. }
    rewrite E. cbn [Set_delete filter].
    destruct (state_of (setListening env false this)); cbn in E; subst; reflexivity.
Qed.

Lemma late_completion_changes_nothing_witness :
  ~ In 9%nat (currentSources speaking) /\
  onended 9 speaking = (Ok tt, speaking, []) /\
  onended 6 (state_of (setListening later false speaking))
  = (Ok tt, state_of (setListening later false speaking), [AiSpeaking false]).
Proof.
  assert (H : ~ In 9%nat (currentSources speaking)).
  { cbn. intuition discriminate. }
  split; [exact H|].
  destruct (late_completion_changes_nothing 9 speaking later H) as [A _].
  destruct (late_completion_changes_nothing 6 (state_of (setListening later false speaking))
              later (fun F => F)) as [B _].
  split; [exact A|exact B].
Defined.

(** X8.  After a mute the scheduler starts afresh: a fragment that arrives
    at or after the clock reading of the mute starts at its own arrival
    time, whatever had been scheduled before, and is the only entry of the
    active set. *)
Theorem playback_restarts_at_arrival_after_mute (this : LiveVoiceSession)
  (muteTime arrival : Env) (buffer : AudioBuffer) :
  outputContext this <> None ->
  currentTime muteTime <= currentTime arrival ->
  let muted := state_of (setListening muteTime false this) in
  let r := playAudioBuffer arrival buffer muted in
  exists start,
    start == currentTime arrival /\
    trace_of r = [AiSpeaking true; SourceStart (heap this) buffer start] /\
    currentSources (state_of r) = [heap this] /\
    nextStartTime (state_of r) == currentTime arrival + duration buffer.
Proof.
  intros Hc Ht. cbv zeta.
  set (muted := state_of (setListening muteTime false this)).
  assert (M : muted = set_nextStartTime (currentTime muteTime)
                        (set_currentSources [] (set_isMuted true this))).
  { unfold muted, setListening, bind, modify. cbn [fst snd].
    rewrite stopAudioOutput_effect.
    destruct this as [ic [oc|] se ns cs mu cl ci co ot hp];
      [reflexivity|contradiction Hc; reflexivity]. }
  assert (Hc' : outputContext muted <> None) by (rewrite M; destruct this; exact Hc).
  rewrite (playAudioBuffer_step muted arrival buffer Hc'). cbv zeta.
  exists (Qmax (nextStartTime muted) (currentTime arrival)).
  assert (E : Qmax (nextStartTime muted) (currentTime arrival) == currentTime arrival).
  { apply Q.max_r. rewrite M. destruct this; exact Ht. }
  split; [exact E|]. split; [rewrite M; destruct this; reflexivity|].
  split; [rewrite M; destruct this; reflexivity|].
  change (Qmax (nextStartTime muted) (currentTime arrival) + duration buffer
          == currentTime arrival + duration buffer).
  rewrite E. reflexivity.
Qed.

Lemma playback_restarts_at_arrival_after_mute_witness :
  outputContext speaking <> None /\
  currentTime noon <= currentTime later /\
  currentSources
    (state_of (playAudioBuffer later half_second
                 (state_of (setListening noon false speaking)))) = [7%nat] /\
  windows (trace_of (playAudioBuffer later half_second
                       (state_of (setListening noon false speaking))))
  = [(9 # 4, duration half_second)].
Proof.
  assert (H1 : outputContext speaking <> None) by discriminate.
  assert (H3 : currentTime noon <= currentTime later) by discriminate.
  split; [exact H1|]. split; [exact H3|].
  destruct (playback_restarts_at_arrival_after_mute speaking noon later half_second
              H1 H3) as [start [_ [_ [S _]]]].
  split; [exact S|reflexivity].
Defined.

(** ** What the session never registers *)

Lemma serve_calls_registers_no_audio h calls :
  never_emits registers_audio (serve_calls h calls).
Proof.
  induction calls as [|fc calls IH]; cbn [serve_calls]; unfold after_await; quiet;
    exact IH.
Qed.

Lemma perform_registers_no_audio (env : Env) (op : Operation) :
  (forall d, op <> AudioProcess d) -> never_emits registers_audio (perform env op).
Proof.
  intros H. destruct op as [g | b | text | d | | d | h msg | src | s k | fc r];
    try (contradiction (H d); reflexivity);
    unfold_methods; quiet; apply serve_calls_registers_no_audio.
Qed.

Lemma perform_starts_nothing (env : Env) (op : Operation) :
  (forall h msg, op <> Message h msg) -> never_emits is_start (perform env op).
Proof.
  intros H. destruct op as [g | b | text | d | | d | h msg | src | s k | fc r];
    try (contradiction (H h msg); reflexivity);
    unfold_methods; unfold onaudioprocess; quiet.
Qed.

Lemma windows_without_start (out : list Effect) :
  existsb is_start out = false -> windows out = [].
Proof.
  induction out as [|e out IH]; [reflexivity|].
  destruct e; cbn [existsb is_start orb windows]; try exact IH. discriminate.
Qed.

Lemma windows_app (a b : list Effect) : windows (a ++ b) = windows a ++ windows b.
Proof.
  induction a as [|e a IH]; [reflexivity|].
  destruct e; cbn [app windows]; rewrite IH; reflexivity.
Qed.

Lemma isMuted_step (env : Env) (op : Operation) (this : LiveVoiceSession) :
  is_unmute op = false -> isMuted this = true ->
  isMuted (state_of (perform env op this)) = true.
Proof.
  intros Hop H.
  destruct op as [g | [|] | text | d | | d | h msg | src | s k | fc r]; cbn [perform];
    try discriminate Hop.
  - rewrite connect_preserves by reflexivity. exact H.
  - unfold setListening, bind, modify. cbn [fst snd]. rewrite stopAudioOutput_effect.
    destruct this; reflexivity.
  - rewrite sendText_preserves. exact H.
  - rewrite sendImage_preserves. exact H.
  - rewrite disconnect_preserves by reflexivity. exact H.
  - rewrite onaudioprocess_preserves. exact H.
  - rewrite onmessage_arrival_preserves by reflexivity. exact H.
  - rewrite onended_preserves by reflexivity. exact H.
  - rewrite react_preserves. exact H.
  - rewrite after_await_preserves. exact H.
Qed.

Lemma session_calls_app (a b : list Effect) :
  session_calls (a ++ b) = session_calls a ++ session_calls b.
Proof.
  induction a as [|e a IH]; [reflexivity|].
  destruct e; cbn [app session_calls]; rewrite IH; reflexivity.
Qed.

Lemma session_calls_none (out : list Effect) :
  existsb is_session_call out = false -> session_calls out = [].
Proof.
  induction out as [|e out IH]; [reflexivity|].
  destruct e; cbn [existsb is_session_call orb session_calls]; try exact IH. discriminate.
Qed.

(** Only the body of a reaction calls the session object. *)
Lemma perform_session_calls (env : Env) (op : Operation) (this : LiveVoiceSession) :
  session_calls (trace_of (perform env op this))
  = match op with
    | Fulfilled s k => reaction_calls s k
    | _ => []
    end.
Proof.
  assert (Q : forall m : M unit,
             never_emits is_session_call m -> session_calls (trace_of (m this)) = []).
  { intros m N. apply session_calls_none, N. }
  destruct op as [g | b | text | d | | d | h msg | src | s k | fc r];
    try (apply Q; unfold_methods; unfold onaudioprocess; quiet).
  destruct k as [text | d | d | fc r |]; cbn [perform reaction_calls];
    unfold react, sendText, bind, get, emit, ret, trace_of; cbn [fst snd];
    try destruct (hasSend s); try destruct (session this); reflexivity.
Qed.

Lemma run_session_calls (history : list (Env * Operation)) (this : LiveVoiceSession) :
  session_calls (snd (run history this)) = calls_fulfilled history.
Proof.
  revert this. induction history as [|[env op] rest IH]; intros this; [reflexivity|].
  rewrite run_cons. cbn [snd]. rewrite session_calls_app, perform_session_calls, IH.
  reflexivity.
Qed.

Lemma audio_chunks_fulfilled (history : list (Env * Operation)) :
  audio_chunks (calls_fulfilled history) = audio_fulfilled history.
Proof.
  induction history as [|[env op] rest IH]; [reflexivity|].
  unfold audio_chunks, calls_fulfilled, audio_fulfilled in *.
  cbn [flat_map snd]. rewrite flat_map_app, IH. f_equal.
  destruct op as [g | b | text | d | | d | h msg | src | s k | fc r]; try reflexivity.
  destruct k as [text | d | d | fc r |]; cbn [reaction_calls];
    try destruct (hasSend s); reflexivity.
Qed.

(** X9.  A muted session captures nothing: from a muted state, and a session
    is constructed muted, no history that does not unmute registers an audio
    chunk for sending, and the session is still muted at its end.  Muting
    does not recall what was registered before it: the reaction of lines
    212-219 reads no mute flag, so the audio that reaches the transport
    during such a history is exactly the chunks of the reactions that run in
    it, all of them registered before the history began. *)
Theorem muted_session_registers_no_audio (history : list (Env * Operation))
  (this : LiveVoiceSession) :
  isMuted this = true ->
  forallb (fun eo => negb (is_unmute (snd eo))) history = true ->
  existsb registers_audio (snd (run history this)) = false /\
  isMuted (fst (run history this)) = true /\
  audio_chunks (session_calls (snd (run history this))) = audio_fulfilled history.
Proof.
  intros Hm Hh.
  assert (G : existsb registers_audio (snd (run history this)) = false /\
              isMuted (fst (run history this)) = true).
  { revert this Hm Hh. induction history as [|[env op] rest IH]; intros this Hm Hh.
    - split; [reflexivity|exact Hm].
    - cbn [forallb snd] in Hh. apply andb_true_iff in Hh. destruct Hh as [Hop Hrest].
      apply negb_true_iff in Hop.
      rewrite run_cons. cbn [fst snd].
      destruct (IH (state_of (perform env op this))
                  (isMuted_step env op this Hop Hm) Hrest) as [A B].
      split; [|exact B]. rewrite existsb_app, A, orb_false_r.
      destruct op as [g | b | text | d | | d | h msg | src | s k | fc r];
        try (apply perform_registers_no_audio; discriminate).
      cbn [perform]. unfold onaudioprocess, bind, get, trace_of. cbn [fst snd].
      rewrite Hm. reflexivity. }
  destruct G as [A B]. split; [exact A|]. split; [exact B|].
  rewrite run_session_calls. apply audio_chunks_fulfilled.
Qed.

Lemma muted_session_registers_no_audio_witness :
  let history :=
    [(noon, AudioProcess [1 # 2; 1 # 3]);
     (noon, Fulfilled (mkSessionObject true) (OnSendAudio "/z8="));
     (later, AudioProcess [(1 # 4)])] in
  let muted := state_of (setListening noon false live) in
  isMuted muted = true /\
  forallb (fun eo => negb (is_unmute (snd eo))) history = true /\
  existsb registers_audio (snd (run history muted)) = false /\
  audio_chunks (session_calls (snd (run history muted))) = ["/z8="%string].
Proof.
  cbv zeta.
  assert (H1 : isMuted (state_of (setListening noon false live)) = true) by reflexivity.
  split; [exact H1|].
  match goal with |- forallb _ ?h = true /\ _ =>
    assert (H2 : forallb (fun eo => negb (is_unmute (snd eo))) h = true) by reflexivity;
    split; [exact H2|];
    destruct (muted_session_registers_no_audio h _ H1 H2) as [A [_ C]]
  end.
  split; [exact A|exact C].
Defined.

(** X10.  No fragment is ever started in the past or before the cursor:
    whatever the operation, a source it starts begins at or after the clock
    reading of that moment and at or after the cursor it found; and one
    operation starts at most one source. *)
Theorem starts_are_never_early (env : Env) (op : Operation) (this : LiveVoiceSession) :
  Forall (fun w => currentTime env <= fst w /\ nextStartTime this <= fst w)
    (windows (trace_of (perform env op this))) /\
  (length (windows (trace_of (perform env op this))) <= 1)%nat.
Proof.
  destruct op as [g | b | text | d | | d | h msg | src | s k | fc r];
    try (rewrite windows_without_start
           by (apply perform_starts_nothing; discriminate);
         split; [constructor|cbn; lia]).
  assert (T1 : windows (trace_of (handle_transcription (serverContent msg) this)) = []).
  { apply windows_without_start.
    assert (N : never_emits is_start (handle_transcription (serverContent msg)))
      by (unfold handle_transcription, report_transcription; quiet).
    apply N. }
  destruct (perform_message env h msg this) as [_ T]. cbv zeta in T.
  rewrite T, windows_app, T1. cbn [app].
  set (this1 := state_of (handle_transcription (serverContent msg) this)).
  assert (C1 : nextStartTime this1 = nextStartTime this)
    by (apply handle_transcription_preserves; reflexivity).
  destruct (handle_audio_cases env (serverContent msg) this1) as [[_ E]|[buffer [Hc [_ E]]]].
  - rewrite E. split; [constructor|cbn; lia].
  - rewrite E, (playAudioBuffer_step this1 env buffer Hc). cbv zeta.
    unfold trace_of. cbn [snd windows fst length]. split; [|lia].
    constructor; [|constructor]. cbn [fst]. rewrite C1.
    split; [apply Q.le_max_r|apply Q.le_max_l].
Qed.

(** ** Without a session handle *)

Lemma serve_calls_without_session (h : ToolHandler) (calls : list FunctionCall)
  (this : LiveVoiceSession) :
  session this = None ->
  serve_calls h calls this
  = (match calls with
     | [] => Ok tt
     | fc :: _ =>
         match h (fc_name fc) (fc_args fc) with
         | Ok _ => Throw TypeError
         | Throw e => Throw e
         end
     end, this, []).
Proof.
  intros H. destruct calls as [|fc rest]; [reflexivity|].
  cbn [serve_calls]. unfold after_await, bind, lift, get, throw.
  destruct (h (fc_name fc) (fc_args fc)); [rewrite H|]; reflexivity.
Qed.

Lemma perform_registers_no_send (env : Env) (op : Operation) (this : LiveVoiceSession) :
  is_successful_connect op = false -> session this = None ->
  existsb registers_send (trace_of (perform env op this)) = false.
Proof.
  intros Hop H.
  destruct op as [[|] | b | text | d | | d | h msg | src | s k | fc r]; cbn [perform].
  - discriminate Hop.
  - destruct this; reflexivity.
  - assert (N : never_emits registers_send (setListening env b))
      by (unfold setListening, stopAudioOutput; quiet).
    apply N.
  - unfold sendText, bind, get. rewrite H. reflexivity.
  - unfold sendImage, bind, get. rewrite H. reflexivity.
  - assert (N : never_emits registers_send disconnect)
      by (unfold disconnect, run_cleanup; quiet).
    apply N.
  - unfold onaudioprocess, bind, get. rewrite H. destruct (isMuted this); reflexivity.
  - assert (N : never_emits registers_send
                  (bind (onmessage_arrival env h msg) (fun _ => ret tt)))
      by (unfold onmessage_arrival, handle_transcription, report_transcription,
            handle_audio, playAudioBuffer; quiet).
    apply N.
  - assert (N : never_emits registers_send (onended src)) by (unfold onended; quiet).
    apply N.
  - destruct k as [text | d | d | fc r |]; unfold react, sendText, bind, get, emit;
      cbn [fst snd]; try rewrite H; try destruct (hasSend s); reflexivity.
  - unfold after_await, bind, lift, get, throw. destruct r; [rewrite H|]; reflexivity.
Qed.

(** X11.  Without a session handle nothing new is registered for sending:
    from a session whose handle is null, and until [connect] succeeds, no
    text, image, audio chunk or tool response is registered on a promise,
    whatever methods are called and whatever the platform delivers, and the
    handle stays null.  What was registered before the handle was cleared is
    not recalled: the calls that reach the transport during such a history
    are exactly those of the reactions that run in it, each registered
    before the history began (an image reaction that runs then sends its
    image and registers no nudge). *)
Theorem nothing_is_registered_without_a_handle (history : list (Env * Operation))
  (this : LiveVoiceSession) :
  session this = None ->
  forallb (fun eo => negb (is_successful_connect (snd eo))) history = true ->
  existsb registers_send (snd (run history this)) = false /\
  session (fst (run history this)) = None /\
  session_calls (snd (run history this)) = calls_fulfilled history.
Proof.
  intros H Hh. split; [|split].
  - revert this H Hh.
    induction history as [|[env op] rest IH]; intros this H Hh; [reflexivity|].
    cbn [forallb snd] in Hh. apply andb_true_iff in Hh. destruct Hh as [Hop Hrest].
    apply negb_true_iff in Hop.
    rewrite run_cons. cbn [snd]. rewrite existsb_app.
    rewrite (perform_registers_no_send env op this Hop H). cbn [orb].
    apply IH; [|exact Hrest]. apply session_absent_step; assumption.
  - apply session_absent_until_connected; assumption.
  - apply run_session_calls.
Qed.

Lemma nothing_is_registered_without_a_handle_witness :
  let history :=
    [(noon, CallSetListening true); (noon, AudioProcess [(1 # 2)]);
     (noon, CallSendText "hello"); (noon, Message (Some drawing_handler) (tool_request [draw_call]));
     (noon, Settled draw_call (Ok (JsString "Image drawn.")));
     (noon, Fulfilled (mkSessionObject true) (OnSendImage "AAAA"))] in
  session (state_of (disconnect live)) = None /\
  forallb (fun eo => negb (is_successful_connect (snd eo))) history = true /\
  existsb registers_send (snd (run history (state_of (disconnect live)))) = false /\
  session_calls (snd (run history (state_of (disconnect live))))
  = [SendRealtimeInput "image/jpeg" "AAAA"].
Proof.
  cbv zeta.
  assert (H1 : session (state_of (disconnect live)) = None) by reflexivity.
  split; [exact H1|].
  match goal with |- forallb _ ?h = true /\ _ =>
    assert (H2 : forallb (fun eo => negb (is_successful_connect (snd eo))) h = true)
      by reflexivity;
    split; [exact H2|];
    destruct (nothing_is_registered_without_a_handle h _ H1 H2) as [A [_ C]]
  end.
  split; [exact A|exact C].
Defined.

(** X12.  A tool call that arrives when the session handle is null (after
    [disconnect]) is never answered: the handler is awaited, and then the
    callback ends with a [TypeError], or with the handler's own exception,
    having registered nothing and changed nothing. *)
Theorem tool_call_after_disconnect_is_unanswered (this : LiveVoiceSession)
  (env : Env) (onToolCall : ToolHandler) (fc : FunctionCall)
  (rest : list FunctionCall) :
  session this = None ->
  onmessage env (Some onToolCall) (tool_request (fc :: rest)) this
  = (match onToolCall (fc_name fc) (fc_args fc) with
     | Ok _ => Throw TypeError
     | Throw e => Throw e
     end, this, []).
Proof.
  intros H. unfold onmessage, tool_request, handle_transcription, handle_audio,
    handle_tool_calls, bind, get, ret. cbn [serverContent toolCall].
  rewrite (serve_calls_without_session onToolCall (fc :: rest) this H). reflexivity.
Qed.

Lemma tool_call_after_disconnect_is_unanswered_witness :
  session (state_of (disconnect live)) = None /\
  onmessage noon (Some drawing_handler) (tool_request [draw_call])
    (state_of (disconnect live))
  = (Throw TypeError, state_of (disconnect live), []).
Proof.
  assert (H : session (state_of (disconnect live)) = None) by reflexivity.
  split; [exact H|].
  exact (tool_call_after_disconnect_is_unanswered _ noon drawing_handler draw_call [] H).
Defined.

(** ** Sending an image *)

(** X13.  [sendImage] delivers the image first and the nudge text after it:
    the image is sent when the session promise is fulfilled, and only then
    is the text registered, on the handle the session has at that moment.
    If the session was disconnected meanwhile the nudge is dropped, and a
    session object without a [send] method receives no text at all. *)
Theorem image_is_sent_before_its_nudge (this : LiveVoiceSession) (p : nat)
  (base64Data : string) (s : SessionObject) :
  session this = Some p ->
  sendImage base64Data this = (Ok tt, this, [PromiseThen p (OnSendImage base64Data)]) /\
  react s (OnSendImage base64Data) this
  = (Ok tt, this,
     [SessionCall (SendRealtimeInput "image/jpeg" base64Data);
      PromiseThen p (OnSendText image_nudge)]) /\
  react s (OnSendImage base64Data) (state_of (disconnect this))
  = (Ok tt, state_of (disconnect this),
     [SessionCall (SendRealtimeInput "image/jpeg" base64Data)]) /\
  session_calls
    (snd (run [(noon, CallSendImage base64Data);
               (noon, Fulfilled s (OnSendImage base64Data));
               (noon, Fulfilled s (OnSendText image_nudge))] this))
  = SendRealtimeInput "image/jpeg" base64Data
    :: (if hasSend s then [SendClientContent image_nudge] else []).
Proof.
  intros H.
  assert (D : session (state_of (disconnect this)) = None)
    by apply session_absent_after_disconnect.
  assert (A : sendImage base64Data this
              = (Ok tt, this, [PromiseThen p (OnSendImage base64Data)]))
    by (unfold sendImage, bind, get; rewrite H; reflexivity).
  assert (B : react s (OnSendImage base64Data) this
              = (Ok tt, this,
                 [SessionCall (SendRealtimeInput "image/jpeg" base64Data);
                  PromiseThen p (OnSendText image_nudge)]))
    by (unfold react, sendText, bind, get, emit; cbn [fst snd]; rewrite H; reflexivity).
  split; [exact A|]. split; [exact B|].
  split; [unfold react, sendText, bind, get, emit; cbn [fst snd]; rewrite D; reflexivity|].
  rewrite run_cons. cbn [perform fst snd]. rewrite A.
  unfold state_of, trace_of. cbn [fst snd].
  rewrite run_cons. cbn [perform fst snd]. rewrite B.
  unfold state_of, trace_of. cbn [fst snd].
  rewrite run_cons. cbn [perform run fst snd].
  unfold react, trace_of, emit, ret. destruct (hasSend s); reflexivity.
Qed.

Lemma image_is_sent_before_its_nudge_witness :
  session live = Some 5%nat /\
  session_calls
    (snd (run [(noon, CallSendImage "AAAA");
               (noon, Fulfilled (mkSessionObject true) (OnSendImage "AAAA"));
               (noon, Fulfilled (mkSessionObject true) (OnSendText image_nudge))] live))
  = [SendRealtimeInput "image/jpeg" "AAAA"; SendClientContent image_nudge].
Proof.
  assert (H : session live = Some 5%nat) by reflexivity.
  split; [exact H|].
  exact (proj2 (proj2 (proj2
    (image_is_sent_before_its_nudge live 5%nat "AAAA" (mkSessionObject true) H)))).
Defined.

(** ** Connecting *)

(** X14.  When the microphone is denied, [connect] reports it and stores
    neither a session handle nor a teardown closure, although both audio
    contexts were already created: a [disconnect] on such a session closes
    nothing, so the two contexts stay open. *)
Theorem microphone_denial_leaves_contexts_open (this : LiveVoiceSession) :
  cleanup this = None ->
  let denied := state_of (connect false this) in
  trace_of (connect false this) = [ErrorReport "Microphone access denied"] /\
  inputContext denied = Some (heap this) /\
  outputContext denied = Some (S (heap this)) /\
  session denied = session this /\
  cleanup denied = None /\
  trace_of (disconnect denied) = [].
Proof.
  intros H. cbv zeta.
  assert (C : cleanup (state_of (connect false this)) = None)
    by (destruct this; exact H).
  split; [destruct this; reflexivity|]. split; [destruct this; reflexivity|].
  split; [destruct this; reflexivity|]. split; [destruct this; reflexivity|].
  split; [exact C|]. rewrite (disconnect_never_connected _ C). reflexivity.
Qed.

Lemma microphone_denial_leaves_contexts_open_witness :
  cleanup fresh = None /\
  outputContext (state_of (connect false fresh)) = Some 1%nat /\
  trace_of (disconnect (state_of (connect false fresh))) = [].
Proof.
  assert (H : cleanup fresh = None) by reflexivity.
  split; [exact H|].
  destruct (microphone_denial_leaves_contexts_open fresh H) as [_ [_ [A [_ [_ B]]]]].
  split; [exact A|exact B].
Defined.

Lemma disconnects_trace (env : Env) (n : nat) (this : LiveVoiceSession)
  (c : CleanupClosure) (i o : nat) :
  cleanup this = Some c -> inputContext this = Some i -> outputContext this = Some o ->
  Forall (fun e => In e [NodeDisconnect (cl_source c); NodeDisconnect (cl_processor c);
                         TrackStop (cl_stream c); ContextClose i; ContextClose o;
                         PromiseThen (cl_sessionPromise c) OnClose])
    (snd (run (disconnects env n) this)).
Proof.
  intros Hc Hi Ho. revert this Hc Hi Ho.
  induction n as [|n IH]; intros this Hc Hi Ho; [constructor|].
  unfold disconnects in *. cbn [repeat]. rewrite run_cons. cbn [perform snd].
  rewrite (disconnect_connected this c i o Hc Hi Ho).
  unfold state_of, trace_of. cbn [fst snd]. apply Forall_app. split.
  - repeat constructor; cbn; tauto.
  - apply IH; assumption.
Qed.

(** X15.  A second successful [connect] replaces the teardown closure of
    the first: however often [disconnect] is then called, it tears down the
    second connection only.  The audio contexts, the microphone stream, the
    nodes and the transport of the first connection are never closed. *)
Theorem reconnect_orphans_first_connection (this : LiveVoiceSession) (env : Env)
  (n : nat) :
  let first := state_of (connect true this) in
  let second := state_of (connect true first) in
  let out := snd (run (disconnects env n) second) in
  cleanup first
  = Some (mkCleanup (3 + heap this) (4 + heap this) (2 + heap this) (5 + heap this)) /\
  trace_of (disconnect second)
  = [NodeDisconnect (9 + heap this); NodeDisconnect (10 + heap this);
     TrackStop (8 + heap this); ContextClose (6 + heap this);
     ContextClose (7 + heap this); PromiseThen (11 + heap this) OnClose] /\
  ~ In (ContextClose (heap this)) out /\
  ~ In (ContextClose (1 + heap this)) out /\
  ~ In (TrackStop (2 + heap this)) out /\
  ~ In (NodeDisconnect (3 + heap this)) out /\
  ~ In (NodeDisconnect (4 + heap this)) out /\
  ~ In (PromiseThen (5 + heap this) OnClose) out.
Proof.
  cbv zeta.
  set (second := state_of (connect true (state_of (connect true this)))).
  assert (Hc : cleanup second
               = Some (mkCleanup (9 + heap this) (10 + heap this) (8 + heap this)
                         (11 + heap this))) by (destruct this; reflexivity).
  assert (Hi : inputContext second = Some (6 + heap this)%nat) by (destruct this; reflexivity).
  assert (Ho : outputContext second = Some (7 + heap this)%nat) by (destruct this; reflexivity).
  split; [destruct this; reflexivity|].
  split; [rewrite (disconnect_connected second _ _ _ Hc Hi Ho); reflexivity|].
  pose proof (disconnects_trace env n second _ _ _ Hc Hi Ho) as F.
  rewrite Forall_forall in F. cbn [cl_source cl_processor cl_stream cl_sessionPromise] in F.
  repeat split; intros X; specialize (F _ X); cbn [In] in F;
    repeat (destruct F as [F|F];
            [first [discriminate F | injection F; intros; lia]|]); exact F.
Qed.

(** ** One message, several parts *)

Lemma onmessage_unfold (env : Env) (h : option ToolHandler) (msg : LiveServerMessage)
  (this : LiveVoiceSession) :
  let t := handle_transcription (serverContent msg) this in
  let a := handle_audio env (serverContent msg) (state_of t) in
  onmessage env h msg this
  = match outcome_of a with
    | Ok _ =>
        (outcome_of (handle_tool_calls h msg (state_of a)),
         state_of (handle_tool_calls h msg (state_of a)),
         trace_of t ++ trace_of a ++ trace_of (handle_tool_calls h msg (state_of a)))
    | Throw e => (Throw e, state_of a, trace_of t ++ trace_of a)
    end.
Proof.
  cbv zeta. pose proof (handle_transcription_returns (serverContent msg) this) as O.
  unfold onmessage, bind, outcome_of, state_of, trace_of in *.
  destruct (handle_transcription (serverContent msg) this) as [[o1 s1] out1].
  cbn [fst snd] in *. subst o1.
  destruct (handle_audio env (serverContent msg) s1) as [[[[]|e] s2] out2]; cbn [fst snd].
  - destruct (handle_tool_calls h msg s2) as [[o3 s3] out3]. reflexivity.
  - reflexivity.
Qed.

Lemma handle_audio_decodes (env : Env) (c : LiveServerContent) (audioData : string)
  (this : LiveVoiceSession) :
  modelTurnData c = Some audioData -> audioData <> ""%string ->
  outputContext this <> None ->
  handle_audio env (Some c) this
  = match decode audioData with
    | Ok buffer => playAudioBuffer env buffer this
    | Throw e => (Throw e, this, [])
    end.
Proof.
  intros Hd Hne Hc. unfold handle_audio, decode, bind, get, lift.
  destruct (outputContext this) as [oc|]; [|contradiction Hc; reflexivity].
  rewrite Hd. destruct audioData as [|ch rest]; [contradiction Hne; reflexivity|].
  destruct (base64ToUint8Array (String ch rest)) as [bytes|e]; [|reflexivity].
  destruct (decodeAudioData bytes) as [buffer|e]; [|reflexivity].
  cbn [fst snd app]. destruct (playAudioBuffer env buffer this) as [[r s] out]. reflexivity.
Qed.

(** X16.  Within one message the parts are served in a fixed order: the
    transcript is reported first, then the audio fragment is scheduled, and
    only then are the tool calls answered; so a fragment that shares a
    message with a tool call is started before any tool response is
    registered. *)
Theorem audio_is_scheduled_before_tool_responses (this : LiveVoiceSession) (env : Env)
  (onToolCall : ToolHandler) (msg : LiveServerMessage) (c : LiveServerContent)
  (audioData : string) (buffer : AudioBuffer) (functionCalls : list FunctionCall)
  (p : nat) :
  serverContent msg = Some c ->
  modelTurnData c = Some audioData -> audioData <> ""%string ->
  decode audioData = Ok buffer ->
  toolCall msg = Some functionCalls ->
  outputContext this <> None -> session this = Some p ->
  trace_of (onmessage env (Some onToolCall) msg this)
  = trace_of (handle_transcription (Some c) this)
    ++ [AiSpeaking true;
        SourceStart (heap this) buffer (Qmax (nextStartTime this) (currentTime env))]
    ++ answered onToolCall p functionCalls.
Proof.
  intros Hsc Hd Hne Hdec Htc Hc Hs.
  rewrite onmessage_unfold. cbv zeta. rewrite Hsc.
  set (this1 := state_of (handle_transcription (Some c) this)).
  assert (C1 : outputContext this1 <> None).
  { unfold this1. rewrite handle_transcription_preserves by reflexivity. exact Hc. }
  assert (N1 : nextStartTime this1 = nextStartTime this)
    by (apply handle_transcription_preserves; reflexivity).
  assert (H1 : heap this1 = heap this)
    by (apply handle_transcription_preserves; reflexivity).
  assert (S1 : session this1 = Some p).
  { unfold this1. rewrite handle_transcription_preserves by reflexivity. exact Hs. }
  rewrite (handle_audio_decodes env c audioData this1 Hd Hne C1), Hdec.
  rewrite (playAudioBuffer_step this1 env buffer C1). cbv zeta.
  unfold outcome_of at 1. cbn [fst snd].
  unfold state_of at 1, trace_of at 1 2 3. cbn [fst snd].
  set (this2 := set_currentSources _ _).
  assert (S2 : session this2 = Some p) by exact S1.
  unfold handle_tool_calls. rewrite Htc.
  destruct (serve_calls_answered onToolCall functionCalls this2 p S2) as [_ T].
  change (state_of (Ok tt, this2, ?o)) with this2.
  rewrite T, N1, H1. reflexivity.
Qed.

Lemma audio_is_scheduled_before_tool_responses_witness :
  let msg :=
    mkServerMessage (Some (mkServerContent (Some "Look!"%string) None false
                             (Some "AAAAAAAA"%string)))
      (Some [draw_call]) in
  decode "AAAAAAAA"
  = Ok (mkAudioBuffer [(0 # 32768); (0 # 32768); (0 # 32768)] 24000) /\
  outputContext live <> None /\ session live = Some 5%nat /\
  trace_of (onmessage noon (Some drawing_handler) msg live)
  = [TranscriptionReport "" "Look!" false; AiSpeaking true;
     SourceStart 6 (mkAudioBuffer [(0 # 32768); (0 # 32768); (0 # 32768)] 24000) 2;
     PromiseThen 5 (OnToolResponse draw_call (JsString "Image drawn."))].
Proof.
  cbv zeta.
  assert (H1 : decode "AAAAAAAA"
               = Ok (mkAudioBuffer [(0 # 32768); (0 # 32768); (0 # 32768)] 24000))
    by reflexivity.
  assert (H2 : outputContext live <> None) by discriminate.
  assert (H3 : session live = Some 5%nat) by reflexivity.
  assert (H4 : "AAAAAAAA"%string <> ""%string) by discriminate.
  split; [exact H1|]. split; [exact H2|]. split; [exact H3|].
  rewrite (audio_is_scheduled_before_tool_responses live noon drawing_handler
             (mkServerMessage
                (Some (mkServerContent (Some "Look!"%string) None false
                         (Some "AAAAAAAA"%string)))
                (Some [draw_call]))
             (mkServerContent (Some "Look!"%string) None false (Some "AAAAAAAA"%string))
             "AAAAAAAA" _ [draw_call] 5%nat eq_refl eq_refl H4 H1 eq_refl H2 H3).
  reflexivity.
Defined.

Lemma atob_error (base64 : string) (e : JsError) :
  atob base64 = Throw e -> e = InvalidCharacterError.
Proof.
  unfold atob.
  repeat match goal with
         | |- context [if ?b then _ else _] => destruct b
         | |- context [match sextets ?x with _ => _ end] => destruct (sextets x)
         end; intros H; try discriminate H; injection H as <-; reflexivity.
Qed.

Lemma decode_errors (chunk : string) (e : JsError) :
  decode chunk = Throw e ->
  e = InvalidCharacterError \/ e = RangeError \/ e = NotSupportedError.
Proof.
  unfold decode, base64ToUint8Array.
  destruct (atob chunk) as [binary|e'] eqn:A.
  - unfold decodeAudioData.
    set (data := map _ _).
    pose proof (view_length data) as V.
    destruct (Int16Array_of_Uint8Array data) as [vs|e''].
    + destruct vs as [|v vs]; cbn; intros H; [|discriminate H].
      injection H as <-. right. right. reflexivity.
    + intros H. injection H as <-. destruct V as [-> _]. right. left. reflexivity.
  - intros H. injection H as <-. left. apply (atob_error _ _ A).
Qed.

(** X17.  Whatever makes the audio of a message undecodable (text that is
    not base64, an odd number of bytes, no bytes at all), the callback ends
    with that error right after the transcript step: no source is started,
    and the tool calls carried by the same message are not answered.  The
    codec raises nothing but these three errors. *)
Theorem undecodable_audio_ends_the_callback (this : LiveVoiceSession) (env : Env)
  (onToolCall : option ToolHandler) (msg : LiveServerMessage)
  (c : LiveServerContent) (audioData : string) (e : JsError) :
  serverContent msg = Some c ->
  modelTurnData c = Some audioData -> audioData <> ""%string ->
  outputContext this <> None ->
  decode audioData = Throw e ->
  let t := handle_transcription (Some c) this in
  onmessage env onToolCall msg this = (Throw e, state_of t, trace_of t) /\
  windows (trace_of t) = [] /\
  responses (trace_of t) = [] /\
  (e = InvalidCharacterError \/ e = RangeError \/ e = NotSupportedError).
Proof.
  intros Hsc Hd Hne Hc Hdec. cbv zeta.
  rewrite onmessage_unfold. cbv zeta. rewrite Hsc.
  set (this1 := state_of (handle_transcription (Some c) this)).
  assert (C1 : outputContext this1 <> None).
  { unfold this1. rewrite handle_transcription_preserves by reflexivity. exact Hc. }
  rewrite (handle_audio_decodes env c audioData this1 Hd Hne C1), Hdec.
  unfold outcome_of at 1, state_of at 1, trace_of at 2. cbn [fst snd].
  rewrite app_nil_r. split; [reflexivity|].
  split; [|split; [|apply (decode_errors _ _ Hdec)]];
    unfold handle_transcription, report_transcription;
    destruct this as [ic oc se ns cs mu cl ci co [|] hp];
    destruct c as [[out|] [inp|] [|] data]; reflexivity.
Qed.

Lemma undecodable_audio_ends_the_callback_witness :
  let msg :=
    mkServerMessage (Some (mkServerContent None None false (Some "not base64!"%string)))
      (Some [draw_call]) in
  decode "not base64!" = Throw InvalidCharacterError /\
  outputContext live <> None /\
  onmessage noon (Some drawing_handler) msg live
  = (Throw InvalidCharacterError, live, []).
Proof.
  cbv zeta.
  assert (H1 : decode "not base64!" = Throw InvalidCharacterError) by reflexivity.
  assert (H2 : outputContext live <> None) by discriminate.
  assert (H3 : "not base64!"%string <> ""%string) by discriminate.
  split; [exact H1|]. split; [exact H2|].
  exact (proj1 (undecodable_audio_ends_the_callback live noon (Some drawing_handler)
                  (mkServerMessage
                     (Some (mkServerContent None None false (Some "not base64!"%string)))
                     (Some [draw_call]))
                  (mkServerContent None None false (Some "not base64!"%string))
                  "not base64!" _ eq_refl eq_refl H3 H2 H1)).
Defined.

Lemma outputContext_step (env : Env) (op : Operation) (this : LiveVoiceSession) :
  outputContext this <> None ->
  outputContext (state_of (perform env op this)) <> None.
Proof.
  intros H.
  destruct op as [g | b | text | d | | d | h msg | src | s k | fc r]; cbn [perform].
  - destruct this, g; discriminate.
  - rewrite setListening_preserves by reflexivity. exact H.
  - rewrite sendText_preserves. exact H.
  - rewrite sendImage_preserves. exact H.
  - rewrite disconnect_preserves by reflexivity. exact H.
  - rewrite onaudioprocess_preserves. exact H.
  - rewrite onmessage_arrival_preserves by reflexivity. exact H.
  - rewrite onended_preserves by reflexivity. exact H.
  - rewrite react_preserves. exact H.
  - rewrite after_await_preserves. exact H.
Qed.

Lemma run_keeps_output_context (history : list (Env * Operation))
  (this : LiveVoiceSession) :
  outputContext this <> None -> outputContext (fst (run history this)) <> None.
Proof.
  revert this. induction history as [|[env op] rest IH]; intros this H; [exact H|].
  rewrite run_cons. cbn [fst]. apply IH, outputContext_step, H.
Qed.

(** X18.  The output context is never reset.  [connect] assigns it before
    anything else, also when the microphone is then denied, and no
    operation, [disconnect] included, sets it back to null.  So in every
    state a message callback can run in, the [outputContext] test of the
    audio guard (line 258) holds: every decodable fragment is scheduled,
    after a [disconnect] too, when the context is closed. *)
Theorem output_context_is_never_reset (micGranted : bool) (start : Env)
  (history : list (Env * Operation)) (this : LiveVoiceSession) :
  let after := fst (run ((start, CallConnect micGranted) :: history) this) in
  outputContext after <> None /\
  outputContext (state_of (disconnect after)) = outputContext after /\
  forall (env : Env) (c : LiveServerContent) (audioData : string) (buffer : AudioBuffer),
    modelTurnData c = Some audioData -> audioData <> ""%string ->
    decode audioData = Ok buffer ->
    handle_audio env (Some c) after = playAudioBuffer env buffer after /\
    windows (trace_of (handle_audio env (Some c) after))
    = [(Qmax (nextStartTime after) (currentTime env), duration buffer)].
Proof.
  cbv zeta.
  assert (C : outputContext (fst (run ((start, CallConnect micGranted) :: history) this))
              <> None).
  { rewrite run_cons. cbn [fst]. apply run_keeps_output_context.
    cbn [perform]. destruct this, micGranted; discriminate. }
  split; [exact C|]. split; [apply disconnect_preserves; reflexivity|].
  intros env c audioData buffer Hd Hne Hb.
  rewrite (handle_audio_decodes env c audioData _ Hd Hne C), Hb.
  split; [reflexivity|].
  rewrite (playAudioBuffer_step _ env buffer C). reflexivity.
Qed.

Lemma output_context_is_never_reset_witness :
  let after :=
    fst (run [(noon, CallConnect false); (noon, CallDisconnect);
              (noon, CallSetListening false)] fresh) in
  let c := mkServerContent None None false (Some "AAAAAAAA"%string) in
  decode "AAAAAAAA" = Ok (mkAudioBuffer [0 # 32768; 0 # 32768; 0 # 32768] 24000) /\
  outputContext after = Some 1%nat /\
  windows (trace_of (handle_audio later (Some c) after))
  = [(Qmax 2 (9 # 4), duration (mkAudioBuffer [0 # 32768; 0 # 32768; 0 # 32768] 24000))].
Proof.
  cbv zeta.
  assert (D : decode "AAAAAAAA" = Ok (mkAudioBuffer [0 # 32768; 0 # 32768; 0 # 32768] 24000)) by reflexivity.
  assert (N : "AAAAAAAA"%string <> ""%string) by discriminate.
  split; [exact D|]. split; [reflexivity|].
  destruct (output_context_is_never_reset false noon
              [(noon, CallDisconnect); (noon, CallSetListening false)] fresh)
    as [_ [_ A]].
  exact (proj2 (A later (mkServerContent None None false (Some "AAAAAAAA"%string))
                  "AAAAAAAA"%string (mkAudioBuffer [0 # 32768; 0 # 32768; 0 # 32768] 24000) eq_refl N D)).
Defined.

(** ** The transcript without an observer *)

Lemma handle_transcription_buffers (msg : LiveServerMessage) (this : LiveVoiceSession) :
  let r := handle_transcription (serverContent msg) this in
  let spec := spec_aggregate (currentInputTranscription this)
                (currentOutputTranscription this) (events_taken msg) in
  (currentInputTranscription (state_of r), currentOutputTranscription (state_of r))
  = fst spec /\
  snapshots (trace_of r) = (if onTranscription this then snd spec else []).
Proof.
  unfold events_taken.
  destruct this as [ic oc se ns cs mu cl ci co [|] hp];
    destruct (serverContent msg) as [[[out|] [inp|] [|] data]|]; split; reflexivity.
Qed.

Lemma perform_buffers (env : Env) (op : Operation) (this : LiveVoiceSession) :
  let r := perform env op this in
  let spec := spec_aggregate (currentInputTranscription this)
                (currentOutputTranscription this) (events_of_operation op) in
  onTranscription (state_of r) = onTranscription this /\
  (currentInputTranscription (state_of r), currentOutputTranscription (state_of r))
  = fst spec /\
  snapshots (trace_of r) = (if onTranscription this then snd spec else []).
Proof.
  cbv zeta.
  assert (Quiet : forall m : M unit,
             preserves onTranscription m ->
             preserves currentInputTranscription m ->
             preserves currentOutputTranscription m ->
             unreported m ->
             onTranscription (state_of (m this)) = onTranscription this /\
             (currentInputTranscription (state_of (m this)),
              currentOutputTranscription (state_of (m this)))
             = (currentInputTranscription this, currentOutputTranscription this) /\
             snapshots (trace_of (m this)) = (if onTranscription this then [] else [])).
  { intros m P1 P2 P3 U. rewrite (P1 this), (P2 this), (P3 this), (U this).
    destruct (onTranscription this); repeat split. }
  destruct op as [g | b | text | d | | d | h msg | src | s k | fc r];
    cbn [events_of_operation spec_aggregate fst snd]; [| | | | | |
      destruct (perform_message env h msg this) as [S T]; cbv zeta in S, T;
      rewrite S, T | | |]; cbn [perform].
  - apply Quiet; try (apply connect_preserves; reflexivity).
    unfold connect. frame.
  - apply Quiet; try (apply setListening_preserves; reflexivity).
    unfold setListening, stopAudioOutput. frame.
  - apply Quiet; try apply sendText_preserves. unfold sendText. frame.
  - apply Quiet; try apply sendImage_preserves. unfold sendImage. frame.
  - apply Quiet; try (apply disconnect_preserves; reflexivity).
    unfold disconnect, run_cleanup. frame.
  - apply Quiet; try apply onaudioprocess_preserves. unfold onaudioprocess. frame.
  - destruct (handle_transcription_buffers msg this) as [E1 E2]. cbv zeta in E1, E2.
    rewrite snapshots_app, (handle_audio_unreported env (serverContent msg)), app_nil_r.
    rewrite !handle_audio_preserves by reflexivity.
    split; [apply handle_transcription_preserves; reflexivity|].
    split; [exact E1|exact E2].
  - apply Quiet; try (apply onended_preserves; reflexivity). unfold onended. frame.
  - apply Quiet; try apply react_preserves. unfold react, sendText. frame.
  - apply Quiet; try apply after_await_preserves. apply after_await_unreported.
Qed.

(** X19.  The transcript buffers do not depend on the observer: with or
    without an [onTranscription] callback they hold, after any history, what
    the aggregator of the specification holds for the events taken; the
    snapshots are reported when the callback was given and not at all when
    it was not (the case of ChatTab). *)
Theorem transcript_buffers_ignore_observer (history : list (Env * Operation))
  (this : LiveVoiceSession) :
  let spec := spec_aggregate (currentInputTranscription this)
                (currentOutputTranscription this) (events_of history) in
  (currentInputTranscription (fst (run history this)),
   currentOutputTranscription (fst (run history this))) = fst spec /\
  snapshots (snd (run history this)) = (if onTranscription this then snd spec else []).
Proof.
  revert this. induction history as [|[env op] rest IH]; intros this; cbv zeta.
  - cbn. destruct (onTranscription this); split; reflexivity.
  - destruct (perform_buffers env op this) as [O [E1 E2]]. cbv zeta in O, E1, E2.
    specialize (IH (state_of (perform env op this))). cbv zeta in IH.
    destruct IH as [I1 I2]. rewrite O in I2.
    rewrite run_cons. cbn [fst snd]. unfold events_of in *. cbn [flat_map snd].
    rewrite spec_aggregate_app, snapshots_app, I1, E2, I2.
    destruct (spec_aggregate (currentInputTranscription this)
                (currentOutputTranscription this) (events_of_operation op))
      as [[i1 o1] s1] eqn:Sp1.
    cbn [fst snd] in E1. injection E1 as -> ->.
    destruct (spec_aggregate i1 o1 _) as [[i2 o2] s2].
    cbn [fst snd]. destruct (onTranscription this); split; reflexivity.
Qed.

Lemma string_append_empty (s : string) : (s ++ "")%string = s.
Proof. induction s as [|c s IH]; [reflexivity|]. cbn. rewrite IH. reflexivity. Qed.

(** X20.  The transcript buffers are never partially cleared: one operation
    either appends to them (possibly nothing) or empties both. *)
Theorem transcript_is_appended_or_reset (env : Env) (op : Operation)
  (this : LiveVoiceSession) :
  appended_or_reset this (state_of (perform env op this)).
Proof.
  destruct (perform_buffers env op this) as [_ [E _]]. cbv zeta in E.
  unfold appended_or_reset.
  destruct op as [g | b | text | d | | d | h msg | src | s k | fc r];
    cbn [perform] in *;
    try (cbn [events_of_operation spec_aggregate fst] in E; injection E as E1 E2;
         rewrite E1, E2; left; exists ""%string, ""%string; rewrite !string_append_empty;
         split; reflexivity).
  cbn [events_of_operation] in E. unfold events_taken in E.
  destruct (serverContent msg) as [[[out|] [inp|] [|] data]|];
    cbn in E; injection E as E1 E2; rewrite E1, E2;
    first [ right; split; reflexivity
          | left; eexists; eexists; split; [reflexivity|];
            symmetry; apply string_append_empty
          | left; eexists; eexists; split; [|reflexivity];
            symmetry; apply string_append_empty
          | left; exists ""%string, ""%string; rewrite !string_append_empty;
            split; reflexivity ].
Qed.

(** ** The callers *)

(** X21.  DrawTab ends its mount in the state 'listening' whether or not
    the microphone was granted: [connect] catches the denial and resolves, so
    the component reports 'connecting', 'error' and then 'listening', unmutes
    a session that has no handle, and the greeting is never sent.  With the
    microphone granted it reports 'connecting' then 'listening' and registers
    the greeting, once, on the session promise. *)
Theorem DrawTab_mount_always_ends_listening (env : Env) :
  (let '(this, out, states) := DrawTab_mount env true in
   states = [Connecting; Listening] /\
   isMuted this = false /\ session this = Some 5%nat /\
   filter registers_send out = [PromiseThen 5 (OnSendText DrawTab_greeting)]) /\
  (let '(this, out, states) := DrawTab_mount env false in
   states = [Connecting; VoiceError; Listening] /\
   isMuted this = false /\ session this = None /\
   filter registers_send out = [] /\
   forall inputData, onaudioprocess inputData this = (Ok tt, this, [])).
Proof.
  destruct env as [now [|] [|]]; split; cbn; repeat split.
Qed.

Lemma DrawTab_onToolCall_returns (drawImage : JsValue -> Outcome string)
  (fc : FunctionCall) :
  returns (DrawTab_onToolCall drawImage) fc.
Proof.
  unfold returns, DrawTab_onToolCall.
  destruct (String.eqb (fc_name fc) "draw_kid_image"); [|eexists; reflexivity].
  destruct (drawImage (fc_args fc)); eexists; reflexivity.
Qed.

(** X22.  The tool handler DrawTab injects never rejects: its promise is
    fulfilled with 'Image drawn…' when the image service returns, with
    'Failed to draw…' when it throws, and with [undefined] for any other
    tool name.  So a call is answered exactly when the session still has
    its handle at the moment the promise settles: over a request during
    which nothing disconnects or reconnects the session every call gets its
    response, correlated by id and name; when the component unmounts while
    the image is drawn, its [disconnect] clears the handle and the
    resumption ends with a [TypeError], the call unanswered. *)
Theorem DrawTab_handler_never_rejects (drawImage : JsValue -> Outcome string)
  (this : LiveVoiceSession) (env : Env)
  (calls : list (list (Env * Operation) * FunctionCall)) (p : nat) :
  let handler := DrawTab_onToolCall drawImage in
  (forall name args,
     handler name args = Ok (JsString image_drawn) \/
     handler name args = Ok (JsString failed_to_draw) \/
     handler name args = Ok JsUndefined) /\
  (forall fc t, exists result,
     handler (fc_name fc) (fc_args fc) = Ok result /\
     after_await fc (handler (fc_name fc) (fc_args fc)) t
     = match session t with
       | Some q => (Ok tt, t, [PromiseThen q (OnToolResponse fc result)])
       | None => (Throw TypeError, t, [])
       end) /\
  (session this = Some p -> undisturbed calls = true ->
   responses (snd (run (served env handler calls) this))
   = map correlation (map snd calls)) /\
  (forall fc rest,
     let arrived :=
       state_of (perform env (Message (Some handler) (tool_request (fc :: rest))) this) in
     let unmounted := state_of (disconnect arrived) in
     onmessage_arrival env (Some handler) (tool_request (fc :: rest)) this
     = (Ok (fc :: rest), this, []) /\
     perform env (Settled fc (handler (fc_name fc) (fc_args fc))) unmounted
     = (Throw TypeError, unmounted, [])).
Proof.
  cbv zeta. set (handler := DrawTab_onToolCall drawImage).
  assert (R : forall fc, returns handler fc) by (intros fc; apply DrawTab_onToolCall_returns).
  split; [|split; [|split]].
  - intros name args. unfold handler, DrawTab_onToolCall.
    destruct (String.eqb name "draw_kid_image"); [|right; right; reflexivity].
    destruct (drawImage args); [left|right; left]; reflexivity.
  - intros fc t. destruct (R fc) as [result Hr]. exists result.
    split; [exact Hr|]. rewrite after_await_cases, Hr.
    destruct (session t); reflexivity.
  - intros Hs U.
    assert (F : Forall (fun c => returns handler (snd c)) calls)
      by (apply Forall_forall; intros c _; apply R).
    destruct (served_answers env handler calls this p Hs F U) as [_ T].
    rewrite <- responses_filter, T. apply responses_answered.
    apply Forall_map. exact F.
  - intros fc rest.
    assert (A : onmessage_arrival env (Some handler) (tool_request (fc :: rest)) this
                = (Ok (fc :: rest), this, [])) by reflexivity.
    split; [exact A|].
    cbn [perform]. rewrite after_await_cases.
    destruct (R fc) as [result ->].
    rewrite session_absent_after_disconnect. reflexivity.
Qed.

Lemma DrawTab_handler_never_rejects_witness :
  let handler := DrawTab_onToolCall (fun _ => Throw (HandlerError "No image generated")) in
  let calls := [([(noon, CallSetListening false)], draw_call)] in
  session live = Some 5%nat /\
  undisturbed calls = true /\
  responses (snd (run (served noon handler calls) live)) = [correlation draw_call] /\
  responses (snd (run [(noon, Message (Some handler) (tool_request [draw_call]));
                       (noon, CallDisconnect);
                       (noon, Settled draw_call (Ok (JsString failed_to_draw)))] live))
  = [].
Proof.
  cbv zeta.
  assert (H : session live = Some 5%nat) by reflexivity.
  split; [exact H|].
  match goal with |- undisturbed ?calls = true /\ _ =>
    assert (U : undisturbed calls = true) by reflexivity;
    split; [exact U|];
    split; [exact (proj1 (proj2 (proj2
              (DrawTab_handler_never_rejects
                 (fun _ => Throw (HandlerError "No image generated")) live noon calls 5%nat)))
              H U)
           |reflexivity]
  end.
Defined.

Lemma platform_callback_keeps_mute (env : Env) (op : Operation) (this : LiveVoiceSession) :
  is_platform_callback op = true ->
  isMuted (state_of (perform env op this)) = isMuted this.
Proof.
  intros H. destruct op as [g | b | text | d | | d | h msg | src | s k | fc r];
    try discriminate H; cbn [perform].
  - apply onaudioprocess_preserves.
  - apply onmessage_arrival_preserves; reflexivity.
  - apply onended_preserves; reflexivity.
  - apply react_preserves.
  - apply after_await_preserves.
Qed.

Lemma setListening_sets_mute (env : Env) (b : bool) (this : LiveVoiceSession) :
  isMuted (state_of (setListening env b this)) = negb b.
Proof.
  destruct b.
  - unfold setListening, bind, modify, get, emit, state_of. destruct this; reflexivity.
  - unfold setListening, bind, modify. cbn [fst snd]. rewrite stopAudioOutput_effect.
    destruct this; reflexivity.
Qed.

(** X23.  ChatTab's indicator agrees with the session: from the mount on,
    over any sequence of toggles and of callbacks of the platform, the
    session is muted exactly when [isSessionActive] is false, so the tab
    starts muted and audio is captured only while it shows as active. *)
Theorem ChatTab_indicator_matches_mute (env : Env) (micGranted : bool)
  (events : list (Env * ChatEvent)) :
  forallb is_chat_event events = true ->
  let tab := fold_left chat_step events (ChatTab_mount env micGranted) in
  isReady tab = true /\
  isMuted (sessionRef tab) = negb (isSessionActive tab) /\
  (isSessionActive tab = false ->
   forall inputData,
     onaudioprocess inputData (sessionRef tab) = (Ok tt, sessionRef tab, [])).
Proof.
  intros He. cbv zeta.
  assert (G : forall evs tab,
             forallb is_chat_event evs = true ->
             isReady tab = true /\ isMuted (sessionRef tab) = negb (isSessionActive tab) ->
             isReady (fold_left chat_step evs tab) = true /\
             isMuted (sessionRef (fold_left chat_step evs tab))
             = negb (isSessionActive (fold_left chat_step evs tab))).
  { induction evs as [|[e ev] evs IH]; intros tab Hevs [R I]; [split; assumption|].
    cbn [forallb] in Hevs. apply andb_true_iff in Hevs. destruct Hevs as [Hev Hevs].
    cbn [fold_left]. apply IH; [exact Hevs|].
    unfold chat_step, is_chat_event in *. cbn [fst snd] in *.
    destruct ev as [|op].
    - unfold toggleSession. rewrite R. cbn [negb isReady isSessionActive sessionRef].
      split; [reflexivity|apply setListening_sets_mute].
    - cbn [isReady isSessionActive sessionRef]. split; [exact R|].
      rewrite (platform_callback_keeps_mute e op _ Hev). exact I. }
  assert (M : isReady (ChatTab_mount env micGranted) = true /\
              isMuted (sessionRef (ChatTab_mount env micGranted))
              = negb (isSessionActive (ChatTab_mount env micGranted))).
  { unfold ChatTab_mount. cbn [isReady isSessionActive sessionRef].
    split; [reflexivity|apply setListening_sets_mute]. }
  destruct (G events _ He M) as [R I].
  split; [exact R|]. split; [exact I|].
  intros Ha inputData. rewrite Ha in I. cbn [negb] in I.
  unfold onaudioprocess, bind, get. rewrite I. reflexivity.
Qed.

Lemma ChatTab_indicator_matches_mute_witness :
  let events :=
    [(noon, Toggle); (noon, Callback (AudioProcess [(1 # 2)])); (later, Toggle)] in
  forallb is_chat_event events = true /\
  isMuted (sessionRef (fold_left chat_step events (ChatTab_mount noon true))) = true.
Proof.
  cbv zeta.
  match goal with |- forallb _ ?evs = true /\ _ =>
    assert (H : forallb is_chat_event evs = true) by reflexivity;
    split; [exact H|];
    rewrite (proj1 (proj2 (ChatTab_indicator_matches_mute noon true evs H)))
  end.
  reflexivity.
Defined.

(** ** What the capture callback puts on the wire *)

Lemma view_size (pcm16 : list Z) :
  length (Uint8Array_of_Int16Array pcm16) = (2 * length pcm16)%nat.
Proof. induction pcm16 as [|v rest IH]; [reflexivity|]. cbn [Uint8Array_of_Int16Array length]. lia. Qed.

(** X24.  The chunk the capture callback sends is always well formed: it
    decodes to two bytes per sample of the frame, the little-endian bytes of
    the 16-bit values, and it is [4 * ceil(2n / 3)] characters long for a
    frame of [n] samples (10924 characters for the 4096 samples of one
    callback). *)
Theorem capture_chunk_is_well_formed (inputData : list Q) :
  base64ToUint8Array (encode inputData)
  = Ok (Uint8Array_of_Int16Array (floatTo16BitPCM inputData)) /\
  length (Uint8Array_of_Int16Array (floatTo16BitPCM inputData))
  = (2 * length inputData)%nat /\
  String.length (encode inputData) = (4 * ((2 * length inputData + 2) / 3))%nat /\
  (length inputData = 4096%nat -> String.length (encode inputData) = 10924%nat).
Proof.
  assert (L : length (Uint8Array_of_Int16Array (floatTo16BitPCM inputData))
              = (2 * length inputData)%nat).
  { rewrite view_size. unfold floatTo16BitPCM. rewrite length_map. reflexivity. }
  assert (S : String.length (encode inputData)
              = (4 * ((2 * length inputData + 2) / 3))%nat).
  { unfold encode, arrayBufferToBase64, btoa.
    rewrite length_string_of_list_ascii, btoa_groups_length, length_map.
    rewrite length_list_ascii_of_string, length_string_of_list_ascii, length_map, L.
    reflexivity. }
  split; [unfold encode; apply base64_roundtrip, view_bytes|].
  split; [exact L|]. split; [exact S|].
  intros H. rewrite S, H. reflexivity.
Qed.

Lemma capture_chunk_is_well_formed_witness :
  length (repeat (1 # 3) 4096) = 4096%nat /\
  String.length (encode (repeat (1 # 3) 4096)) = 10924%nat.
Proof.
  assert (H : length (repeat (1 # 3) 4096) = 4096%nat) by apply repeat_length.
  split; [exact H|].
  exact (proj2 (proj2 (proj2 (capture_chunk_is_well_formed (repeat (1 # 3) 4096)))) H).
Defined.
